(** * matrix_client.client: the client, room and sync logic of the SDK

    A shallow embedding of [src/matrix_client/client.py] and the properties
    of its event synchronisation, room registry and room operations.

    Conventions of the embedding.
    - Parsed JSON (what the HTTP layer hands back) is the type [json]; the
      few Python operations the client applies to such values ([x[k]],
      [k in x], [for e in x], [==], hashing as a dict key) are written out
      with the exception Python raises when the value has the wrong kind.
      JSON numbers are integers here; floating point values are outside
      the model.
    - Python objects that are shared and mutated ([Room] instances) live in
      a heap addressed by natural numbers; [MatrixClient.rooms] maps a
      hashed room identifier to an address.
    - A method is a function [state -> state * res A]: the state reached is
      kept when an exception is raised, as in Python.
    - The HTTP layer ([MatrixHttpApi], module [api], which is not part of
      this file's source) and the user's callbacks are parameters. A
      callback may observe the Python state and act on the environment
      and does not mutate the chunk. In the first parts of the file it
      does not change the client either; the part on callbacks that act
      on the client lifts this: there a callback leaves a Python state of
      its own making, and the loops over the listeners read the lists as
      they are at each step. *)

From Stdlib Require Import ZArith String List Bool.
From stdpp Require Import base option list gmap strings.

Set Warnings "-register-all".
Local Open Scope string_scope.
Local Open Scope Z_scope.

(** ** Exceptions and results *)

(** Modelled from the spec: the classes [MatrixRequestError] and
    [MatrixUnexpectedResponse] are declared in [api.py]; the spec describes
    them as two distinct error kinds, the first carrying a code and a
    message. [KeyError], [TypeError] and [AttributeError] are Python
    built-ins; [UserError] stands for anything else a callback or the
    transport may raise. [BadAddress] is not a Python exception: it marks
    the use of an address at which the heap of the model holds no object,
    which no Python run reaches. *)
Inductive exn : Type :=
  | KeyError
  | TypeError
  | AttributeError
  | MatrixRequestError (code : Z) (content : string)
  | MatrixUnexpectedResponse (content : string)
  | UserError (tag : string)
  | BadAddress.

Inductive res (A : Type) : Type :=
  | Ok (a : A)
  | Raise (e : exn).
Arguments Ok {A} a.
Arguments Raise {A} e.

Definition res_bind {A B} (r : res A) (k : A -> res B) : res B :=
  match r with
  | Ok a => k a
  | Raise e => Raise e
  end.

(** ** Parsed JSON and the Python operations on it *)

Inductive json : Type :=
  | JNull
  | JBool (b : bool)
  | JInt (n : Z)
  | JStr (s : string)
  | JList (l : list json)
  | JDict (d : list (string * json)).

(** A [dict] keeps insertion order; its keys are unique in Python, and
    the lookup below reads the first binding of a key. *)
Fixpoint assoc {A} (k : string) (d : list (string * A)) : option A :=
  match d with
  | [] => None
  | (k', v) :: d' => if String.eqb k k' then Some v else assoc k d'
  end.

(** Python's [==] on parsed JSON: [True == 1], lists compare element by
    element, dicts compare as finite maps. *)
Fixpoint py_eq (a b : json) {struct a} : bool :=
  match a, b with
  | JNull, JNull => true
  | JBool x, JBool y => Bool.eqb x y
  | JBool x, JInt n => n =? (if x then 1 else 0)
  | JInt n, JBool x => n =? (if x then 1 else 0)
  | JInt m, JInt n => m =? n
  | JStr s, JStr t => String.eqb s t
  | JList l, JList m =>
      (fix go (l m : list json) {struct l} : bool :=
         match l, m with
         | [], [] => true
         | x :: l', y :: m' => py_eq x y && go l' m'
         | _, _ => false
         end) l m
  | JDict d, JDict e =>
      Nat.eqb (length d) (length e) &&
      (fix go (d : list (string * json)) {struct d} : bool :=
         match d with
         | [] => true
         | (k, v) :: d' =>
             match assoc k e with
             | Some w => py_eq v w
             | None => false
             end && go d'
         end) d
  | _, _ => false
  end.

(** [needle in haystack] on two [str]: substring test. *)
Fixpoint is_prefix (p s : string) : bool :=
  match p, s with
  | EmptyString, _ => true
  | String a p', String b s' => Ascii.eqb a b && is_prefix p' s'
  | String _ _, EmptyString => false
  end.

Fixpoint is_substring (p s : string) : bool :=
  is_prefix p s ||
  match s with
  | EmptyString => false
  | String _ s' => is_substring p s'
  end.

(** [x[k]] for a [str] literal [k]. *)
Definition py_getitem (x : json) (k : string) : res json :=
  match x with
  | JDict d =>
      match assoc k d with
      | Some v => Ok v
      | None => Raise KeyError
      end
  | _ => Raise TypeError
  end.

(** [k in x] for a [str] literal [k]. *)
Definition py_in (k : string) (x : json) : res bool :=
  match x with
  | JDict d => Ok (bool_decide (is_Some (assoc k d)))
  | JList l => Ok (existsb (py_eq (JStr k)) l)
  | JStr s => Ok (is_substring k s)
  | _ => Raise TypeError
  end.

(** The characters of a [str], each a [str] of length one. A [string]
    stands for the sequence of characters of the Python [str], one
    [ascii] for each: text with characters beyond that alphabet is
    outside the model. *)
Fixpoint chars (s : string) : list json :=
  match s with
  | EmptyString => []
  | String a s' => JStr (String a EmptyString) :: chars s'
  end.

(** The elements [for e in x] visits. *)
Definition py_iter (x : json) : res (list json) :=
  match x with
  | JList l => Ok l
  | JDict d => Ok (map (fun kv => JStr (fst kv)) d)
  | JStr s => Ok (chars s)
  | _ => Raise TypeError
  end.

(** Keys of [MatrixClient.rooms]. A [list] or a [dict] is unhashable;
    [True] and [1] are the same key. *)
Inductive key : Type :=
  | KNone
  | KInt (n : Z)
  | KStr (s : string).

Definition py_hash (v : json) : res key :=
  match v with
  | JNull => Ok KNone
  | JBool b => Ok (KInt (if b then 1 else 0))
  | JInt n => Ok (KInt n)
  | JStr s => Ok (KStr s)
  | JList _ | JDict _ => Raise TypeError
  end.

#[global] Instance key_eq_dec : EqDecision key.
Proof. solve_decision. Defined.

Definition key_to_sum (k : key) : option (Z + string) :=
  match k with
  | KNone => None
  | KInt n => Some (inl n)
  | KStr s => Some (inr s)
  end.

Definition key_of_sum (o : option (Z + string)) : key :=
  match o with
  | None => KNone
  | Some (inl n) => KInt n
  | Some (inr s) => KStr s
  end.

#[global] Instance key_countable : Countable key.
Proof.
  apply (inj_countable' key_to_sum key_of_sum).
  intros []; reflexivity.
Defined.

(** ** The object model *)

(** Addresses of room objects and names of callbacks are numbers. *)
Abbreviation addr := nat (only parsing).
Abbreviation lid := nat (only parsing).

(** [Room.__init__]. The back-reference [self.client] is not stored: the
    model has one client, the one of the state. *)
Record Room : Type := mkRoom {
  room_id : json;
  r_listeners : list lid;
  events : list json;
  name : json;
  aliases : json;
  topic : json
}.

Definition Room_init (rid : json) : Room :=
  {| room_id := rid;
     r_listeners := [];
     events := [];
     name := JNull;
     aliases := JList [];
     topic := JNull |}.

(** [MatrixClient]: [end_] is [None] until the attribute [self.end] has
    been assigned. *)
Record MatrixClient : Type := mkClient {
  listeners : list lid;
  rooms : gmap key addr;
  end_ : option json
}.

Definition MatrixClient_init : MatrixClient :=
  {| listeners := []; rooms := ∅; end_ := None |}.

Record pystate : Type := mkPy {
  heap : list Room;
  client : MatrixClient
}.

(** The calls the client makes on [self.api], with the arguments it
    passes. [ApiKickUser] has room for the optional third argument of
    the HTTP layer's [kick_user]. *)
Inductive api_call : Type :=
  | ApiInitialSync (limit : Z)
  | ApiEventStream (from : json) (timeout : Z)
  | ApiCreateRoom (alias : option string) (is_public : bool)
                  (invitees : list string)
  | ApiJoinRoom (room_id_or_alias : string)
  | ApiMediaUpload (content : list Byte.byte) (content_type : string)
  | ApiKickUser (rid : json) (user_id : string) (reason : option string)
  | ApiLeaveRoom (rid : json)
  | ApiGetRoomState (rid : json).

(** The loop that calls a callback: the one over [self.listeners], or
    the one over the listeners of the room at an address. *)
Inductive scope : Type :=
  | Global
  | RoomScope (a : addr).

(** One call of a callback: which loop made it, the callback, its
    argument, the Python state it could observe and how it ended. *)
Record invocation : Type := mkInv {
  inv_scope : scope;
  inv_listener : lid;
  inv_chunk : json;
  inv_seen : pystate;
  inv_result : res unit
}.

(** Everything outside the process: the homeserver behind the HTTP layer
    and whatever the callbacks act on. [request_error_str] is [str(e)] of
    a [MatrixRequestError], defined in [api.py]. *)
Class World : Type := mkWorld {
  Env : Type;
  transport : api_call -> Env -> Env * res json;
  callback : lid -> json -> pystate -> Env -> Env * res unit;
  request_error_str : Z -> string -> string
}.

Section Client.

Context `{W : World}.

Record state : Type := mkState {
  py : pystate;
  env : Env;
  api_log : list api_call;
  trace : list invocation
}.

Definition M (A : Type) : Type := state -> state * res A.

Definition ret {A} (a : A) : M A := fun st => (st, Ok a).
Definition raise {A} (e : exn) : M A := fun st => (st, Raise e).
Definition bind {A B} (m : M A) (k : A -> M B) : M B :=
  fun st =>
    match m st with
    | (st', Ok a) => k a st'
    | (st', Raise e) => (st', Raise e)
    end.
Definition lift {A} (r : res A) : M A := fun st => (st, r).

Notation "'let*' x ':=' m 'in' k" := (bind m (fun x => k))
  (at level 10, x name, m at level 99, k at level 200).
Notation "m1 ';;;' m2" := (bind m1 (fun _ => m2))
  (at level 100, right associativity).

(** [try: m except KeyError: pass] *)
Definition try_except_KeyError_pass (m : M unit) : M unit :=
  fun st =>
    match m st with
    | (st', Raise KeyError) => (st', Ok tt)
    | r => r
    end.

(** [for x in l: body x] *)
Fixpoint for_each {A} (l : list A) (body : A -> M unit) : M unit :=
  match l with
  | [] => ret tt
  | x :: l' => body x ;;; for_each l' body
  end.

(** [for x in l: body x], where the body may [return v] ([Some v]);
    the loop yields [None] when it runs to its end. *)
Fixpoint for_return {A R} (l : list A) (body : A -> M (option R))
  : M (option R) :=
  match l with
  | [] => ret None
  | x :: l' =>
      let* r := body x in
      match r with
      | Some v => ret (Some v)
      | None => for_return l' body
      end
  end.

(** *** Primitive steps *)

Definition with_py (st : state) (p : pystate) : state :=
  {| py := p; env := env st; api_log := api_log st;
     trace := trace st |}.

Definition with_heap (p : pystate) (h : list Room) : pystate :=
  {| heap := h; client := client p |}.

Definition with_client (p : pystate) (c : MatrixClient) : pystate :=
  {| heap := heap p; client := c |}.

Definition get_py : M pystate := fun st => (st, Ok (py st)).

Definition set_py (p : pystate) : M unit :=
  fun st => (with_py st p, Ok tt).

Definition set_heap (h : list Room) : M unit :=
  let* p := get_py in set_py (with_heap p h).

(** [self.api.<call>]: logged, then answered by the transport. *)
Definition after_call (st : state) (c : api_call) (e' : Env) : state :=
  {| py := py st; env := e'; api_log := api_log st ++ [c];
     trace := trace st |}.

Definition api (c : api_call) : M json :=
  fun st =>
    let '(e', r) := transport c (env st) in
    (after_call st c e', r).

(** [listener(chunk)] *)
Definition after_invoke (st : state) (i : invocation) (e' : Env)
  : state :=
  {| py := py st; env := e'; api_log := api_log st;
     trace := trace st ++ [i] |}.

Definition invoke (sc : scope) (l : lid) (chunk : json) : M unit :=
  fun st =>
    let '(e', r) := callback l chunk (py st) (env st) in
    (after_invoke st
       {| inv_scope := sc; inv_listener := l; inv_chunk := chunk;
          inv_seen := py st; inv_result := r |} e', r).

(** The calls of callbacks made between two states. *)
Definition new_trace (st st' : state) : list invocation :=
  drop (length (trace st)) (trace st').

(** [self.end] *)
Definition get_end : M json :=
  let* p := get_py in
  match end_ (client p) with
  | Some v => ret v
  | None => raise AttributeError
  end.

(** [self.end = v] *)
Definition with_end (p : pystate) (v : json) : pystate :=
  with_client p {| listeners := listeners (client p);
                   rooms := rooms (client p);
                   end_ := Some v |}.

Definition set_end (v : json) : M unit :=
  let* p := get_py in set_py (with_end p v).

(** [Room(self, room_id)]: a new object. *)
Definition new_Room (rid : json) : M addr :=
  let* p := get_py in
  set_heap (heap p ++ [Room_init rid]) ;;;
  ret (length (heap p)).

(** [self.rooms[room_id] = room] *)
Definition registered (p : pystate) (k : key) (a : addr) : pystate :=
  with_client p {| listeners := listeners (client p);
                   rooms := <[k:=a]> (rooms (client p));
                   end_ := end_ (client p) |}.

Definition rooms_setitem (rid : json) (a : addr) : M unit :=
  let* k := lift (py_hash rid) in
  let* p := get_py in
  set_py (registered p k a).

(** [self.rooms[room_id]] *)
Definition rooms_getitem (rid : json) : M addr :=
  let* k := lift (py_hash rid) in
  let* p := get_py in
  match rooms (client p) !! k with
  | Some a => ret a
  | None => raise KeyError
  end.

(** [room_id in self.rooms] *)
Definition rooms_contains (rid : json) : M bool :=
  let* k := lift (py_hash rid) in
  let* p := get_py in
  ret (bool_decide (is_Some (rooms (client p) !! k))).

(** [self.rooms.remove]: the registry is a [dict], and a [dict] has no
    attribute [remove] ([list] and [set] have one). Looking the method up
    raises, before its argument is evaluated and before anything is
    removed. *)
Definition rooms_remove : M (json -> M unit) :=
  raise AttributeError.

(** Reading and updating the attributes of the room object at an
    address. *)
Definition get_room (a : addr) : M Room :=
  let* p := get_py in
  match heap p !! a with
  | Some r => ret r
  | None => raise BadAddress
  end.

Definition modify_room (a : addr) (f : Room -> Room) : M unit :=
  let* r := get_room a in
  let* p := get_py in
  set_heap (<[a:=f r]> (heap p)).

(** [try: m except MatrixRequestError as e: h e.code e.content] *)
Definition try_except_MatrixRequestError {A} (m : M A)
  (h : Z -> string -> M A) : M A :=
  fun st =>
    match m st with
    | (st', Raise (MatrixRequestError c s)) => h c s st'
    | r => r
    end.

Definition set_name (v : json) (r : Room) : Room :=
  {| room_id := room_id r; r_listeners := r_listeners r;
     events := events r; name := v; aliases := aliases r;
     topic := topic r |}.

Definition set_topic (v : json) (r : Room) : Room :=
  {| room_id := room_id r; r_listeners := r_listeners r;
     events := events r; name := name r; aliases := aliases r;
     topic := v |}.

Definition set_aliases (v : json) (r : Room) : Room :=
  {| room_id := room_id r; r_listeners := r_listeners r;
     events := events r; name := name r; aliases := v;
     topic := topic r |}.

(** [room.events.append(chunk)] *)
Definition append_event (chunk : json) (r : Room) : Room :=
  {| room_id := room_id r; r_listeners := r_listeners r;
     events := events r ++ [chunk]; name := name r;
     aliases := aliases r; topic := topic r |}.

(** [room.listeners.append(callback)] *)
Definition append_listener (l : lid) (r : Room) : Room :=
  {| room_id := room_id r; r_listeners := r_listeners r ++ [l];
     events := events r; name := name r;
     aliases := aliases r; topic := topic r |}.

(** *** [MatrixClient] *)

Definition _mkroom (rid : json) : M addr :=
  let* a := new_Room rid in
  rooms_setitem rid a ;;;
  rooms_getitem rid.

Definition create_room (alias : option string) (is_public : bool)
  (invitees : list string) : M addr :=
  let* response := api (ApiCreateRoom alias is_public invitees) in
  let* rid := lift (py_getitem response "room_id") in
  _mkroom rid.

Definition join_room (room_id_or_alias : string) : M addr :=
  let* response := api (ApiJoinRoom room_id_or_alias) in
  let* has := lift (py_in "room_id" response) in
  let* rid := (if has then lift (py_getitem response "room_id")
               else ret (JStr room_id_or_alias)) in
  _mkroom rid.

Definition add_listener (cb : lid) : M unit :=
  let* p := get_py in
  set_py (with_client p {| listeners := listeners (client p) ++ [cb];
                           rooms := rooms (client p);
                           end_ := end_ (client p) |}).

(** The body of the loop of [listen_for_events]. *)
Definition process_chunk (chunk : json) : M unit :=
  let* p := get_py in
  for_each (listeners (client p))
    (fun listener => invoke Global listener chunk) ;;;
  let* has := lift (py_in "room_id" chunk) in
  if has then
    let* rid := lift (py_getitem chunk "room_id") in
    let* present := rooms_contains rid in
    (if negb present then
       let* rid := lift (py_getitem chunk "room_id") in
       _mkroom rid ;;; ret tt
     else ret tt) ;;;
    let* rid := lift (py_getitem chunk "room_id") in
    let* a := rooms_getitem rid in
    modify_room a (append_event chunk) ;;;
    let* rid := lift (py_getitem chunk "room_id") in
    let* a := rooms_getitem rid in
    let* r := get_room a in
    for_each (r_listeners r)
      (fun listener => invoke (RoomScope a) listener chunk)
  else ret tt.

Definition listen_for_events (timeout : Z) : M unit :=
  let* cur := get_end in
  let* response := api (ApiEventStream cur timeout) in
  let* e := lift (py_getitem response "end") in
  set_end e ;;;
  let* ch := lift (py_getitem response "chunk") in
  let* cl := lift (py_iter ch) in
  for_each cl process_chunk.

Definition upload (content : list Byte.byte) (content_type : string)
  : M json :=
  try_except_MatrixRequestError
    (let* response := api (ApiMediaUpload content content_type) in
     let* has := lift (py_in "content_uri" response) in
     if has then lift (py_getitem response "content_uri")
     else raise (MatrixUnexpectedResponse
       "The upload was successful, but content_uri wasn't found."))
    (fun code content =>
       raise (MatrixRequestError code
         ("Upload failed: " ++ request_error_str code content))).

Definition _process_state_event (state_event : json)
  (current_room : addr) : M unit :=
  let* has := lift (py_in "type" state_event) in
  if negb has then ret tt
  else
    let* etype := lift (py_getitem state_event "type") in
    if py_eq etype (JStr "m.room.name") then
      let* c := lift (py_getitem state_event "content") in
      let* v := lift (py_getitem c "name") in
      modify_room current_room (set_name v)
    else if py_eq etype (JStr "m.room.topic") then
      let* c := lift (py_getitem state_event "content") in
      let* v := lift (py_getitem c "topic") in
      modify_room current_room (set_topic v)
    else if py_eq etype (JStr "m.room.aliases") then
      let* c := lift (py_getitem state_event "content") in
      let* v := lift (py_getitem c "aliases") in
      modify_room current_room (set_aliases v)
    else ret tt.

(** The body of the loop over [response["rooms"]] in [_sync]. *)
Definition sync_room (room : json) : M unit :=
  let* rid := lift (py_getitem room "room_id") in
  _mkroom rid ;;;
  let* rid := lift (py_getitem room "room_id") in
  let* current_room := rooms_getitem rid in
  let* ms := lift (py_getitem room "messages") in
  let* ch := lift (py_getitem ms "chunk") in
  let* cl := lift (py_iter ch) in
  for_each cl
    (fun chunk => modify_room current_room (append_event chunk)) ;;;
  let* ss := lift (py_getitem room "state") in
  let* sl := lift (py_iter ss) in
  for_each sl
    (fun state_event => _process_state_event state_event current_room).

(** The body of the [try] of [_sync]. *)
Definition sync_body (response : json) : M unit :=
  let* e := lift (py_getitem response "end") in
  set_end e ;;;
  let* rs := lift (py_getitem response "rooms") in
  let* rl := lift (py_iter rs) in
  for_each rl sync_room.

Definition _sync (limit : Z) : M unit :=
  let* response := api (ApiInitialSync limit) in
  try_except_KeyError_pass (sync_body response).

(** *** [Room]; [self] is the address of the room object. *)

Definition Room_add_listener (self : addr) (cb : lid) : M unit :=
  modify_room self (append_listener cb).

Definition Room_kick_user (self : addr) (user_id : string)
  (reason : string) : M bool :=
  try_except_MatrixRequestError
    (let* r := get_room self in
     api (ApiKickUser (room_id r) user_id None) ;;;
     ret true)
    (fun _ _ => ret false).

Definition Room_leave (self : addr) : M bool :=
  try_except_MatrixRequestError
    (let* r := get_room self in
     api (ApiLeaveRoom (room_id r)) ;;;
     let* remove := rooms_remove in
     let* r := get_room self in
     remove (room_id r) ;;;
     ret true)
    (fun _ _ => ret false).

(** The test [if "content" in chunk and "aliases" in chunk["content"]]. *)
Definition has_aliases (chunk : json) : res bool :=
  res_bind (py_in "content" chunk) (fun has =>
    if has then
      res_bind (py_getitem chunk "content") (fun c => py_in "aliases" c)
    else Ok false).

(** The body of the loop of [update_aliases]; [Some b] is [return b]. *)
Definition update_aliases_step (self : addr) (chunk : json)
  : M (option bool) :=
  let* has := lift (has_aliases chunk) in
  if has then
    let* c := lift (py_getitem chunk "content") in
    let* al := lift (py_getitem c "aliases") in
    let* r := get_room self in
    if negb (py_eq al (aliases r)) then
      let* c := lift (py_getitem chunk "content") in
      let* al := lift (py_getitem c "aliases") in
      modify_room self (set_aliases al) ;;;
      ret (Some true)
    else ret (Some false)
  else ret None.

(** [update_aliases] yields [True], [False] or, when no chunk carries
    aliases, [None]. *)
Definition Room_update_aliases (self : addr) : M json :=
  try_except_MatrixRequestError
    (let* r := get_room self in
     let* response := api (ApiGetRoomState (room_id r)) in
     let* cl := lift (py_iter response) in
     let* out := for_return cl (update_aliases_step self) in
     ret (match out with
          | Some b => JBool b
          | None => JNull
          end))
    (fun _ _ => ret (JBool false)).

End Client.

Local Open Scope list_scope.

(** ** The delivery order the specification prescribes

    Written from the specification's sentences about fan-out, to be
    compared with the trace [listen_for_events] leaves: chunks in the
    order of the response; for each chunk the global listeners in
    registration order, then, when the chunk carries a room identifier,
    the listeners of that room in registration order. *)

Definition room_listeners_at (p : pystate) (rid : json)
  : list (scope * lid) :=
  match py_hash rid with
  | Ok k =>
      match rooms (client p) !! k with
      | Some a =>
          match heap p !! a with
          | Some r => map (fun l => (RoomScope a, l)) (r_listeners r)
          | None => []
          end
      | None => []
      end
  | Raise _ => []
  end.

Definition spec_chunk_delivery (p : pystate) (chunk : json)
  : list (scope * lid * json) :=
  map (fun l => (Global, l, chunk)) (listeners (client p)) ++
  match py_getitem chunk "room_id" with
  | Ok rid => map (fun sl => (fst sl, snd sl, chunk)) (room_listeners_at p rid)
  | Raise _ => []
  end.

Definition spec_delivery (p : pystate) (chunks : list json)
  : list (scope * lid * json) :=
  flat_map (spec_chunk_delivery p) chunks.

(** What a trace says was delivered. *)
Definition delivered (t : list invocation) : list (scope * lid * json) :=
  map (fun i => (inv_scope i, inv_listener i, inv_chunk i)) t.

(** ** Responses whose present fields have the expected kind

    A field may be missing; a field that is present is a dict, a list or
    a hashable identifier where the client expects one. *)

Definition is_dict (x : json) : bool :=
  match x with
  | JDict _ => true
  | _ => false
  end.

Definition is_list_of (P : json -> bool) (x : json) : bool :=
  match x with
  | JList l => forallb P l
  | _ => false
  end.

Definition is_hashable (x : json) : bool :=
  match x with
  | JList _ | JDict _ => false
  | _ => true
  end.

Definition field_if_present (k : string) (P : json -> bool) (x : json)
  : bool :=
  match x with
  | JDict d =>
      match assoc k d with
      | Some v => P v
      | None => true
      end
  | _ => false
  end.

Definition state_event_shape (ev : json) : bool :=
  field_if_present "content" is_dict ev.

Definition room_shape (room : json) : bool :=
  field_if_present "room_id" is_hashable room &&
  field_if_present "messages"
    (field_if_present "chunk" (is_list_of (fun _ => true))) room &&
  field_if_present "state" (is_list_of state_event_shape) room.

Definition sync_shape (response : json) : bool :=
  field_if_present "rooms" (is_list_of room_shape) response.

Definition chunk_shape (chunk : json) : bool :=
  field_if_present "room_id" is_hashable chunk.

(** Every registered room is an object of the heap. *)
Definition registry_ok (p : pystate) : Prop :=
  ∀ k a, rooms (client p) !! k = Some a → (a < length (heap p))%nat.

(** ** Predicates on traces *)

Definition all_returned (t : list invocation) : Prop :=
  Forall (fun i => inv_result i = Ok tt) t.

Definition raised_last (t : list invocation) (out : res unit) : Prop :=
  all_returned t ∨
  ∃ pre i e, t = pre ++ [i] ∧ all_returned pre ∧
             inv_result i = Raise e ∧ out = Raise e.

Definition seen_end (tok : option json) (t : list invocation) : Prop :=
  Forall (fun i => end_ (client (inv_seen i)) = tok) t.

Definition seen_logged (t : list invocation) : Prop :=
  Forall (fun i => ∀ a, inv_scope i = RoomScope a →
            ∃ r, heap (inv_seen i) !! a = Some r ∧
                 last (events r) = Some (inv_chunk i)) t.

Section Predicates.

Context `{W : World}.

(** What processing a list of chunks from [st] to [st'] with outcome
    [out] and new calls [new] guarantees. *)
Record delivery_post (chunks : list json) (st st' : state)
    (out : res unit) (new : list invocation) : Prop := {
  dp_trace : trace st' = trace st ++ new;
  dp_log : api_log st' = api_log st;
  dp_listeners : listeners (client (py st')) = listeners (client (py st));
  dp_end : end_ (client (py st')) = end_ (client (py st));
  dp_room_listeners :
    ∀ rid, room_listeners_at (py st') rid = room_listeners_at (py st) rid;
  dp_prefix : delivered new `prefix_of` spec_delivery (py st) chunks;
  dp_complete : out = Ok tt → delivered new = spec_delivery (py st) chunks;
  dp_seen_end : seen_end (end_ (client (py st))) new;
  dp_seen_logged : seen_logged new;
  dp_raised : raised_last new out
}.

(** A step that returns or raises [KeyError], and keeps an invariant. *)
Definition quiet (I : state → Prop) (st : state)
  (r : state * res unit) : Prop :=
  (snd r = Ok tt ∨ snd r = Raise KeyError) ∧ (I st → I (fst r)).

Definition allocated (a : addr) (st : state) : Prop :=
  (a < length (heap (py st)))%nat.

(** Callbacks that return, whatever they are called with. *)
Definition callbacks_return : Prop :=
  ∀ l chunk p e, snd (callback l chunk p e) = Ok tt.

End Predicates.

(** ** Sequences of polls *)

Section Polls.

Context `{W : World}.

(** A sequence of calls of [listen_for_events], one per timeout, each
    from the state the previous one left, whatever its outcome: the
    states before and after each call. *)
Fixpoint poll_runs (timeouts : list Z) (st : state)
  : list (state * state) :=
  match timeouts with
  | [] => []
  | timeout :: timeouts' =>
      let st' := fst (listen_for_events timeout st) in
      (st, st') :: poll_runs timeouts' st'
  end.

(** The event stream answers each call of the sequence, the answer to
    the call with timeout [fst call] carrying the [end] token
    [snd call]. *)
Fixpoint answered (calls : list (Z * json)) (st : state) : Prop :=
  match calls with
  | [] => True
  | (timeout, tok) :: calls' =>
      (∃ cur e' resp,
         end_ (client (py st)) = Some cur ∧
         transport (ApiEventStream cur timeout) (env st) = (e', Ok resp) ∧
         py_getitem resp "end" = Ok tok) ∧
      answered calls' (fst (listen_for_events timeout st))
  end.

(** What a call of the sequence guarantees: it asked the stream from the
    cursor it found, it left the cursor at the token of its answer, and
    the callbacks it called saw that token. *)
Definition cursor_advanced (call : Z * json) (run : state * state) : Prop :=
  (∃ cur, end_ (client (py (fst run))) = Some cur ∧
          api_log (snd run) =
            api_log (fst run) ++ [ApiEventStream cur (fst call)]) ∧
  end_ (client (py (snd run))) = Some (snd call) ∧
  seen_end (Some (snd call)) (new_trace (fst run) (snd run)).

End Polls.

(** ** A scripted world for concrete runs

    The transport answers each call with the next entry of a script; the
    callback numbered 13 raises, every other callback returns. *)
Module Scripted.

Definition answer (c : api_call) (script : list (res json))
  : list (res json) * res json :=
  match script with
  | [] => ([], Raise (MatrixRequestError 0 "script exhausted"))
  | r :: script' => (script', r)
  end.

Definition react (l : lid) (chunk : json) (p : pystate)
  (script : list (res json)) : list (res json) * res unit :=
  (script, if Nat.eqb l 13 then Raise (UserError "boom") else Ok tt).

Definition world : World :=
  {| Env := list (res json);
     transport := answer;
     callback := react;
     request_error_str := fun code content => content |}.

Definition start (p : pystate) (script : list (res json))
  : @state world :=
  @mkState world p script [] [].

Definition fresh : pystate :=
  {| heap := []; client := MatrixClient_init |}.

Definition message (rid body : string) : json :=
  JDict [("type", JStr "m.room.message"); ("room_id", JStr rid);
         ("body", JStr body)].

Definition hi : json :=
  JDict [("type", JStr "m.room.message"); ("body", JStr "hi")].

(** One room ["!a:x"], named, that has logged one event and has the room
    listener 5; the global listener 7; cursor ["tok1"]. *)
Definition lobby : pystate :=
  {| heap := [ {| room_id := JStr "!a:x";
                  r_listeners := [5%nat];
                  events := [hi];
                  name := JStr "Lobby";
                  aliases := JList [];
                  topic := JNull |} ];
     client := {| listeners := [7%nat];
                  rooms := {[ KStr "!a:x" := 0%nat ]};
                  end_ := Some (JStr "tok1") |} |}.

(** The same, with the raising callback 13 registered before 7. *)
Definition lobby13 : pystate :=
  with_client lobby {| listeners := [13%nat; 7%nat];
                       rooms := rooms (client lobby);
                       end_ := end_ (client lobby) |}.

Definition name_event : json :=
  JDict [("type", JStr "m.room.name");
         ("content", JDict [("name", JStr "Hall")])].

Definition member_event : json :=
  JDict [("type", JStr "m.room.member"); ("content", JDict [])].

Definition untyped_event : json :=
  JDict [("content", JDict [("name", JStr "Hall")])].

Definition aliases_event (al : list string) : json :=
  JDict [("type", JStr "m.room.aliases");
         ("content", JDict [("aliases", JList (map JStr al))])].

Definition poll_response (tok : string) (chunks : list json) : json :=
  JDict [("end", JStr tok); ("chunk", JList chunks)].

Definition sync_room_descr (rid : string) (chunks states : list json)
  : json :=
  JDict [("room_id", JStr rid);
         ("messages", JDict [("chunk", JList chunks)]);
         ("state", JList states)].

Definition sync_response (tok : string) (rooms : list json) : json :=
  JDict [("end", JStr tok); ("rooms", JList rooms)].

End Scripted.

(** * Invariants, construction and the account layer

    Definitions for the further properties at the end of the file:
    invariants of the registry, a program logic over the Python
    state, construction, the endless loop, and the account layer. *)

(** Every registered identifier leads to a room object that carries it. *)
Definition registry_sound (p : pystate) : Prop :=
  ∀ k a, rooms (client p) !! k = Some a →
         ∃ r, heap p !! a = Some r ∧ py_hash (room_id r) = Ok k.

(** A room object that kept its identity, listeners and cached state,
    and whose log only grew. *)
Definition room_grows (r r' : Room) : Prop :=
  room_id r' = room_id r ∧ r_listeners r' = r_listeners r ∧
  name r' = name r ∧ aliases r' = aliases r ∧ topic r' = topic r ∧
  events r `prefix_of` events r'.

Definition grows (p p' : pystate) : Prop :=
  listeners (client p') = listeners (client p) ∧
  (∀ k a, rooms (client p) !! k = Some a → rooms (client p') !! k = Some a) ∧
  (∀ a r, heap p !! a = Some r →
          ∃ r', heap p' !! a = Some r' ∧ room_grows r r').

Section Hoare.
Context `{W : World}.

(** [hoare P m Q E]: from a Python state in [P], [m] ends in [Q] when it
    returns and in [E] when it raises. *)
Definition hoare {A} (P : pystate → Prop) (m : M A)
  (Q : A → pystate → Prop) (E : pystate → Prop) : Prop :=
  ∀ st, P (py st) →
    match m st with
    | (st', Ok a) => Q a (py st')
    | (st', Raise _) => E (py st')
    end.
End Hoare.

(** The room a chunk is for: the one registered under its [room_id]. *)
Definition room_of (p : pystate) (chunk : json) : option addr :=
  match py_getitem chunk "room_id" with
  | Ok rid =>
      match py_hash rid with
      | Ok k => rooms (client p) !! k
      | Raise _ => None
      end
  | Raise _ => None
  end.

(** The two halves of what a chunk brings about: the calls of the
    global listeners and the calls of the listeners of its room. *)
Definition global_calls (p : pystate) (chunk : json)
  : list (scope * lid * json) :=
  map (fun l => (Global, l, chunk)) (listeners (client p)).

Definition room_calls (p : pystate) (chunk : json)
  : list (scope * lid * json) :=
  match py_getitem chunk "room_id" with
  | Ok rid => map (fun sl => (fst sl, snd sl, chunk)) (room_listeners_at p rid)
  | Raise _ => []
  end.

(** ** The cached attributes of a room

    The table of [_process_state_event]: the event type that assigns an
    attribute, the key of [content] it reads, and the attribute. *)

Inductive attribute : Type :=
  | Name
  | Topic
  | Aliases.

Definition event_type (f : attribute) : string :=
  match f with
  | Name => "m.room.name"
  | Topic => "m.room.topic"
  | Aliases => "m.room.aliases"
  end.

Definition content_key (f : attribute) : string :=
  match f with
  | Name => "name"
  | Topic => "topic"
  | Aliases => "aliases"
  end.

Definition cached (f : attribute) (r : Room) : json :=
  match f with
  | Name => name r
  | Topic => topic r
  | Aliases => aliases r
  end.

(** [state_event["type"] == etype], false when there is no type. *)
Definition typed (etype : string) (ev : json) : bool :=
  match py_getitem ev "type" with
  | Ok t => py_eq t (JStr etype)
  | Raise _ => false
  end.

(** ** Construction and the endless poll loop *)

Section Lifecycle.

Context `{W : World}.

Local Notation "'let*' x ':=' m 'in' k" := (bind m (fun x => k))
  (at level 10, x name, m at level 99, k at level 200).
Local Notation "m1 ';;;' m2" := (bind m1 (fun _ => m2))
  (at level 100, right associativity).

(** [if token:] for the optional string [token]: [None] and the empty
    string are false. *)
Definition truthy (token : option string) : bool :=
  match token with
  | None => false
  | Some s => negb (String.eqb s "")
  end.

(** [MatrixClient.__init__]: the attributes of the new object are
    [listeners] and [rooms]; [self.end] is not among them. Building
    [self.api] and [validate_certificate] belong to [api.py]; they are
    taken to send no request. *)
Definition MatrixClient__init__ (token : option string) : M unit :=
  let* p := get_py in
  set_py (with_client p MatrixClient_init) ;;;
  if truthy token then _sync 1 else ret tt.

(** [listen_forever]: [while(True)] has no exit of its own. [fuel]
    bounds the iterations followed; [None] is a loop that is still
    running after them, [Some e] the exception that ended it. *)
Fixpoint listen_forever (fuel : nat) (timeout : Z) (st : state)
  : state * option exn :=
  match fuel with
  | O => (st, None)
  | S fuel' =>
      match listen_for_events timeout st with
      | (st', Ok _) => listen_forever fuel' timeout st'
      | (st', Raise e) => (st', Some e)
      end
  end.

(** The state after [n] calls of [listen_for_events]. *)
Fixpoint after_polls (n : nat) (timeout : Z) (st : state) : state :=
  match n with
  | O => st
  | S n' => after_polls n' timeout (fst (listen_for_events timeout st))
  end.

(** An event stream that answers every request with a cursor and a list
    of chunks of the expected shape. *)
Definition stream_answers (timeout : Z) : Prop :=
  ∀ cur e, ∃ e' resp tok chunks,
    transport (ApiEventStream cur timeout) e = (e', Ok resp) ∧
    py_getitem resp "end" = Ok tok ∧
    res_bind (py_getitem resp "chunk") py_iter = Ok chunks ∧
    forallb chunk_shape chunks = true.

(** A step that talks to nobody: it sends no request and calls no
    callback. *)
Definition offline {A} (m : M A) : Prop :=
  ∀ st, env (fst (m st)) = env st ∧
        api_log (fst (m st)) = api_log st ∧
        trace (fst (m st)) = trace st.

End Lifecycle.

(** ** The account and the remaining requests

    The account methods of [MatrixClient], the inviting, banning and
    refreshing methods of [Room] and [User.get_avatar_url] use
    requests of the HTTP layer that the synchronisation does not need.
    They are kept apart from [api_call]; the homeserver answers them from
    the same environment. *)

Inductive api_request : Type :=
  | ApiRegister (login_type user password : string)
  | ApiLogin (login_type user password : string)
  | ApiInviteUser (rid : json) (user_id : string)
  | ApiBanUser (rid : json) (user_id reason : string)
  | ApiGetRoomName (rid : json)
  | ApiGetRoomTopic (rid : json)
  | ApiGetAvatarUrl (user_id : string)
  | ApiGetDownloadUrl (mxcurl : json).

Class Homeserver (W : World) : Type := mkHomeserver {
  request : api_request -> @Env W -> @Env W * res json
}.

(** The attributes [user_id], [token] and [hs] of the client and the
    attribute [token] of its [api] object; [None] is an attribute that
    has not been assigned. *)
Record Account : Type := mkAccount {
  self_user_id : option json;
  self_token : option json;
  self_hs : option json;
  api_token : option json
}.

(** [User]: the object holds the identifier it was built with. *)
Record User : Type := mkUser {
  u_user_id : string
}.

Section Session.

Context `{W : World} `{H : !Homeserver W}.

(** The state of a run that uses the account: the state of the
    synchronisation, the account and the log of the requests sent. *)
Record session : Type := mkSession {
  core : state;
  account : Account;
  requests : list api_request
}.

Definition MS (A : Type) : Type := session -> session * res A.

Definition sret {A} (a : A) : MS A := fun s => (s, Ok a).
Definition sbind {A B} (m : MS A) (k : A -> MS B) : MS B :=
  fun s =>
    match m s with
    | (s', Ok a) => k a s'
    | (s', Raise e) => (s', Raise e)
    end.
Definition slift {A} (r : res A) : MS A := fun s => (s, r).

Local Notation "'let*' x ':=' m 'in' k" := (sbind m (fun x => k))
  (at level 10, x name, m at level 99, k at level 200).
Local Notation "m1 ';;;' m2" := (sbind m1 (fun _ => m2))
  (at level 100, right associativity).

(** A step of the synchronisation layer, run inside a session. *)
Definition with_core (s : session) (st : state) : session :=
  {| core := st; account := account s; requests := requests s |}.

Definition in_core {A} (m : M A) : MS A :=
  fun s =>
    let '(st', r) := m (core s) in
    (with_core s st', r).

(** [self.api.<method>(...)] for the requests above. *)
Definition after_request (s : session) (c : api_request) (e' : Env)
  : session :=
  {| core := {| py := py (core s); env := e';
                api_log := api_log (core s); trace := trace (core s) |};
     account := account s;
     requests := requests s ++ [c] |}.

Definition send (c : api_request) : MS json :=
  fun s =>
    let '(e', r) := request c (env (core s)) in
    (after_request s c e', r).

Definition with_account (s : session) (a : Account) : session :=
  {| core := core s; account := a; requests := requests s |}.

Definition set_user_id (v : json) : MS unit :=
  fun s =>
    (with_account s {| self_user_id := Some v;
                       self_token := self_token (account s);
                       self_hs := self_hs (account s);
                       api_token := api_token (account s) |}, Ok tt).

Definition set_token (v : json) : MS unit :=
  fun s =>
    (with_account s {| self_user_id := self_user_id (account s);
                       self_token := Some v;
                       self_hs := self_hs (account s);
                       api_token := api_token (account s) |}, Ok tt).

Definition set_hs (v : json) : MS unit :=
  fun s =>
    (with_account s {| self_user_id := self_user_id (account s);
                       self_token := self_token (account s);
                       self_hs := Some v;
                       api_token := api_token (account s) |}, Ok tt).

Definition set_api_token (v : json) : MS unit :=
  fun s =>
    (with_account s {| self_user_id := self_user_id (account s);
                       self_token := self_token (account s);
                       self_hs := self_hs (account s);
                       api_token := Some v |}, Ok tt).

(** [self.token] *)
Definition get_token : MS json :=
  fun s =>
    (s, match self_token (account s) with
        | Some v => Ok v
        | None => Raise AttributeError
        end).

(** [try: m except MatrixRequestError: h] *)
Definition try_except_request_error {A} (m : MS A) (h : MS A) : MS A :=
  fun s =>
    match m s with
    | (s', Raise (MatrixRequestError _ _)) => h s'
    | r => r
    end.

(** *** [MatrixClient] *)

(** The body [register_with_password] and [login_with_password] share
    after their request. *)
Definition start_session (response : json) (limit : Z) : MS json :=
  let* v := slift (py_getitem response "user_id") in
  set_user_id v ;;;
  let* v := slift (py_getitem response "access_token") in
  set_token v ;;;
  let* v := slift (py_getitem response "home_server") in
  set_hs v ;;;
  let* t := get_token in
  set_api_token t ;;;
  in_core (_sync limit) ;;;
  get_token.

Definition register_with_password (username password : string)
  (limit : Z) : MS json :=
  let* response := send (ApiRegister "m.login.password" username password) in
  start_session response limit.

Definition login_with_password (username password : string)
  (limit : Z) : MS json :=
  let* response := send (ApiLogin "m.login.password" username password) in
  start_session response limit.

(** *** [Room] *)

Definition Room_invite_user (self : addr) (user_id : string) : MS bool :=
  try_except_request_error
    (let* r := in_core (get_room self) in
     send (ApiInviteUser (room_id r) user_id) ;;;
     sret true)
    (sret false).

Definition Room_ban_user (self : addr) (user_id reason : string)
  : MS bool :=
  try_except_request_error
    (let* r := in_core (get_room self) in
     send (ApiBanUser (room_id r) user_id reason) ;;;
     sret true)
    (sret false).

(** In [if "name" in response and response["name"] != self.name] the
    second operand is evaluated only when the first holds. *)
Definition Room_update_room_name (self : addr) : MS bool :=
  try_except_request_error
    (let* r := in_core (get_room self) in
     let* response := send (ApiGetRoomName (room_id r)) in
     let* has := slift (py_in "name" response) in
     let* changed :=
       (if has then
          let* v := slift (py_getitem response "name") in
          let* r := in_core (get_room self) in
          sret (negb (py_eq v (name r)))
        else sret false) in
     if changed then
       let* v := slift (py_getitem response "name") in
       in_core (modify_room self (set_name v)) ;;;
       sret true
     else sret false)
    (sret false).

Definition Room_update_room_topic (self : addr) : MS bool :=
  try_except_request_error
    (let* r := in_core (get_room self) in
     let* response := send (ApiGetRoomTopic (room_id r)) in
     let* has := slift (py_in "topic" response) in
     let* changed :=
       (if has then
          let* v := slift (py_getitem response "topic") in
          let* r := in_core (get_room self) in
          sret (negb (py_eq v (topic r)))
        else sret false) in
     if changed then
       let* v := slift (py_getitem response "topic") in
       in_core (modify_room self (set_topic v)) ;;;
       sret true
     else sret false)
    (sret false).

(** *** [User] *)

Definition User_get_avatar_url (self : User) : MS json :=
  let* mxcurl := send (ApiGetAvatarUrl (u_user_id self)) in
  let* url := send (ApiGetDownloadUrl mxcurl) in
  sret url.

End Session.

(** ** A world whose event stream never runs dry

    Every request is answered with the cursor ["t"] and one message for
    the room ["!a:x"]; callbacks return. *)
Module Steady.

Definition answer (c : api_call) (n : nat) : nat * res json :=
  (S n, Ok (Scripted.poll_response "t" [Scripted.message "!a:x" "again"])).

Definition react (l : lid) (chunk : json) (p : pystate) (n : nat)
  : nat * res unit :=
  (n, Ok tt).

Definition world : World :=
  {| Env := nat;
     transport := answer;
     callback := react;
     request_error_str := fun code content => content |}.

Definition start (p : pystate) : @state world :=
  @mkState world p 0%nat [] [].

End Steady.

(** ** The scripted world with an account

    The requests of the account layer are answered from the same script. *)
Module ScriptedAccount.

Definition answer (c : api_request) (script : list (res json))
  : list (res json) * res json :=
  match script with
  | [] => ([], Raise (MatrixRequestError 0 "script exhausted"))
  | r :: script' => (script', r)
  end.

Definition homeserver : Homeserver Scripted.world :=
  @mkHomeserver Scripted.world answer.

Definition nobody : Account :=
  {| self_user_id := None; self_token := None; self_hs := None;
     api_token := None |}.

Definition start (p : pystate) (script : list (res json))
  : @session Scripted.world :=
  @mkSession Scripted.world (Scripted.start p script) nobody [].

End ScriptedAccount.

(** ** Callbacks that act on the client

    A callback is handed the chunk, but it can reach the client and its
    rooms, and Python lets it call [add_listener], [join_room] and the
    like, or change the lists directly. [effect] is the Python state a
    callback leaves; [callback] says what it does to the world and how
    it ends. A callback changes list objects in place, as [add_listener]
    does, and does not change the chunk.

    The loops [for listener in self.listeners] and
    [for listener in room.listeners] run on the live list: Python's list
    iterator keeps an index and reads the list again at every step, so a
    listener appended during the loop is called in the same loop, and
    after a removal the next listener is skipped. Such a loop need not
    end (a callback may append a listener at every call), so the loops
    below take fuel; [None] is a loop that has not ended within it. *)

Class Reentrant (W : World) : Type := mkReentrant {
  effect : lid -> json -> pystate -> @Env W -> pystate
}.

(** What the dispatch of a poll reads: the global listeners, the
    registry and, of every room object, its listeners and its log. *)
Definition dispatch_view (p : pystate)
  : list lid * gmap key addr * list (list lid * list json) :=
  (listeners (client p), rooms (client p),
   map (fun r => (r_listeners r, events r)) (heap p)).

(** The longest listener list: a loop over a list that no callback
    changes ends within that many steps. *)
Definition listener_bound (p : pystate) : nat :=
  Nat.max (length (listeners (client p)))
          (list_max (map (fun r => length (r_listeners r)) (heap p))).

(** The log of the room object at an address, empty when there is
    none. *)
Definition log_at (p : pystate) (a : addr) : list json :=
  match heap p !! a with
  | Some r => events r
  | None => []
  end.

Section Live.

Context `{W : World} `{R : !Reentrant W}.

(** A run that may not end within its fuel. *)
Definition L (A : Type) : Type := state -> option (state * res A).

Definition lret {A} (a : A) : L A := fun st => Some (st, Ok a).

Definition lbind {A B} (m : L A) (k : A -> L B) : L B :=
  fun st =>
    match m st with
    | Some (st', Ok a) => k a st'
    | Some (st', Raise e) => Some (st', Raise e)
    | None => None
    end.

(** A step that has no loop over a live list. *)
Definition run {A} (m : M A) : L A := fun st => Some (m st).

Local Notation "'let*' x ':=' m 'in' k" := (lbind m (fun x => k))
  (at level 10, x name, m at level 99, k at level 200).
Local Notation "m1 ';;;' m2" := (lbind m1 (fun _ => m2))
  (at level 100, right associativity).

(** [listener(chunk)], for a callback that may change the client. *)
Definition invoke_live (sc : scope) (l : lid) (chunk : json) : M unit :=
  fun st =>
    let '(e', r) := callback l chunk (py st) (env st) in
    (after_invoke (with_py st (effect l chunk (py st) (env st)))
       {| inv_scope := sc; inv_listener := l; inv_chunk := chunk;
          inv_seen := py st; inv_result := r |} e', r).

(** [for x in xs: body x] over the live list [xs], read from the state
    at every step; [i] is the index of the iterator. *)
Fixpoint for_live (fuel : nat) (xs : pystate -> res (list lid)) (i : nat)
  (body : lid -> M unit) (st : state) : option (state * res unit) :=
  match fuel with
  | O => None
  | S fuel' =>
      match xs (py st) with
      | Raise e => Some (st, Raise e)
      | Ok l =>
          match l !! i with
          | None => Some (st, Ok tt)
          | Some x =>
              match body x st with
              | (st', Ok _) => for_live fuel' xs (S i) body st'
              | (st', Raise e) => Some (st', Raise e)
              end
          end
      end
  end.

(** [for x in l: body x] over a list that nothing changes. *)
Fixpoint for_each_live {A} (l : list A) (body : A -> L unit) : L unit :=
  match l with
  | [] => lret tt
  | x :: l' => body x ;;; for_each_live l' body
  end.

(** [self.listeners] and the [listeners] of the room object at an
    address. *)
Definition global_listeners (p : pystate) : res (list lid) :=
  Ok (listeners (client p)).

Definition listeners_of (a : addr) (p : pystate) : res (list lid) :=
  match heap p !! a with
  | Some r => Ok (r_listeners r)
  | None => Raise BadAddress
  end.

(** The lines of the loop body between the two loops over listeners:
    the room is made if it is not registered, the chunk is appended to
    its log, and the room whose listeners are called next is looked
    up. *)
Definition file_chunk (chunk : json) : M addr :=
  bind (lift (py_getitem chunk "room_id")) (fun rid =>
  bind (rooms_contains rid) (fun present =>
  bind (if negb present then
          bind (lift (py_getitem chunk "room_id")) (fun rid =>
          bind (_mkroom rid) (fun _ => ret tt))
        else ret tt) (fun _ =>
  bind (lift (py_getitem chunk "room_id")) (fun rid =>
  bind (rooms_getitem rid) (fun a =>
  bind (modify_room a (append_event chunk)) (fun _ =>
  bind (lift (py_getitem chunk "room_id")) (fun rid =>
  rooms_getitem rid))))))).

(** The body of the loop of [listen_for_events]. *)
Definition process_chunk_live (fuel : nat) (chunk : json) : L unit :=
  for_live fuel global_listeners 0
    (fun listener => invoke_live Global listener chunk) ;;;
  let* has := run (lift (py_in "room_id" chunk)) in
  if has then
    let* a := run (file_chunk chunk) in
    for_live fuel (listeners_of a) 0
      (fun listener => invoke_live (RoomScope a) listener chunk)
  else lret tt.

Definition listen_for_events_live (fuel : nat) (timeout : Z) : L unit :=
  let* cur := run get_end in
  let* response := run (api (ApiEventStream cur timeout)) in
  let* e := run (lift (py_getitem response "end")) in
  run (set_end e) ;;;
  let* ch := run (lift (py_getitem response "chunk")) in
  let* cl := run (lift (py_iter ch)) in
  for_each_live cl (process_chunk_live fuel).

(** Callbacks that leave alone what the dispatch reads: the listener
    lists, the registry and the logs of the rooms. *)
Definition callbacks_keep_dispatch : Prop :=
  ∀ l chunk p e, dispatch_view (effect l chunk p e) = dispatch_view p.

(** Callbacks that only add: what [grows] allows. *)
Definition callbacks_only_add : Prop :=
  ∀ l chunk p e, grows p (effect l chunk p e).

End Live.

(** A run that keeps an invariant of the Python state, however it
    ends. *)
Definition keeps_live `{W : World} {A} (I : pystate → Prop) (m : L A)
  : Prop :=
  ∀ st st' out, I (py st) → m st = Some (st', out) → I (py st').

(** The log of every room after the chunks of a poll: what it was, then
    the chunks that carry the identifier of the room, in their order. *)
Definition logs_filed (p p' : pystate) (chunks : list json) : Prop :=
  ∀ a r', heap p' !! a = Some r' →
    events r' =
      log_at p a ++
      filter (fun chunk => room_of p' chunk = Some a) chunks.

(** Loops over listener lists of this length end within the fuel. *)
Definition fits (fuel : nat) (p : pystate) : Prop :=
  (length (listeners (client p)) < fuel)%nat ∧
  ∀ a r, heap p !! a = Some r → (length (r_listeners r) < fuel)%nat.

Section LivePredicates.

Context `{W : World}.

(** What processing a list of chunks guarantees when callbacks may
    change the client but keep what the dispatch reads. *)
Record live_post (chunks : list json) (st st' : state)
    (out : res unit) (new : list invocation) : Prop := {
  lp_trace : trace st' = trace st ++ new;
  lp_log : api_log st' = api_log st;
  lp_listeners : listeners (client (py st')) = listeners (client (py st));
  lp_room_listeners :
    ∀ rid, room_listeners_at (py st') rid = room_listeners_at (py st) rid;
  lp_prefix : delivered new `prefix_of` spec_delivery (py st) chunks;
  lp_complete : out = Ok tt → delivered new = spec_delivery (py st) chunks;
  lp_seen_logged : seen_logged new;
  lp_raised : raised_last new out;
  lp_fits : ∀ fuel, fits fuel (py st) → fits fuel (py st')
}.

End LivePredicates.

(** The logs while a poll is at work: [done] are the chunks it has
    processed. Every processed chunk with a room identifier has a room
    on the heap. *)
Definition filed_so_far (p0 p : pystate) (done : list json) : Prop :=
  logs_filed p0 p done ∧
  (∀ chunk, chunk ∈ done →
     match room_of p chunk with
     | Some a => (a < length (heap p))%nat
     | None => ∃ e, py_getitem chunk "room_id" = Raise e
     end) ∧
  (length (heap p0) ≤ length (heap p))%nat.



(** Callbacks that act on the client, for the scripted world. *)
Module Acting.

Import Scripted.

(** Callback 7 notes the body of the chunk as the topic of every room:
    it writes to the room objects and leaves listeners, registry and
    logs alone. *)
Definition note_topic (chunk : json) (r : Room) : Room :=
  {| room_id := room_id r; r_listeners := r_listeners r;
     events := events r; name := name r; aliases := aliases r;
     topic := match py_getitem chunk "body" with
              | Ok body => body
              | Raise _ => topic r
              end |}.

Definition annotate (l : lid) (chunk : json) (p : pystate)
  (e : list (res json)) : pystate :=
  if Nat.eqb l 7 then with_heap p (map (note_topic chunk) (heap p)) else p.

Definition annotating : Reentrant world := mkReentrant world annotate.

(** Callback 7 makes the room ["!c:z"] when the registry does not have
    it: [if "!c:z" not in client.rooms: client._mkroom("!c:z")]. *)
Definition greet (l : lid) (chunk : json) (p : pystate)
  (e : list (res json)) : pystate :=
  if Nat.eqb l 7 then
    match rooms (client p) !! KStr "!c:z" with
    | Some _ => p
    | None => py (fst (@_mkroom world (JStr "!c:z") (start p e)))
    end
  else p.

Definition greeting : Reentrant world := mkReentrant world greet.

(** [list.remove(x)]: the first occurrence goes; [None] stands for the
    [ValueError] of a list without [x]. *)
Fixpoint list_remove (x : lid) (l : list lid) : option (list lid) :=
  match l with
  | [] => None
  | y :: l' => if Nat.eqb x y then Some l'
               else option_map (cons y) (list_remove x l')
  end.

(** Callback 7 takes itself off the global listeners:
    [client.listeners.remove(me)]. *)
Definition withdraw (l : lid) (chunk : json) (p : pystate)
  (e : list (res json)) : pystate :=
  if Nat.eqb l 7 then
    match list_remove 7 (listeners (client p)) with
    | Some ls => with_client p {| listeners := ls;
                                  rooms := rooms (client p);
                                  end_ := end_ (client p) |}
    | None => p
    end
  else p.

Definition withdrawing : Reentrant world := mkReentrant world withdraw.

(** The lobby with a second global listener, 8, after 7. *)
Definition lobby78 : pystate :=
  with_client lobby {| listeners := [7%nat; 8%nat];
                       rooms := rooms (client lobby);
                       end_ := end_ (client lobby) |}.

End Acting.

(** * Properties *)

Section Properties.

Context `{W : World}.

(** ** Running the monad *)

Lemma bind_run {A B} (m : M A) (k : A → M B) st :
  bind m k st =
    match m st with
    | (st', Ok a) => k a st'
    | (st', Raise e) => (st', Raise e)
    end.
Proof. reflexivity. Qed.

Lemma bind_Ok {A B} (m : M A) (k : A → M B) st st' a :
  m st = (st', Ok a) → bind m k st = k a st'.
Proof. intros H. unfold bind. by rewrite H. Qed.

Lemma bind_Raise {A B} (m : M A) (k : A → M B) st st' e :
  m st = (st', Raise e) → bind m k st = (st', Raise e).
Proof. intros H. unfold bind. by rewrite H. Qed.

Lemma bind_lift {A B} (r : res A) (k : A → M B) st :
  bind (lift r) k st =
    match r with
    | Ok a => k a st
    | Raise e => (st, Raise e)
    end.
Proof. by destruct r. Qed.

Lemma api_run (c : api_call) (st : state) :
  api c st = (after_call st c (fst (transport c (env st))),
              snd (transport c (env st))).
Proof. unfold api. by destruct (transport _ _). Qed.

Lemma invoke_run sc l chunk st :
  invoke sc l chunk st =
    (after_invoke st
       {| inv_scope := sc; inv_listener := l; inv_chunk := chunk;
          inv_seen := py st;
          inv_result := snd (callback l chunk (py st) (env st)) |}
       (fst (callback l chunk (py st) (env st))),
     snd (callback l chunk (py st) (env st))).
Proof. unfold invoke. by destruct (callback _ _ _ _). Qed.

Lemma get_end_run (st : state) :
  get_end st =
    (st, match end_ (client (py st)) with
         | Some v => Ok v
         | None => Raise AttributeError
         end).
Proof.
  unfold get_end, get_py, bind, ret, raise; simpl.
  by destruct (end_ _).
Qed.

Lemma get_room_run (a : addr) (st : state) :
  get_room a st =
    (st, match heap (py st) !! a with
         | Some r => Ok r
         | None => Raise BadAddress
         end).
Proof.
  unfold get_room, get_py, bind, ret, raise; simpl.
  by destruct (heap _ !! a).
Qed.

Lemma rooms_getitem_run (rid : json) (k : key) (st : state) :
  py_hash rid = Ok k →
  rooms_getitem rid st =
    (st, match rooms (client (py st)) !! k with
         | Some a => Ok a
         | None => Raise KeyError
         end).
Proof.
  intros Hk. unfold rooms_getitem, get_py, lift, bind, ret, raise; simpl.
  rewrite Hk; simpl. by destruct (rooms _ !! k).
Qed.

Lemma rooms_contains_run (rid : json) (st : state) :
  rooms_contains rid st =
    (st, res_bind (py_hash rid) (fun k =>
           Ok (bool_decide (is_Some (rooms (client (py st)) !! k))))).
Proof.
  unfold rooms_contains, get_py, lift, bind, ret; simpl.
  by destruct (py_hash rid).
Qed.

Lemma for_each_app {A} (l1 l2 : list A) (body : A → M unit) (st : state) :
  for_each (l1 ++ l2) body st =
    match for_each l1 body st with
    | (st', Ok _) => for_each l2 body st'
    | (st', Raise e) => (st', Raise e)
    end.
Proof.
  revert st. induction l1 as [|x l1 IH]; intros st; simpl; [done|].
  rewrite !bind_run. destruct (body x st) as [st1 [[]|e]]; [|done].
  apply IH.
Qed.

Lemma for_return_skip {A R} (pre rest : list A) (body : A → M (option R))
  (st : state) :
  Forall (fun x => body x st = (st, Ok None)) pre →
  for_return (pre ++ rest) body st = for_return rest body st.
Proof.
  induction 1 as [|x pre Hx _ IH]; simpl; [done|].
  by rewrite bind_run, Hx.
Qed.

(** ** Python operations on parsed JSON *)

Lemma py_in_false_getitem (k : string) (x : json) :
  py_in k x = Ok false → ∃ e, py_getitem x k = Raise e.
Proof.
  destruct x as [| | | | |d]; simpl; try discriminate; eauto.
  intros [= H]. apply bool_decide_eq_false in H.
  destruct (assoc k d); eauto. destruct H; eauto.
Qed.

Lemma py_getitem_in (x : json) (k : string) (v : json) :
  py_getitem x k = Ok v → py_in k x = Ok true.
Proof.
  destruct x as [| | | | |d]; simpl; try discriminate.
  destruct (assoc k d) as [w|]; [|discriminate]. reflexivity.
Qed.

Lemma is_hashable_hash (v : json) :
  is_hashable v = true → ∃ k, py_hash v = Ok k.
Proof. destruct v; simpl; try discriminate; eauto. Qed.

(** ** Room objects on the heap *)

Lemma modify_room_run (a : addr) (f : Room → Room) (st : state) (r : Room) :
  heap (py st) !! a = Some r →
  modify_room a f st =
    (with_py st (with_heap (py st) (<[a:=f r]> (heap (py st)))), Ok tt).
Proof.
  intros Hr.
  unfold modify_room, get_room, set_heap, set_py, get_py, bind, ret; simpl.
  rewrite Hr. reflexivity.
Qed.

Lemma modify_room_bad (a : addr) (f : Room → Room) (st : state) :
  heap (py st) !! a = None →
  modify_room a f st = (st, Raise BadAddress).
Proof.
  intros Hr.
  unfold modify_room, get_room, set_heap, set_py, get_py, bind, ret, raise;
    simpl.
  rewrite Hr. reflexivity.
Qed.

Lemma modify_room_twice (a : addr) (f : Room → Room) (st : state) :
  (∀ r, f (f r) = f r) →
  modify_room a f (fst (modify_room a f st)) = modify_room a f st.
Proof.
  intros Hf. destruct (heap (py st) !! a) as [r|] eqn:Hr.
  - rewrite (modify_room_run _ _ _ _ Hr). simpl.
    erewrite modify_room_run; last first.
    { simpl. apply list_lookup_insert_eq. by eapply lookup_lt_Some. }
    simpl. unfold with_py, with_heap; simpl.
    rewrite list_insert_insert_eq, Hf. reflexivity.
  - rewrite (modify_room_bad _ _ _ Hr). simpl. by apply modify_room_bad.
Qed.

(** ** State projection *)

(** C7. Applying a state event to a room a second time, right after
    the first, ends in the same state with the same outcome as the
    first application; an event without a [type], and an event whose
    [type] is none of the three known ones, leave the state as it is. *)
Theorem process_state_event_idempotent
  (state_event : json) (current_room : addr) (st : state) :
  let once := _process_state_event state_event current_room st in
  _process_state_event state_event current_room (fst once) = once ∧
  (py_in "type" state_event = Ok false → once = (st, Ok tt)) ∧
  (∀ etype, py_in "type" state_event = Ok true →
     py_getitem state_event "type" = Ok etype →
     py_eq etype (JStr "m.room.name") = false →
     py_eq etype (JStr "m.room.topic") = false →
     py_eq etype (JStr "m.room.aliases") = false →
     once = (st, Ok tt)).
Proof.
  simpl. split; [|split].
  - unfold _process_state_event, bind, lift, ret.
    destruct (py_in "type" state_event) as [[|]|]; simpl; try reflexivity.
    destruct (py_getitem state_event "type") as [etype|]; simpl;
      try reflexivity.
    destruct (py_eq etype _);
      [|destruct (py_eq etype _); [|destruct (py_eq etype _)]];
      try reflexivity;
      (destruct (py_getitem state_event "content") as [c|]; simpl;
         try reflexivity;
       destruct (py_getitem c _) as [v|]; simpl; try reflexivity;
       apply modify_room_twice; reflexivity).
  - intros Hin. unfold _process_state_event, bind, lift, ret.
    rewrite Hin. reflexivity.
  - intros etype Hin Hty H1 H2 H3.
    unfold _process_state_event, bind, lift, ret.
    rewrite Hin; simpl. rewrite Hty; simpl.
    rewrite H1, H2, H3. reflexivity.
Qed.

(** ** Room operations *)

(** C10. Two calls of [kick_user] that differ only in the reason are
    the same computation: same state reached, same result, and the one
    call made on the HTTP layer carries no reason. *)
Theorem kick_user_reason_not_forwarded
  (self : addr) (user_id r1 r2 : string) (st : state) :
  Room_kick_user self user_id r1 st = Room_kick_user self user_id r2 st ∧
  api_log (fst (Room_kick_user self user_id r1 st)) =
    (api_log st ++
     match heap (py st) !! self with
     | Some r => [ApiKickUser (room_id r) user_id None]
     | None => []
     end)%list.
Proof.
  split; [reflexivity|].
  unfold Room_kick_user, try_except_MatrixRequestError, get_room, get_py,
    api, bind, ret, raise; simpl.
  destruct (heap (py st) !! self) as [r|]; simpl.
  - destruct (transport _ _) as [e' [v|[]]]; reflexivity.
  - by rewrite app_nil_r.
Qed.

(** When the HTTP layer accepts the leave, [leave] gets as far as looking
    up [remove] on the registry and raises there: no boolean is
    returned and the registry is as before. *)
Lemma leave_after_success (self : addr) (r : Room) (st : state) e' resp :
  heap (py st) !! self = Some r →
  transport (ApiLeaveRoom (room_id r)) (env st) = (e', Ok resp) →
  Room_leave self st =
    (after_call st (ApiLeaveRoom (room_id r)) e', Raise AttributeError).
Proof.
  intros Hr Ht. unfold Room_leave, try_except_MatrixRequestError.
  rewrite bind_run, get_room_run, Hr.
  rewrite bind_run, api_run, Ht. reflexivity.
Qed.

(** When the HTTP layer refuses the leave, [leave] returns [False] and
    the registry is as before. *)
Lemma leave_after_failure (self : addr) (r : Room) (st : state)
  e' code msg :
  heap (py st) !! self = Some r →
  transport (ApiLeaveRoom (room_id r)) (env st) =
    (e', Raise (MatrixRequestError code msg)) →
  Room_leave self st =
    (after_call st (ApiLeaveRoom (room_id r)) e', Ok false).
Proof.
  intros Hr Ht. unfold Room_leave, try_except_MatrixRequestError.
  rewrite bind_run, get_room_run, Hr.
  rewrite bind_run, api_run, Ht. reflexivity.
Qed.

Lemma update_aliases_step_skip (self : addr) (chunk : json) (st : state) :
  has_aliases chunk = Ok false →
  update_aliases_step self chunk st = (st, Ok None).
Proof.
  intros H. unfold update_aliases_step. by rewrite bind_lift, H.
Qed.

(** C8. When the state answer holds a chunk with [content.aliases]
    after chunks without, [update_aliases] compares that chunk's aliases
    with the cached ones, updates the cache and returns [True] when they
    differ and returns [False] otherwise; the chunks that follow take no
    part in the result. *)
Theorem update_aliases_first_match (self : addr) (r : Room) (st : state)
  (e' : Env) (pre rest : list json) (first : json)
  (content : list (string * json)) (al : json) :
  heap (py st) !! self = Some r →
  transport (ApiGetRoomState (room_id r)) (env st) =
    (e', Ok (JList (pre ++ first :: rest))) →
  Forall (fun chunk => has_aliases chunk = Ok false) pre →
  py_getitem first "content" = Ok (JDict content) →
  assoc "aliases" content = Some al →
  Room_update_aliases self st =
    let st1 := after_call st (ApiGetRoomState (room_id r)) e' in
    if py_eq al (aliases r) then (st1, Ok (JBool false))
    else (with_py st1 (with_heap (py st)
            (<[self:=set_aliases al r]> (heap (py st)))),
          Ok (JBool true)).
Proof.
  intros Hself Ht Hpre Hc Hal.
  unfold Room_update_aliases, try_except_MatrixRequestError.
  rewrite bind_run, get_room_run, Hself.
  rewrite bind_run, api_run, Ht. simpl.
  rewrite bind_lift. cbn [py_iter].
  rewrite bind_run.
  rewrite for_return_skip.
  2:{ eapply Forall_impl; [exact Hpre|].
      intros c Hcs. by apply update_aliases_step_skip. }
  simpl. rewrite bind_run.
  assert (Hhas : has_aliases first = Ok true).
  { unfold has_aliases. destruct first as [| | | | |d]; try discriminate.
    simpl in *. destruct (assoc "content" d) as [c|]; [|discriminate].
    injection Hc as ->. simpl. by rewrite Hal. }
  unfold update_aliases_step at 1.
  rewrite bind_lift, Hhas, bind_lift, Hc, bind_lift. cbn [py_getitem].
  rewrite Hal. rewrite bind_run, get_room_run. simpl. rewrite Hself.
  destruct (py_eq al (aliases r)); simpl.
  - done.
  - rewrite bind_lift. cbv beta iota. rewrite bind_lift.
    cbn [py_getitem]. rewrite Hal.
    rewrite bind_run.
    erewrite modify_room_run by (simpl; exact Hself). simpl. done.
Qed.

(** ** Media upload *)

(** C9. [upload] raises [MatrixUnexpectedResponse] when the transport
    answers without [content_uri], raises a [MatrixRequestError] with
    the code of the transport's error when the transport fails, and
    returns the [content_uri] of the answer otherwise. *)
Theorem upload_outcomes
  (content : list Byte.byte) (content_type : string) (st : state) :
  let call := ApiMediaUpload content content_type in
  (∀ e' resp, transport call (env st) = (e', Ok resp) →
     py_in "content_uri" resp = Ok false →
     snd (upload content content_type st) =
       Raise (MatrixUnexpectedResponse
         "The upload was successful, but content_uri wasn't found.")) ∧
  (∀ e' code msg,
     transport call (env st) = (e', Raise (MatrixRequestError code msg)) →
     snd (upload content content_type st) =
       Raise (MatrixRequestError code
         ("Upload failed: " ++ request_error_str code msg))) ∧
  (∀ e' d uri, transport call (env st) = (e', Ok (JDict d)) →
     assoc "content_uri" d = Some uri →
     snd (upload content content_type st) = Ok uri).
Proof.
  simpl.
  repeat split;
    unfold upload, try_except_MatrixRequestError, api, lift, bind, ret,
      raise; simpl.
  - intros e' resp Ht Hd. rewrite Ht. simpl. rewrite Hd. reflexivity.
  - intros e' code msg Ht. rewrite Ht. reflexivity.
  - intros e' d uri Ht Hd. rewrite Ht. simpl. rewrite Hd. simpl.
    destruct uri; reflexivity.
Qed.

(** ** Room creation *)

Lemma mkroom_run (rid : json) (k : key) (st : state) :
  py_hash rid = Ok k →
  _mkroom rid st =
    (with_py st
       (registered (with_heap (py st) (heap (py st) ++ [Room_init rid]))
                   k (length (heap (py st)))),
     Ok (length (heap (py st)))).
Proof.
  intros Hk.
  unfold _mkroom, new_Room, rooms_setitem, rooms_getitem, set_heap,
    set_py, get_py, lift, bind, ret; simpl.
  rewrite Hk; simpl. rewrite lookup_insert_eq. reflexivity.
Qed.

Lemma mkroom_unhashable (rid : json) (e : exn) (st : state) :
  py_hash rid = Raise e →
  _mkroom rid st =
    (with_py st (with_heap (py st) (heap (py st) ++ [Room_init rid])),
     Raise e).
Proof.
  intros Hk.
  unfold _mkroom, new_Room, rooms_setitem, rooms_getitem, set_heap,
    set_py, get_py, lift, bind, ret; simpl.
  rewrite Hk; simpl. reflexivity.
Qed.

(** [_mkroom] never looks the identifier up: it always allocates a blank
    room and points the registry at it, leaving the objects already on
    the heap untouched. *)
Lemma mkroom_registers_new_room (rid : json) (k : key) (st : state) :
  py_hash rid = Ok k →
  let r := _mkroom rid st in
  snd r = Ok (length (heap (py st))) ∧
  rooms (client (py (fst r))) !! k = Some (length (heap (py st))) ∧
  heap (py (fst r)) !! length (heap (py st)) = Some (Room_init rid) ∧
  (∀ a, (a < length (heap (py st)))%nat →
        heap (py (fst r)) !! a = heap (py st) !! a).
Proof.
  intros Hk. simpl. rewrite (mkroom_run _ _ _ Hk). simpl.
  split; [done|]. split; [apply lookup_insert_eq|]. split.
  - rewrite lookup_app_r, Nat.sub_diag by lia. done.
  - intros a Ha. by apply lookup_app_l.
Qed.

(** ** Traces of callbacks *)

Lemma raised_last_ok new : raised_last new (Ok tt) → all_returned new.
Proof. intros [H|(pre & i & e & _ & _ & _ & ?)]; [done|discriminate]. Qed.

Lemma raised_last_app new1 new2 out :
  all_returned new1 → raised_last new2 out → raised_last (new1 ++ new2) out.
Proof.
  intros H1 [H2|(pre & i & e & -> & Hpre & Hi & ->)].
  - left. by apply Forall_app.
  - right. exists (new1 ++ pre), i, e. rewrite app_assoc.
    split_and!; try done. by apply Forall_app.
Qed.

(** A call that raised is the last of its trace. *)
Lemma raised_last_inv (new : list invocation) (out : res unit)
  (pre : list invocation) (i : invocation) (post : list invocation)
  (e : exn) :
  raised_last new out → new = pre ++ i :: post →
  inv_result i = Raise e → post = [] ∧ out = Raise e.
Proof.
  intros [Hall|(pre' & i' & e' & -> & Hpre & Hi & ->)] Hnew Hraise.
  - subst new. apply Forall_app in Hall as [_ Hall].
    apply Forall_cons in Hall as [Hi _]. congruence.
  - destruct (decide (post = [])) as [->|Hpost].
    + apply app_inj_tail in Hnew as [_ ->]. split; [done|]. congruence.
    + destruct (exists_last Hpost) as (post' & l & ->).
      change (pre ++ i :: post' ++ [l]) with (pre ++ (i :: post') ++ [l]) in Hnew.
      rewrite app_assoc in Hnew.
      apply app_inj_tail in Hnew as [-> _].
      apply Forall_app in Hpre as [_ Hpre].
      apply Forall_cons in Hpre as [Hi' _]. congruence.
Qed.

Lemma delivered_app t1 t2 : delivered (t1 ++ t2) = delivered t1 ++ delivered t2.
Proof. apply map_app. Qed.

Lemma delivered_uniform (sc : scope) (chunk : json) (p : pystate)
  (t : list invocation) :
  Forall (fun i => inv_scope i = sc ∧ inv_chunk i = chunk ∧ inv_seen i = p) t →
  delivered t = map (fun l => (sc, l, chunk)) (map inv_listener t).
Proof.
  induction 1 as [|i t (Hs & Hc & _) _ IH]; simpl; [done|].
  by rewrite IH, Hs, Hc.
Qed.

Lemma seen_end_uniform (sc : scope) (chunk : json) (p : pystate)
  (t : list invocation) :
  Forall (fun i => inv_scope i = sc ∧ inv_chunk i = chunk ∧ inv_seen i = p) t →
  seen_end (end_ (client p)) t.
Proof.
  intros H. unfold seen_end. eapply Forall_impl; [exact H|].
  by intros i (_ & _ & ->).
Qed.

Lemma seen_logged_global (chunk : json) (p : pystate) (t : list invocation) :
  Forall (fun i => inv_scope i = Global ∧ inv_chunk i = chunk ∧ inv_seen i = p) t →
  seen_logged t.
Proof.
  intros H. unfold seen_logged. eapply Forall_impl; [exact H|].
  intros i (Hs & _ & _) a Ha. congruence.
Qed.

Lemma new_trace_app (st st' : state) (new : list invocation) :
  trace st' = trace st ++ new → new_trace st st' = new.
Proof. intros H. unfold new_trace. rewrite H. apply drop_app_length. Qed.

Lemma room_listeners_at_None (p : pystate) (rid : json) (k : key) :
  py_hash rid = Ok k → rooms (client p) !! k = None →
  room_listeners_at p rid = [].
Proof. intros Hk Hr. unfold room_listeners_at. by rewrite Hk, Hr. Qed.

Lemma room_listeners_at_modify (p : pystate) (a : addr) (r : Room)
  (f : Room → Room) (rid : json) :
  heap p !! a = Some r →
  r_listeners (f r) = r_listeners r →
  room_listeners_at (with_heap p (<[a:=f r]> (heap p))) rid =
  room_listeners_at p rid.
Proof.
  intros Hr Hf. unfold room_listeners_at; simpl.
  destruct (py_hash rid) as [k|]; [|done].
  destruct (rooms (client p) !! k) as [a'|]; [|done].
  destruct (decide (a' = a)) as [Heq|Hne]; [subst a'|].
  - rewrite list_lookup_insert_eq by (by eapply lookup_lt_Some).
    by rewrite Hr, Hf.
  - by rewrite list_lookup_insert_ne.
Qed.

Lemma room_listeners_at_mkroom (p : pystate) (k : key) (rid0 rid : json) :
  rooms (client p) !! k = None →
  room_listeners_at
    (registered (with_heap p (heap p ++ [Room_init rid0])) k
                (length (heap p))) rid =
  room_listeners_at p rid.
Proof.
  intros Hk. unfold room_listeners_at; simpl.
  destruct (py_hash rid) as [k'|]; [|done].
  destruct (decide (k = k')) as [Heq|Hne]; [subst k'|].
  - rewrite lookup_insert_eq, Hk.
    rewrite lookup_app_r, Nat.sub_diag by lia. done.
  - rewrite lookup_insert_ne by done.
    destruct (rooms (client p) !! k') as [a'|]; [|done].
    destruct (heap p !! a') as [r|] eqn:Hr.
    + by rewrite (lookup_app_l_Some _ _ _ _ Hr).
    + apply lookup_ge_None_1 in Hr.
      rewrite lookup_app_r by done.
      destruct (a' - length (heap p))%nat as [|n]; [done|].
      simpl. done.
Qed.

Lemma spec_delivery_ext (p p' : pystate) (chunks : list json) :
  listeners (client p') = listeners (client p) →
  (∀ rid, room_listeners_at p' rid = room_listeners_at p rid) →
  spec_delivery p' chunks = spec_delivery p chunks.
Proof.
  intros Hl Hr. unfold spec_delivery.
  induction chunks as [|c chunks IH]; simpl; [done|].
  rewrite IH. f_equal. unfold spec_chunk_delivery. rewrite Hl.
  destruct (py_getitem c "room_id"); [|done]. by rewrite Hr.
Qed.

(** ** The poll loop *)

(** The callbacks of one list, called in order on one chunk. *)
Lemma invoke_all_spec (sc : scope) (chunk : json) (ls : list lid) (st : state) :
  let r := for_each ls (fun l => invoke sc l chunk) st in
  py (fst r) = py st ∧ api_log (fst r) = api_log st ∧
  ∃ new, trace (fst r) = trace st ++ new ∧
    Forall (fun i => inv_scope i = sc ∧ inv_chunk i = chunk ∧
                     inv_seen i = py st) new ∧
    map inv_listener new `prefix_of` ls ∧
    (snd r = Ok tt → map inv_listener new = ls) ∧
    raised_last new (snd r).
Proof.
  revert st. induction ls as [|l ls IH]; intros st; simpl.
  - split; [done|]. split; [done|]. exists []. rewrite app_nil_r.
    split; [done|]. split; [constructor|]. split; [done|]. split; [done|].
    left. constructor.
  - pose proof (invoke_run sc l chunk st) as Hinv.
    set (i := {| inv_scope := sc; inv_listener := l; inv_chunk := chunk;
                 inv_seen := py st;
                 inv_result := snd (callback l chunk (py st) (env st)) |})
      in Hinv.
    destruct (snd (callback l chunk (py st) (env st))) as [[]|e] eqn:Hcb.
    + rewrite (bind_Ok _ _ _ _ _ Hinv).
      destruct (IH (after_invoke st i (fst (callback l chunk (py st) (env st)))))
        as (Hpy & Hlog & new & Htr & Hall & Hpre & Hok & Hr).
      simpl in *.
      split; [done|]. split; [done|].
      exists (i :: new). rewrite Htr, <- app_assoc. simpl.
      split; [done|]. split; [by constructor|].
      split; [by apply prefix_cons|].
      split; [intros H; by rewrite Hok|].
      change (i :: new) with ([i] ++ new). apply raised_last_app; [|done].
      by constructor.
    + rewrite (bind_Raise _ _ _ _ _ Hinv). simpl.
      split; [done|]. split; [done|].
      exists [i].
      split; [done|]. split; [by constructor|].
      split; [apply prefix_cons, prefix_nil|].
      split; [done|].
      right. exists [], i, e. split_and!; try done. constructor.
Qed.

(** The outcome of a chunk whose processing stops after the global
    listeners. *)
Lemma delivery_post_globals (chunk : json) (st st1 : state)
  (out : res unit) (new : list invocation) :
  py st1 = py st → api_log st1 = api_log st →
  trace st1 = trace st ++ new →
  Forall (fun i => inv_scope i = Global ∧ inv_chunk i = chunk ∧
                   inv_seen i = py st) new →
  map inv_listener new `prefix_of` listeners (client (py st)) →
  raised_last new out →
  (out = Ok tt →
     map inv_listener new = listeners (client (py st)) ∧
     match py_getitem chunk "room_id" with
     | Ok rid => room_listeners_at (py st) rid = []
     | Raise _ => True
     end) →
  delivery_post [chunk] st st1 out new.
Proof.
  intros Hpy Hlog Htr Hall Hpre Hr Hok.
  split; try done; try (by rewrite Hpy).
  - unfold spec_delivery; simpl. rewrite app_nil_r.
    unfold spec_chunk_delivery.
    rewrite (delivered_uniform _ _ _ _ Hall).
    apply prefix_app_r. destruct Hpre as [rest ->].
    rewrite map_app. by apply prefix_app_r.
  - intros Ho. destruct (Hok Ho) as [Hls Hroom].
    unfold spec_delivery; simpl. rewrite app_nil_r.
    unfold spec_chunk_delivery.
    rewrite (delivered_uniform _ _ _ _ Hall), Hls.
    destruct (py_getitem chunk "room_id"); [|by rewrite app_nil_r].
    by rewrite Hroom, app_nil_r.
  - by eapply seen_end_uniform.
  - by eapply seen_logged_global.
Qed.

(** One chunk. *)
Lemma process_chunk_post (chunk : json) (st st' : state) (out : res unit) :
  process_chunk chunk st = (st', out) →
  ∃ new, delivery_post [chunk] st st' out new.
Proof.
  unfold process_chunk. intros H.
  rewrite (bind_Ok get_py _ st st (py st)) in H by reflexivity.
  destruct (invoke_all_spec Global chunk (listeners (client (py st))) st)
    as (Hpy & Hlog & newg & Htr & Hall & Hpre & Hok & Hr).
  rewrite bind_run in H.
  destruct (for_each _ _ st) as [st1 [[]|e]] eqn:Hg;
    simpl in Hpy, Hlog, Htr, Hok, Hr.
  2:{ injection H as <- <-. exists newg.
      apply delivery_post_globals; try done. }
  specialize (Hok eq_refl). apply raised_last_ok in Hr.
  rewrite bind_lift in H.
  destruct (py_in "room_id" chunk) as [[|]|e] eqn:Hin.
  3:{ injection H as <- <-. exists newg.
      apply delivery_post_globals; try done. by left. }
  2:{ injection H as <- <-. exists newg.
      apply delivery_post_globals; try done; [by left|].
      intros _. split; [done|].
      destruct (py_in_false_getitem _ _ Hin) as [e ->]. done. }
  rewrite bind_lift in H.
  destruct (py_getitem chunk "room_id") as [rid|e] eqn:Hrid.
  2:{ injection H as <- <-. exists newg.
      apply delivery_post_globals; try done. by left. }
  rewrite bind_run, rooms_contains_run in H.
  destruct (py_hash rid) as [k|e] eqn:Hk; simpl in H.
  2:{ injection H as <- <-. exists newg.
      apply delivery_post_globals; try done. by left. }
  destruct (rooms (client (py st1)) !! k) as [a|] eqn:Hreg; simpl in H.
  - (* the room is registered *)
    rewrite bind_run in H. unfold ret at 1 in H.
    rewrite bind_lift, bind_run, (rooms_getitem_run _ _ _ Hk), Hreg in H.
    rewrite bind_run in H.
    destruct (heap (py st1) !! a) as [r|] eqn:Hheap.
    2:{ rewrite (modify_room_bad _ _ _ Hheap) in H.
        injection H as <- <-. exists newg.
        apply delivery_post_globals; try done. by left. }
    rewrite (modify_room_run _ _ _ _ Hheap) in H.
    rewrite bind_lift, bind_run, (rooms_getitem_run _ _ _ Hk) in H.
    simpl in H. rewrite Hreg in H.
    rewrite bind_run, get_room_run in H. simpl in H.
    rewrite list_lookup_insert_eq in H by (by eapply lookup_lt_Some).
    set (st2 := with_py st1 _) in H.
    destruct (invoke_all_spec (RoomScope a) chunk (r_listeners r) st2)
      as (Hpy2 & Hlog2 & newr & Htr2 & Hall2 & Hpre2 & Hok2 & Hr2).
    simpl in H. rewrite H in Hpy2, Hlog2, Htr2, Hok2, Hr2.
    simpl in Hpy2, Hlog2, Htr2, Hok2, Hr2.
    exists (newg ++ newr).
    assert (Hspec : spec_delivery (py st) [chunk] =
              map (fun l => (Global, l, chunk)) (listeners (client (py st))) ++
              map (fun l => (RoomScope a, l, chunk)) (r_listeners r)).
    { unfold spec_delivery; simpl. rewrite app_nil_r.
      unfold spec_chunk_delivery. rewrite Hrid.
      unfold room_listeners_at. rewrite Hk, <- Hpy, Hreg, Hheap.
      by rewrite map_map. }
    split.
    + rewrite Htr2. subst st2; simpl. by rewrite Htr, app_assoc.
    + rewrite Hlog2. subst st2; simpl. done.
    + rewrite Hpy2. subst st2; simpl. by rewrite Hpy.
    + rewrite Hpy2. subst st2; simpl. by rewrite Hpy.
    + intros rid'. rewrite Hpy2. subst st2; simpl.
      rewrite room_listeners_at_modify by done. by rewrite Hpy.
    + rewrite Hspec, delivered_app.
      rewrite (delivered_uniform _ _ _ _ Hall), Hok.
      apply prefix_app.
      rewrite (delivered_uniform _ _ _ _ Hall2).
      destruct Hpre2 as [rest ->]. rewrite map_app. by apply prefix_app_r.
    + intros Ho. rewrite Hspec, delivered_app.
      rewrite (delivered_uniform _ _ _ _ Hall), Hok.
      rewrite (delivered_uniform _ _ _ _ Hall2), (Hok2 Ho). done.
    + apply Forall_app. split; [by eapply seen_end_uniform|].
      pose proof (seen_end_uniform _ _ _ _ Hall2) as H2.
      subst st2; simpl in H2. by rewrite Hpy in H2.
    + apply Forall_app. split; [by eapply seen_logged_global|].
      eapply Forall_impl; [exact Hall2|].
      intros i (Hs & Hc & Hseen) a' Ha'. rewrite Hseen, Hc.
      rewrite Hs in Ha'. injection Ha' as <-.
      subst st2; simpl. exists (append_event chunk r). split.
      * apply list_lookup_insert_eq. by eapply lookup_lt_Some.
      * simpl. apply last_snoc.
    + by apply raised_last_app.
  - (* the room is created *)
    rewrite bind_run, bind_lift, bind_run, (mkroom_run _ _ _ Hk) in H.
    unfold ret at 1 in H. cbv beta iota zeta in H.
    rewrite bind_lift, bind_run, (rooms_getitem_run _ _ _ Hk) in H.
    simpl in H. rewrite lookup_insert_eq in H.
    assert (Hnew : (heap (py st1) ++ [Room_init rid]) !! length (heap (py st1))
                   = Some (Room_init rid)).
    { rewrite lookup_app_r, Nat.sub_diag by lia. done. }
    rewrite bind_run in H.
    erewrite modify_room_run in H by (simpl; exact Hnew).
    simpl in H.
    rewrite bind_lift, bind_run, (rooms_getitem_run _ _ _ Hk) in H.
    simpl in H. rewrite lookup_insert_eq in H.
    rewrite bind_run, get_room_run in H. simpl in H.
    rewrite list_lookup_insert_eq in H by (rewrite length_app; simpl; lia).
    simpl in H. unfold ret in H. injection H as <- <-.
    exists newg. split; simpl; try done; try (by rewrite Hpy).
    + intros rid'.
      rewrite (room_listeners_at_modify
                 (registered (with_heap (py st1) _) k _) _ _ _ rid' Hnew)
        by done.
      rewrite room_listeners_at_mkroom by done. by rewrite Hpy.
    + unfold spec_delivery; simpl. rewrite app_nil_r.
      unfold spec_chunk_delivery.
      rewrite (delivered_uniform _ _ _ _ Hall), Hok.
      by apply prefix_app_r.
    + intros _. unfold spec_delivery; simpl. rewrite app_nil_r.
      unfold spec_chunk_delivery.
      rewrite (delivered_uniform _ _ _ _ Hall), Hok, Hrid.
      rewrite (room_listeners_at_None _ _ _ Hk) by (by rewrite <- Hpy).
      by rewrite app_nil_r.
    + by eapply seen_end_uniform.
    + by eapply seen_logged_global.
    + by left.
Qed.

(** The loop over the chunks. *)
Lemma for_each_chunks_post (chunks : list json) (st st' : state)
  (out : res unit) :
  for_each chunks process_chunk st = (st', out) →
  ∃ new, delivery_post chunks st st' out new.
Proof.
  revert st. induction chunks as [|c chunks IH]; intros st H.
  - injection H as <- <-. exists []. split; try done.
    + by rewrite app_nil_r.
    + constructor.
    + constructor.
    + left. constructor.
  - simpl in H. rewrite bind_run in H.
    destruct (process_chunk c st) as [st1 [[]|e]] eqn:Hc.
    + destruct (process_chunk_post _ _ _ _ Hc) as [new1 P1].
      destruct (IH _ H) as [new2 P2].
      destruct P1, P2.
      assert (Hspec : spec_delivery (py st1) chunks = spec_delivery (py st) chunks)
        by (by apply spec_delivery_ext).
      assert (Hone : spec_delivery (py st) (c :: chunks) =
                     spec_delivery (py st) [c] ++ spec_delivery (py st) chunks).
      { unfold spec_delivery; simpl. by rewrite app_nil_r. }
      exists (new1 ++ new2). split.
      * by rewrite dp_trace1, dp_trace0, app_assoc.
      * congruence.
      * congruence.
      * congruence.
      * intros rid. by rewrite dp_room_listeners1.
      * rewrite Hone, delivered_app, (dp_complete0 eq_refl).
        apply prefix_app. by rewrite <- Hspec.
      * intros Ho. rewrite Hone, delivered_app, (dp_complete0 eq_refl).
        by rewrite (dp_complete1 Ho), Hspec.
      * apply Forall_app. split; [done|]. by rewrite <- dp_end0.
      * by apply Forall_app.
      * apply raised_last_app; [|done]. by apply raised_last_ok.
    + injection H as <- <-.
      destruct (process_chunk_post _ _ _ _ Hc) as [new1 P1].
      exists new1. destruct P1. split; try done.
      unfold spec_delivery in *; simpl in *. rewrite app_nil_r in dp_prefix0.
      by apply prefix_app_r.
Qed.

(** The loop of [listen_for_events] looks a room up before it makes one:
    a room that is registered is kept, with its listeners, and its log
    only grows by the chunk. *)
Lemma process_chunk_keeps_room (chunk : json) (st st' : state)
  (out : res unit) (rid : json) (k : key) (a : addr) (r : Room) :
  process_chunk chunk st = (st', out) →
  py_getitem chunk "room_id" = Ok rid →
  py_hash rid = Ok k →
  rooms (client (py st)) !! k = Some a →
  heap (py st) !! a = Some r →
  let logged := with_heap (py st) (<[a:=append_event chunk r]> (heap (py st))) in
  (py st' = py st ∨ py st' = logged) ∧ (out = Ok tt → py st' = logged).
Proof.
  unfold process_chunk. intros H Hrid Hk Hreg Hheap.
  rewrite (bind_Ok get_py _ st st (py st)) in H by reflexivity.
  destruct (invoke_all_spec Global chunk (listeners (client (py st))) st)
    as (Hpy & _).
  rewrite bind_run in H.
  destruct (for_each _ _ st) as [st1 [[]|e]] eqn:Hg; simpl in Hpy.
  2:{ injection H as <- <-. split; [by left|done]. }
  rewrite <- Hpy in Hreg, Hheap.
  rewrite bind_lift, (py_getitem_in _ _ _ Hrid) in H.
  rewrite bind_lift, Hrid in H.
  rewrite bind_run, rooms_contains_run, Hk in H. simpl in H.
  rewrite Hreg in H. simpl in H.
  rewrite bind_run in H. unfold ret at 1 in H.
  rewrite bind_lift, bind_run, (rooms_getitem_run _ _ _ Hk), Hreg in H.
  rewrite bind_run, (modify_room_run _ _ _ _ Hheap) in H.
  rewrite bind_lift, bind_run, (rooms_getitem_run _ _ _ Hk) in H.
  simpl in H. rewrite Hreg in H.
  rewrite bind_run, get_room_run in H. simpl in H.
  rewrite list_lookup_insert_eq in H by (by eapply lookup_lt_Some).
  set (st2 := with_py st1 _) in H.
  destruct (invoke_all_spec (RoomScope a) chunk (r_listeners r) st2)
    as (Hpy2 & _).
  simpl in H. rewrite H in Hpy2. simpl in Hpy2.
  rewrite Hpy2. subst st2. simpl. rewrite Hpy. split; [by right|done].
Qed.

Lemma listen_for_events_run (timeout : Z) (st : state) (cur : json)
  (e' : Env) (resp tok : json) :
  end_ (client (py st)) = Some cur →
  transport (ApiEventStream cur timeout) (env st) = (e', Ok resp) →
  py_getitem resp "end" = Ok tok →
  listen_for_events timeout st =
    let st1 := with_py (after_call st (ApiEventStream cur timeout) e')
                       (with_end (py st) tok) in
    match res_bind (py_getitem resp "chunk") py_iter with
    | Ok chunks => for_each chunks process_chunk st1
    | Raise e => (st1, Raise e)
    end.
Proof.
  intros Hcur Ht Htok. unfold listen_for_events.
  rewrite bind_run, get_end_run, Hcur.
  rewrite bind_run, api_run, Ht. simpl.
  rewrite bind_lift, Htok.
  rewrite bind_run. unfold set_end at 1.
  rewrite (bind_Ok get_py _ _ _ _ eq_refl). unfold set_py at 1. simpl.
  rewrite bind_lift.
  destruct (py_getitem resp "chunk") as [ch|e]; simpl; [|done].
  rewrite bind_lift. by destruct (py_iter ch).
Qed.

(** Every way [listen_for_events] can go: it stops before the loop and
    calls no callback, or it runs the loop over the chunks from a state
    that differs from the start by the logged call and the cursor. *)
Lemma listen_for_events_cases (timeout : Z) (st : state) :
  let r := listen_for_events timeout st in
  (trace (fst r) = trace st ∧ ∃ e, snd r = Raise e) ∨
  (∃ cur e' resp tok chunks,
     end_ (client (py st)) = Some cur ∧
     transport (ApiEventStream cur timeout) (env st) = (e', Ok resp) ∧
     py_getitem resp "end" = Ok tok ∧
     res_bind (py_getitem resp "chunk") py_iter = Ok chunks ∧
     r = for_each chunks process_chunk
           (with_py (after_call st (ApiEventStream cur timeout) e')
                    (with_end (py st) tok))).
Proof.
  simpl.
  destruct (end_ (client (py st))) as [cur|] eqn:Hcur.
  2:{ left. unfold listen_for_events.
      rewrite bind_run, get_end_run, Hcur. simpl. eauto. }
  destruct (transport (ApiEventStream cur timeout) (env st))
    as [e' [resp|e]] eqn:Ht.
  2:{ left. unfold listen_for_events.
      rewrite bind_run, get_end_run, Hcur.
      rewrite bind_run, api_run, Ht. simpl. eauto. }
  destruct (py_getitem resp "end") as [tok|e] eqn:Htok.
  2:{ left. unfold listen_for_events.
      rewrite bind_run, get_end_run, Hcur.
      rewrite bind_run, api_run, Ht. simpl.
      rewrite bind_lift, Htok. simpl. eauto. }
  rewrite (listen_for_events_run _ _ _ _ _ _ Hcur Ht Htok). simpl.
  destruct (res_bind (py_getitem resp "chunk") py_iter) as [chunks|e] eqn:Hch.
  - right. exists cur, e', resp, tok, chunks. by rewrite Hch.
  - left. simpl. eauto.
Qed.

Lemma listen_without_end (timeout : Z) (st : state) (cur : json)
  (e' : Env) (resp : json) (e : exn) :
  end_ (client (py st)) = Some cur →
  transport (ApiEventStream cur timeout) (env st) = (e', Ok resp) →
  py_getitem resp "end" = Raise e →
  listen_for_events timeout st =
    (after_call st (ApiEventStream cur timeout) e', Raise e).
Proof.
  intros Hcur Ht Hend. unfold listen_for_events.
  rewrite bind_run, get_end_run, Hcur.
  rewrite bind_run, api_run, Ht. simpl.
  by rewrite bind_lift, Hend.
Qed.

Lemma listen_without_chunk (timeout : Z) (st : state) (cur : json)
  (e' : Env) (resp tok : json) (e : exn) :
  end_ (client (py st)) = Some cur →
  transport (ApiEventStream cur timeout) (env st) = (e', Ok resp) →
  py_getitem resp "end" = Ok tok →
  py_getitem resp "chunk" = Raise e →
  listen_for_events timeout st =
    (with_py (after_call st (ApiEventStream cur timeout) e')
             (with_end (py st) tok), Raise e).
Proof.
  intros Hcur Ht Hend Hch.
  rewrite (listen_for_events_run _ _ _ _ _ _ Hcur Ht Hend).
  simpl. by rewrite Hch.
Qed.

(** C4 (amended). A callback that raises during [listen_for_events] is
    the last callback called, and its exception is the outcome of
    [listen_for_events]: nothing registered after it is called. *)
Theorem listener_exception_propagates (timeout : Z) (st : state) :
  let r := listen_for_events timeout st in
  trace (fst r) = trace st ++ new_trace st (fst r) ∧
  ∀ pre i post e,
    new_trace st (fst r) = pre ++ i :: post →
    inv_result i = Raise e →
    post = [] ∧ snd r = Raise e.
Proof.
  simpl.
  destruct (listen_for_events_cases timeout st)
    as [[Htr _]|(cur & e' & resp & tok & chunks & _ & _ & _ & _ & Hrun)].
  - assert (Hnew : new_trace st (listen_for_events timeout st).1 = []).
    { apply new_trace_app. by rewrite app_nil_r. }
    rewrite Hnew. split; [by rewrite app_nil_r|].
    intros pre i post e H. by destruct pre.
  - simpl in Hrun.
    destruct (listen_for_events timeout st) as [st' out]. symmetry in Hrun.
    destruct (for_each_chunks_post _ _ _ _ Hrun) as [new P].
    destruct P. simpl in *.
    rewrite (new_trace_app st st' new) by done.
    split; [done|].
    intros pre i post e Hnew Hi. by eapply raised_last_inv.
Qed.

(** One poll that is answered with an [end] token asks the event stream
    from the current cursor and leaves the cursor at that token, however
    the call ends; every callback called meanwhile already sees the new
    cursor. *)
Lemma listen_for_events_cursor_step (timeout : Z) (st : state)
  (cur : json) (e' : Env) (resp tok : json) :
  end_ (client (py st)) = Some cur →
  transport (ApiEventStream cur timeout) (env st) = (e', Ok resp) →
  py_getitem resp "end" = Ok tok →
  let r := listen_for_events timeout st in
  api_log (fst r) = api_log st ++ [ApiEventStream cur timeout] ∧
  end_ (client (py (fst r))) = Some tok ∧
  seen_end (Some tok) (new_trace st (fst r)).
Proof.
  intros Hcur Ht Htok. simpl.
  rewrite (listen_for_events_run _ _ _ _ _ _ Hcur Ht Htok). simpl.
  destruct (res_bind (py_getitem resp "chunk") py_iter) as [chunks|e].
  - destruct (for_each chunks process_chunk _) as [st' out] eqn:Hrun.
    destruct (for_each_chunks_post _ _ _ _ Hrun) as [new P].
    destruct P. simpl in *.
    rewrite (new_trace_app st st' new) by done. done.
  - simpl. split; [done|]. split; [done|].
    rewrite (new_trace_app _ _ []) by (by rewrite app_nil_r).
    constructor.
Qed.

(** C5. In a sequence of polls that the event stream answers, each from
    the state the previous one left, every call asks the stream from the
    cursor it finds and leaves the cursor at the [end] token of its own
    answer, whether or not the answer brings chunks and however the call
    ends; the callbacks it calls already see that token. *)
Theorem poll_sequence_advances_cursor (calls : list (Z * json))
  (st : state) :
  answered calls st →
  Forall2 cursor_advanced calls (poll_runs (map fst calls) st).
Proof.
  revert st. induction calls as [|[timeout tok] calls IH]; intros st Ha.
  - constructor.
  - destruct Ha as [(cur & e' & resp & Hcur & Ht & Htok) Ha].
    simpl. constructor.
    + destruct (listen_for_events_cursor_step timeout st cur e' resp tok
                  Hcur Ht Htok) as (Hlog & Hend & Hseen).
      split; [|by split]. by exists cur.
    + by apply IH.
Qed.

Lemma invoke_all_returns (sc : scope) (chunk : json) (ls : list lid)
  (st : state) :
  callbacks_return →
  snd (for_each ls (fun l => invoke sc l chunk) st) = Ok tt.
Proof.
  intros Hcb. revert st. induction ls as [|l ls IH]; intros st; [done|].
  simpl. rewrite bind_run, invoke_run, Hcb. apply IH.
Qed.

Lemma process_chunk_returns (chunk : json) (st : state) :
  callbacks_return → chunk_shape chunk = true → registry_ok (py st) →
  snd (process_chunk chunk st) = Ok tt ∧
  registry_ok (py (fst (process_chunk chunk st))).
Proof.
  intros Hcb Hshape Hreg.
  destruct chunk as [| | | | |d]; try discriminate.
  unfold chunk_shape, field_if_present in Hshape.
  destruct (process_chunk (JDict d) st) as [st' out] eqn:H. simpl.
  unfold process_chunk in H.
  rewrite (bind_Ok get_py _ st st (py st)) in H by reflexivity.
  destruct (invoke_all_spec Global (JDict d) (listeners (client (py st))) st)
    as (Hpy & _).
  pose proof (invoke_all_returns Global (JDict d)
                (listeners (client (py st))) st Hcb) as Hout.
  rewrite bind_run in H.
  destruct (for_each _ _ st) as [st1 out1]; simpl in Hpy, Hout. subst out1.
  rewrite <- Hpy in Hreg. clear Hpy.
  rewrite bind_lift in H. cbn [py_in] in H.
  destruct (assoc "room_id" d) as [rid|] eqn:Hrid.
  2:{ rewrite bool_decide_eq_false_2 in H by (by intros [? ?]).
      by injection H as <- <-. }
  rewrite bool_decide_eq_true_2 in H by eauto.
  destruct (is_hashable_hash _ Hshape) as [k Hk].
  rewrite bind_lift in H. cbn [py_getitem] in H. rewrite Hrid in H.
  rewrite bind_run, rooms_contains_run, Hk in H. simpl in H.
  destruct (rooms (client (py st1)) !! k) as [a|] eqn:Hka; simpl in H.
  - rewrite bind_run in H. unfold ret at 1 in H.
    rewrite bind_lift, bind_run, (rooms_getitem_run _ _ _ Hk), Hka in H.
    destruct (lookup_lt_is_Some_2 _ _ (Hreg _ _ Hka)) as [r Hr].
    rewrite bind_run, (modify_room_run _ _ _ _ Hr) in H.
    rewrite bind_lift, bind_run, (rooms_getitem_run _ _ _ Hk) in H.
    simpl in H. rewrite Hka in H.
    rewrite bind_run, get_room_run in H. simpl in H.
    rewrite list_lookup_insert_eq in H by (by eapply lookup_lt_Some).
    set (st2 := with_py st1 _) in H.
    destruct (invoke_all_spec (RoomScope a) (JDict d) (r_listeners r) st2)
      as (Hpy2 & _).
    pose proof (invoke_all_returns (RoomScope a) (JDict d)
                  (r_listeners r) st2 Hcb) as Hout.
    simpl in H. rewrite H in Hpy2, Hout. simpl in Hpy2, Hout.
    split; [done|]. rewrite Hpy2. subst st2. simpl.
    intros k' a' Hk'. simpl in *. rewrite length_insert. by eapply Hreg.
  - rewrite bind_run, bind_lift, bind_run, (mkroom_run _ _ _ Hk) in H.
    unfold ret at 1 in H. cbv beta iota zeta in H.
    rewrite bind_lift, bind_run, (rooms_getitem_run _ _ _ Hk) in H.
    simpl in H. rewrite lookup_insert_eq in H.
    assert (Hnew : (heap (py st1) ++ [Room_init rid]) !! length (heap (py st1))
                   = Some (Room_init rid)).
    { rewrite lookup_app_r, Nat.sub_diag by lia. done. }
    rewrite bind_run in H.
    erewrite modify_room_run in H by (simpl; exact Hnew).
    simpl in H.
    rewrite bind_lift, bind_run, (rooms_getitem_run _ _ _ Hk) in H.
    simpl in H. rewrite lookup_insert_eq in H.
    rewrite bind_run, get_room_run in H. simpl in H.
    rewrite list_lookup_insert_eq in H by (rewrite length_app; simpl; lia).
    simpl in H. unfold ret in H. injection H as <- <-.
    split; [done|].
    intros k' a'. unfold with_py, with_heap, registered, with_client.
    cbn [py rooms client heap].
    rewrite length_insert, length_app. simpl.
    destruct (decide (k = k')) as [Heq|Hne]; [subst k'|].
    + rewrite lookup_insert_eq. intros [= <-]. lia.
    + rewrite lookup_insert_ne by done. intros Hk'.
      pose proof (Hreg _ _ Hk'). lia.
Qed.

Lemma for_each_chunks_returns (chunks : list json) (st : state) :
  callbacks_return → forallb chunk_shape chunks = true →
  registry_ok (py st) →
  snd (for_each chunks process_chunk st) = Ok tt.
Proof.
  intros Hcb. revert st. induction chunks as [|c chunks IH]; intros st Hs Hreg.
  - done.
  - simpl in Hs. apply andb_true_iff in Hs as [Hc Hs].
    simpl. rewrite bind_run.
    destruct (process_chunk_returns c st Hcb Hc Hreg) as [Hout Hreg'].
    destruct (process_chunk c st) as [st1 out]; simpl in *. subst out.
    by apply IH.
Qed.

(** With callbacks that return, chunks that are records with a hashable
    room identifier (or none) and a registry of allocated rooms,
    [listen_for_events] returns normally. *)
Lemma listen_for_events_returns (timeout : Z) (st : state)
  (cur : json) (e' : Env) (resp tok : json) (chunks : list json) :
  callbacks_return →
  registry_ok (py st) →
  end_ (client (py st)) = Some cur →
  transport (ApiEventStream cur timeout) (env st) = (e', Ok resp) →
  py_getitem resp "end" = Ok tok →
  res_bind (py_getitem resp "chunk") py_iter = Ok chunks →
  forallb chunk_shape chunks = true →
  snd (listen_for_events timeout st) = Ok tt.
Proof.
  intros Hcb Hreg Hcur Ht Htok Hch Hshape.
  rewrite (listen_for_events_run _ _ _ _ _ _ Hcur Ht Htok). simpl.
  rewrite Hch. by apply for_each_chunks_returns.
Qed.

(** ** Bootstrap *)

(** A loop of quiet steps is quiet. *)
Lemma for_each_quiet {A} (P : A → bool) (I : state → Prop)
  (body : A → M unit) (l : list A) (st : state) :
  (∀ x st, P x = true → I st → quiet I st (body x st)) →
  forallb P l = true → I st →
  quiet I st (for_each l body st).
Proof.
  intros Hbody. revert st. induction l as [|x l IH]; intros st Hl Ha.
  - split; [by left|done].
  - simpl in Hl. apply andb_true_iff in Hl as [Hx Hl].
    simpl. rewrite bind_run.
    destruct (Hbody x st Hx Ha) as [Hout Hlen].
    destruct (body x st) as [st1 [[]|e]]; unfold quiet; simpl in *.
    + destruct (IH st1 Hl (Hlen Ha)) as [Hout' Hlen'].
      split; [exact Hout'|]. intros _. apply Hlen', Hlen, Ha.
    + split; [exact Hout|exact Hlen].
Qed.

Lemma quiet_weaken (I : state → Prop) (st st' : state)
  (r : state * res unit) :
  quiet I st r → quiet (fun _ => True) st' r.
Proof. intros [H _]. by split. Qed.

Lemma modify_room_quiet (a : addr) (f : Room → Room) (st : state) :
  allocated a st → quiet (allocated a) st (modify_room a f st).
Proof.
  intros Ha. destruct (lookup_lt_is_Some_2 _ _ Ha) as [r Hr].
  rewrite (modify_room_run _ _ _ _ Hr). split; [by left|].
  unfold allocated; simpl. by rewrite length_insert.
Qed.

Lemma process_state_event_quiet (ev : json) (a : addr) (st : state) :
  state_event_shape ev = true → allocated a st →
  quiet (allocated a) st (_process_state_event ev a st).
Proof.
  intros Hshape Ha. unfold _process_state_event.
  destruct ev as [| | | | |d]; try discriminate.
  unfold state_event_shape, field_if_present in Hshape.
  rewrite bind_lift. cbn [py_in]. cbv beta iota.
  destruct (bool_decide (is_Some (assoc "type" d))); cbn [negb]; cbv beta iota;
    [|split; [by left|done]].
  rewrite bind_lift. cbn [py_getitem].
  destruct (assoc "type" d) as [etype|]; [|split; [by right|done]].
  assert (Hfield : ∀ (k : string) (f : json → Room → Room),
    quiet (allocated a) st
      (bind (lift (py_getitem (JDict d) "content"))
         (fun c => bind (lift (py_getitem c k))
            (fun v => modify_room a (f v))) st)).
  { intros k f. rewrite bind_lift. cbn [py_getitem].
    destruct (assoc "content" d) as [c|]; [|split; [by right|done]].
    destruct c as [| | | | |dc]; try discriminate.
    rewrite bind_lift. cbn [py_getitem].
    destruct (assoc k dc) as [v|]; [|split; [by right|done]].
    by apply modify_room_quiet. }
  destruct (py_eq etype _); [apply Hfield|].
  destruct (py_eq etype _); [apply Hfield|].
  destruct (py_eq etype _); [apply Hfield|].
  split; [by left|done].
Qed.

Lemma sync_room_quiet (room : json) (st : state) :
  room_shape room = true →
  quiet (fun _ => True) st (sync_room room st).
Proof.
  intros Hshape. unfold room_shape in Hshape.
  apply andb_true_iff in Hshape as [Hshape Hstate].
  apply andb_true_iff in Hshape as [Hrid Hmsg].
  destruct room as [| | | | |d]; try discriminate.
  unfold field_if_present in Hrid, Hmsg, Hstate.
  unfold sync_room.
  rewrite bind_lift. cbn [py_getitem].
  destruct (assoc "room_id" d) as [rid|]; [|split; [by right|done]].
  destruct (is_hashable_hash _ Hrid) as [k Hk].
  rewrite bind_run, (mkroom_run _ _ _ Hk).
  rewrite bind_lift, bind_run, (rooms_getitem_run _ _ _ Hk).
  simpl. rewrite lookup_insert_eq.
  set (st1 := with_py st _).
  set (a := length (heap (py st))).
  assert (Ha : allocated a st1).
  { unfold allocated, st1, a; simpl. rewrite length_app; simpl. lia. }
  clearbody st1 a.
  rewrite bind_lift.
  destruct (assoc "messages" d) as [ms|]; [|split; [by right|done]].
  destruct ms as [| | | | |dm]; try discriminate.
  rewrite bind_lift. cbn [py_getitem].
  destruct (assoc "chunk" dm) as [ch|]; [|split; [by right|done]].
  destruct ch as [| | | |cl|]; try discriminate.
  rewrite bind_lift. cbn [py_iter].
  rewrite bind_run.
  destruct (for_each_quiet (fun _ => true) (allocated a)
              (fun chunk => modify_room a (append_event chunk)) cl st1)
    as [Hout Hinv]; [|done|done|].
  { intros x st' _ Hst'. by apply modify_room_quiet. }
  destruct (for_each cl _ st1) as [st2 [[]|e]]; simpl in Hout, Hinv.
  2:{ split; [done|done]. }
  specialize (Hinv Ha).
  rewrite bind_lift.
  destruct (assoc "state" d) as [ss|]; [|split; [by right|done]].
  destruct ss as [| | | |sl|]; try discriminate.
  rewrite bind_lift. cbn [py_iter].
  eapply quiet_weaken.
  apply (for_each_quiet state_event_shape (allocated a)); try done.
  intros x st' Hx Hst'. by apply process_state_event_quiet.
Qed.

Lemma sync_body_quiet (response : json) (st : state) :
  sync_shape response = true →
  quiet (fun _ => True) st (sync_body response st).
Proof.
  intros Hshape. unfold sync_shape, field_if_present in Hshape.
  destruct response as [| | | | |d]; try discriminate.
  unfold sync_body.
  rewrite bind_lift. cbn [py_getitem].
  destruct (assoc "end" d) as [tok|]; [|split; [by right|done]].
  rewrite bind_run. unfold set_end at 1.
  rewrite (bind_Ok get_py _ _ _ _ eq_refl). unfold set_py at 1.
  rewrite bind_lift.
  destruct (assoc "rooms" d) as [rs|]; [|split; [by right|done]].
  destruct rs as [| | | |rl|]; try discriminate.
  rewrite bind_lift. cbn [py_iter].
  split; [|done].
  apply (for_each_quiet room_shape (fun _ => True)); try done.
  intros x st' Hx _. by apply sync_room_quiet.
Qed.

Lemma sync_run (limit : Z) (st : state) (e' : Env) (response : json) :
  transport (ApiInitialSync limit) (env st) = (e', Ok response) →
  _sync limit st =
    try_except_KeyError_pass (sync_body response)
      (after_call st (ApiInitialSync limit) e').
Proof.
  intros Ht. unfold _sync. by rewrite bind_run, api_run, Ht.
Qed.

(** [_sync] returns normally on an answer whose present fields have the
    expected kinds. *)
Lemma sync_returns (limit : Z) (st : state) (e' : Env) (response : json) :
  transport (ApiInitialSync limit) (env st) = (e', Ok response) →
  sync_shape response = true →
  snd (_sync limit st) = Ok tt.
Proof.
  intros Ht Hshape. rewrite (sync_run _ _ _ _ Ht).
  unfold try_except_KeyError_pass.
  destruct (sync_body_quiet response
              (after_call st (ApiInitialSync limit) e') Hshape) as [Hout _].
  destruct (sync_body response _) as [st' [[]|e]]; simpl in *; [done|].
  destruct Hout as [?|[= ->]]; done.
Qed.

(** [_sync] ends in the state its [try] body reached. *)
Lemma sync_keeps_state (limit : Z) (st : state) (e' : Env) (response : json) :
  transport (ApiInitialSync limit) (env st) = (e', Ok response) →
  fst (_sync limit st) =
    fst (sync_body response (after_call st (ApiInitialSync limit) e')).
Proof.
  intros Ht. rewrite (sync_run _ _ _ _ Ht).
  unfold try_except_KeyError_pass.
  by destruct (sync_body response _) as [st' [[]|[]]].
Qed.

(** [_sync] stops at the first room that raises [KeyError], in the state
    reached there. *)
Lemma sync_stops_at_missing_key (limit : Z) (st : state) (e' : Env)
  (d : list (string * json)) (tok : json) (done bad_rest : list json)
  (bad : json) (st2 st3 : state) :
  transport (ApiInitialSync limit) (env st) = (e', Ok (JDict d)) →
  assoc "end" d = Some tok →
  assoc "rooms" d = Some (JList (done ++ bad :: bad_rest)) →
  for_each done sync_room
    (with_py (after_call st (ApiInitialSync limit) e')
             (with_end (py st) tok)) = (st2, Ok tt) →
  sync_room bad st2 = (st3, Raise KeyError) →
  _sync limit st = (st3, Ok tt).
Proof.
  intros Ht Hend Hrooms Hdone Hbad.
  rewrite (sync_run _ _ _ _ Ht).
  unfold try_except_KeyError_pass, sync_body.
  rewrite bind_lift. cbn [py_getitem]. rewrite Hend.
  rewrite bind_run. unfold set_end at 1.
  rewrite (bind_Ok get_py _ _ _ _ eq_refl). unfold set_py at 1.
  rewrite bind_lift. rewrite Hrooms.
  rewrite bind_lift. cbn [py_iter].
  rewrite for_each_app. simpl py. rewrite Hdone.
  simpl. rewrite bind_run, Hbad. done.
Qed.

(** C3 (amended). Bootstrap: when the fields present in the answer have
    the expected kinds, [_sync] returns normally whichever keys are
    missing, in the state its [try] body had reached; it stops at the
    first room that lacks a key and keeps what the rooms before it
    brought. Poll: an answer without [end] raises [KeyError] with the
    client unchanged; an answer with [end] and without [chunk] raises
    [KeyError] with the cursor advanced. *)
Theorem missing_keys_bootstrap_and_poll :
  (∀ (limit : Z) (st : state) (e' : Env) (response : json),
     transport (ApiInitialSync limit) (env st) = (e', Ok response) →
     sync_shape response = true →
     snd (_sync limit st) = Ok tt ∧
     fst (_sync limit st) =
       fst (sync_body response (after_call st (ApiInitialSync limit) e'))) ∧
  (∀ (limit : Z) (st : state) (e' : Env) (d : list (string * json))
     (tok : json) (done bad_rest : list json) (bad : json) (st2 st3 : state),
     transport (ApiInitialSync limit) (env st) = (e', Ok (JDict d)) →
     assoc "end" d = Some tok →
     assoc "rooms" d = Some (JList (done ++ bad :: bad_rest)) →
     for_each done sync_room
       (with_py (after_call st (ApiInitialSync limit) e')
                (with_end (py st) tok)) = (st2, Ok tt) →
     sync_room bad st2 = (st3, Raise KeyError) →
     _sync limit st = (st3, Ok tt)) ∧
  (∀ (timeout : Z) (st : state) (cur : json) (e' : Env) (resp : json),
     end_ (client (py st)) = Some cur →
     transport (ApiEventStream cur timeout) (env st) = (e', Ok resp) →
     py_getitem resp "end" = Raise KeyError →
     listen_for_events timeout st =
       (after_call st (ApiEventStream cur timeout) e', Raise KeyError)) ∧
  (∀ (timeout : Z) (st : state) (cur : json) (e' : Env) (resp tok : json),
     end_ (client (py st)) = Some cur →
     transport (ApiEventStream cur timeout) (env st) = (e', Ok resp) →
     py_getitem resp "end" = Ok tok →
     py_getitem resp "chunk" = Raise KeyError →
     listen_for_events timeout st =
       (with_py (after_call st (ApiEventStream cur timeout) e')
                (with_end (py st) tok), Raise KeyError)).
Proof.
  split_and!.
  - intros limit st e' response Ht Hshape. split.
    + by eapply sync_returns.
    + by apply sync_keeps_state.
  - intros. by eapply sync_stops_at_missing_key.
  - intros. by eapply listen_without_end.
  - intros. by eapply listen_without_chunk.
Qed.

End Properties.

(** * Concrete runs

    The scripted world of [Scripted]: runs that show where the code
    departs from the specification, and instances of the theorems above. *)

Import Scripted.

(** The state [lobby] of the runs below is the one a client reaches by
    bootstrapping on the answer of the specification's scenario and
    registering one global and one room listener. *)
Lemma lobby_is_reached :
  let answer :=
    Scripted.sync_response "tok1"
      [Scripted.sync_room_descr "!a:x" [Scripted.hi]
         [JDict [("type", JStr "m.room.name");
                 ("content", JDict [("name", JStr "Lobby")])]]] in
  let st0 := Scripted.start Scripted.fresh [Ok answer] in
  let st1 := fst (@_sync Scripted.world 1 st0) in
  let st2 := fst (@add_listener Scripted.world 7%nat st1) in
  let st3 := fst (@Room_add_listener Scripted.world 0%nat 5%nat st2) in
  snd (@_sync Scripted.world 1 st0) = Ok tt ∧ py st3 = Scripted.lobby.
Proof. vm_compute. repeat split. Qed.

(** C1. Starting from a registry that maps ["!a:x"] to a room holding
    one event and one listener: [join_room], [create_room] and [_sync]
    each point the registry at a new, blank room (no events, no
    listeners), while [listen_for_events] keeps the registered room and
    appends to its log. *)
Theorem room_creation_resets_registered_room :
  let rid := KStr "!a:x" in
  let blank := Room_init (JStr "!a:x") in
  let answer := JDict [("room_id", JStr "!a:x")] in
  let joined :=
    @join_room Scripted.world "!a:x"
      (Scripted.start Scripted.lobby [Ok answer]) in
  let created :=
    @create_room Scripted.world None false []
      (Scripted.start Scripted.lobby [Ok answer]) in
  let synced :=
    @_sync Scripted.world 1
      (Scripted.start Scripted.lobby
         [Ok (Scripted.sync_response "tok2"
                [Scripted.sync_room_descr "!a:x" [] []])]) in
  let polled :=
    @listen_for_events Scripted.world 30000
      (Scripted.start Scripted.lobby
         [Ok (Scripted.poll_response "tok2"
                [Scripted.message "!a:x" "yo"])]) in
  (rooms (client Scripted.lobby) !! rid = Some 0%nat ∧
   (r_listeners <$> heap Scripted.lobby !! 0%nat) = Some [5%nat] ∧
   (events <$> heap Scripted.lobby !! 0%nat) = Some [Scripted.hi]) ∧
  (r_listeners blank = [] ∧ events blank = []) ∧
  (snd joined = Ok 1%nat ∧
   rooms (client (py (fst joined))) !! rid = Some 1%nat ∧
   heap (py (fst joined)) !! 1%nat = Some blank) ∧
  (snd created = Ok 1%nat ∧
   rooms (client (py (fst created))) !! rid = Some 1%nat ∧
   heap (py (fst created)) !! 1%nat = Some blank) ∧
  (snd synced = Ok tt ∧
   rooms (client (py (fst synced))) !! rid = Some 1%nat ∧
   heap (py (fst synced)) !! 1%nat = Some blank) ∧
  (snd polled = Ok tt ∧
   rooms (client (py (fst polled))) !! rid = Some 0%nat ∧
   (r_listeners <$> heap (py (fst polled)) !! 0%nat) = Some [5%nat] ∧
   (events <$> heap (py (fst polled)) !! 0%nat) =
     Some [Scripted.hi; Scripted.message "!a:x" "yo"]).
Proof. vm_compute. repeat split. Qed.

(** C2. [leave] on the registered room ["!a:x"], with an HTTP layer
    that accepts the call: the call is made, then [leave] raises
    [AttributeError] instead of returning [True], and the room is still
    registered. *)
Theorem leave_raises_AttributeError :
  let st := Scripted.start Scripted.lobby [Ok (JDict [])] in
  let r := @Room_leave Scripted.world 0%nat st in
  snd r = Raise AttributeError ∧
  py (fst r) = py st ∧
  api_log (fst r) = [ApiLeaveRoom (JStr "!a:x")] ∧
  rooms (client (py (fst r))) !! KStr "!a:x" = Some 0%nat.
Proof. vm_compute. repeat split. Qed.

(** C3, counterexample. A poll answered by an empty record raises
    [KeyError]; it does not return normally. *)
Lemma poll_without_end_raises_KeyError :
  let r := @listen_for_events Scripted.world 30000
             (Scripted.start Scripted.lobby [Ok (JDict [])]) in
  snd r = Raise KeyError ∧ py (fst r) = Scripted.lobby.
Proof. vm_compute. repeat split. Qed.

(** C4, counterexample. With callbacks 13 and 7 registered in this
    order and 13 raising, a poll that brings one chunk for ["!a:x"] calls
    13 only: neither 7 nor the room's listener 5 is called. *)
Lemma raising_listener_blocks_later_listeners :
  let chunk := Scripted.message "!a:x" "yo" in
  let r := @listen_for_events Scripted.world 30000
             (Scripted.start Scripted.lobby13
                [Ok (Scripted.poll_response "tok2" [chunk])]) in
  listeners (client Scripted.lobby13) = [13%nat; 7%nat] ∧
  snd r = Raise (UserError "boom") ∧
  delivered (trace (fst r)) = [(Global, 13%nat, chunk)] ∧
  spec_delivery Scripted.lobby13 [chunk] =
    [(Global, 13%nat, chunk); (Global, 7%nat, chunk);
     (RoomScope 0, 5%nat, chunk)].
Proof. vm_compute. repeat split. Qed.

(** [missing_keys_bootstrap_and_poll] at work: a bootstrap whose only
    room lacks [messages] returns; a bootstrap whose second room lacks
    [messages] returns in the state reached there, the third room not
    looked at; polls answered without [end], and without [chunk], raise. *)
Lemma missing_keys_bootstrap_and_poll_witness :
  let partial :=
    Scripted.sync_response "tok1" [JDict [("room_id", JStr "!a:x")]] in
  let good :=
    Scripted.sync_room_descr "!a:x" [Scripted.message "!a:x" "hi"]
      [Scripted.name_event] in
  let bad := JDict [("room_id", JStr "!b:y")] in
  let other := Scripted.sync_room_descr "!c:z" [] [] in
  let st := Scripted.start Scripted.fresh
              [Ok (Scripted.sync_response "tok1" [good; bad; other])] in
  let st1 := with_py (after_call st (ApiInitialSync 1) [])
                     (with_end (py st) (JStr "tok1")) in
  let st2 := fst (@for_each Scripted.world json [good] sync_room st1) in
  let st3 := fst (@sync_room Scripted.world bad st2) in
  snd (@_sync Scripted.world 1 (Scripted.start Scripted.fresh [Ok partial])) =
    Ok tt ∧
  @_sync Scripted.world 1 st = (st3, Ok tt) ∧
  @listen_for_events Scripted.world 30000
    (Scripted.start Scripted.lobby [Ok (JDict [("chunk", JList [])])]) =
    (after_call (Scripted.start Scripted.lobby [Ok (JDict [("chunk", JList [])])])
       (ApiEventStream (JStr "tok1") 30000) [], Raise KeyError) ∧
  @listen_for_events Scripted.world 30000
    (Scripted.start Scripted.lobby [Ok (JDict [("end", JStr "tok2")])]) =
    (with_py
       (after_call (Scripted.start Scripted.lobby [Ok (JDict [("end", JStr "tok2")])])
          (ApiEventStream (JStr "tok1") 30000) [])
       (with_end Scripted.lobby (JStr "tok2")), Raise KeyError).
Proof.
  intros partial good bad other st st1 st2 st3.
  pose proof (@missing_keys_bootstrap_and_poll Scripted.world)
    as (Hsync & Hstop & Hend & Hchunk).
  split; [|split; [|split]].
  - eapply Hsync; reflexivity.
  - apply (Hstop 1 st []
             [("end", JStr "tok1"); ("rooms", JList [good; bad; other])]
             (JStr "tok1") [good] [other] bad st2 st3); reflexivity.
  - eapply Hend; reflexivity.
  - eapply Hchunk; reflexivity.
Defined.

(** [listener_exception_propagates] at work: the exception of callback
    13 is the outcome of the poll. *)
Lemma listener_exception_propagates_witness :
  snd (@listen_for_events Scripted.world 30000
         (Scripted.start Scripted.lobby13
            [Ok (Scripted.poll_response "tok2"
                   [Scripted.message "!a:x" "yo"])])) =
  Raise (UserError "boom").
Proof.
  exact (proj2
    (proj2 (@listener_exception_propagates Scripted.world 30000
              (Scripted.start Scripted.lobby13
                 [Ok (Scripted.poll_response "tok2"
                        [Scripted.message "!a:x" "yo"])]))
       []
       {| inv_scope := Global; inv_listener := 13%nat;
          inv_chunk := Scripted.message "!a:x" "yo";
          inv_seen := with_end Scripted.lobby13 (JStr "tok2");
          inv_result := Raise (UserError "boom") |}
       [] (UserError "boom") eq_refl eq_refl)).
Defined.

(** [poll_sequence_advances_cursor] at work: two polls, the second
    answered with no chunk. *)
Lemma poll_sequence_advances_cursor_witness :
  let calls := [(30000, JStr "tok2"); (30000, JStr "tok3")] in
  let st := start lobby [Ok (poll_response "tok2" [message "!a:x" "yo"]);
                         Ok (poll_response "tok3" [])] in
  Forall2 cursor_advanced calls (@poll_runs world [30000; 30000] st).
Proof.
  intros calls st.
  apply (@poll_sequence_advances_cursor world calls st).
  split; [|split; [|exact I]].
  - exists (JStr "tok1"), [Ok (poll_response "tok3" [])],
      (poll_response "tok2" [message "!a:x" "yo"]).
    repeat split; reflexivity.
  - exists (JStr "tok2"), [], (poll_response "tok3" []).
    repeat split; reflexivity.
Defined.

(** [process_state_event_idempotent] at work: a name event, an event
    without [type], an event of another type. *)
Lemma process_state_event_idempotent_witness :
  (let once := @_process_state_event world name_event 0%nat (start lobby []) in
   @_process_state_event world name_event 0%nat (fst once) = once) ∧
  @_process_state_event world untyped_event 0%nat (start lobby []) =
    (start lobby [], Ok tt) ∧
  @_process_state_event world member_event 0%nat (start lobby []) =
    (start lobby [], Ok tt).
Proof.
  split; [|split].
  - exact (proj1 (@process_state_event_idempotent world name_event 0%nat
                    (start lobby []))).
  - exact (proj1 (proj2 (@process_state_event_idempotent world untyped_event
                           0%nat (start lobby []))) eq_refl).
  - exact (proj2 (proj2 (@process_state_event_idempotent world member_event
                           0%nat (start lobby [])))
             (JStr "m.room.member") eq_refl eq_refl eq_refl eq_refl eq_refl).
Defined.

(** [update_aliases_first_match] at work: the aliases of the second
    chunk are cached, those of the third are not looked at. *)
Lemma update_aliases_first_match_witness :
  @Room_update_aliases world 0%nat
    (start lobby
       [Ok (JList [member_event; aliases_event ["#a:x"];
                   aliases_event ["#b:x"]])]) =
  (@mkState world
     (with_heap lobby
        [ {| room_id := JStr "!a:x"; r_listeners := [5%nat];
             events := [hi]; name := JStr "Lobby";
             aliases := JList [JStr "#a:x"]; topic := JNull |} ])
     [] [ApiGetRoomState (JStr "!a:x")] [],
   Ok (JBool true)).
Proof.
  exact (@update_aliases_first_match world 0%nat
           {| room_id := JStr "!a:x"; r_listeners := [5%nat];
              events := [hi]; name := JStr "Lobby";
              aliases := JList []; topic := JNull |}
           (start lobby
              [Ok (JList [member_event; aliases_event ["#a:x"];
                          aliases_event ["#b:x"]])])
           [] [member_event] [aliases_event ["#b:x"]]
           (aliases_event ["#a:x"])
           [("aliases", JList [JStr "#a:x"])] (JList [JStr "#a:x"])
           eq_refl eq_refl
           (Forall_cons_2 (fun chunk => has_aliases chunk = Ok false)
              member_event [] eq_refl (Forall_nil_2 _))
           eq_refl eq_refl).
Defined.

(** [upload_outcomes] at work: an answer without [content_uri], a
    refused upload, an answer with [content_uri]. *)
Lemma upload_outcomes_witness :
  snd (@upload world [] "image/png" (start fresh [Ok (JDict [])])) =
    Raise (MatrixUnexpectedResponse
      "The upload was successful, but content_uri wasn't found.") ∧
  snd (@upload world [] "image/png"
         (start fresh [Raise (MatrixRequestError 413 "too large")])) =
    Raise (MatrixRequestError 413 "Upload failed: too large") ∧
  snd (@upload world [] "image/png"
         (start fresh [Ok (JDict [("content_uri", JStr "mxc://x/abc")])])) =
    Ok (JStr "mxc://x/abc").
Proof.
  split; [|split].
  - exact (proj1 (@upload_outcomes world [] "image/png"
                    (start fresh [Ok (JDict [])]))
             [] (JDict []) eq_refl eq_refl).
  - exact (proj1 (proj2 (@upload_outcomes world [] "image/png"
                    (start fresh [Raise (MatrixRequestError 413 "too large")])))
             [] 413 "too large" eq_refl).
  - exact (proj2 (proj2 (@upload_outcomes world [] "image/png"
                    (start fresh [Ok (JDict [("content_uri", JStr "mxc://x/abc")])])))
             [] [("content_uri", JStr "mxc://x/abc")] (JStr "mxc://x/abc")
             eq_refl eq_refl).
Defined.

(** * Further properties of the client *)

Section Logic.

Context `{W : World}.

(** ** A program logic over the Python state *)

Lemma hoare_ret {A} (P : pystate → Prop) (E : pystate → Prop) (a : A) :
  hoare P (ret a) (fun _ => P) E.
Proof. intros st H. exact H. Qed.

Lemma hoare_lift {A} (P : pystate → Prop) (r : res A) :
  hoare P (lift r) (fun a p => P p ∧ r = Ok a) P.
Proof. intros st H. unfold lift. by destruct r. Qed.

Lemma hoare_post {A} (P : pystate → Prop) (m : M A)
  (Q Q' : A → pystate → Prop) (E : pystate → Prop) :
  hoare P m Q E → (∀ a p, Q a p → Q' a p) → hoare P m Q' E.
Proof.
  intros Hm HQ st H. specialize (Hm st H).
  destruct (m st) as [st1 [a|e]]; eauto.
Qed.

Lemma hoare_bind {A B} (P : pystate → Prop) (m : M A) (k : A → M B)
  (Q : A → pystate → Prop) (R : B → pystate → Prop) (E : pystate → Prop) :
  hoare P m Q E → (∀ a, hoare (Q a) (k a) R E) → hoare P (bind m k) R E.
Proof.
  intros Hm Hk st HP. rewrite bind_run. specialize (Hm st HP).
  destruct (m st) as [st1 [a|e]]; [|done]. by apply Hk.
Qed.

Lemma hoare_exn {A} (P : pystate → Prop) (m : M A)
  (Q : A → pystate → Prop) (E E' : pystate → Prop) :
  hoare P m Q E → (∀ p, E p → E' p) → hoare P m Q E'.
Proof.
  intros Hm HE st H. specialize (Hm st H).
  destruct (m st) as [st1 [a|e]]; eauto.
Qed.

Lemma hoare_pre {A} (P P' : pystate → Prop) (m : M A)
  (Q : A → pystate → Prop) (E : pystate → Prop) :
  hoare P m Q E → (∀ p, P' p → P p) → hoare P' m Q E.
Proof. intros Hm HP st H. exact (Hm st (HP _ H)). Qed.

Lemma hoare_for_each {A} (I : pystate → Prop) (l : list A)
  (body : A → M unit) :
  (∀ x, hoare I (body x) (fun _ => I) I) →
  hoare I (for_each l body) (fun _ => I) I.
Proof.
  intros Hbody. induction l as [|x l IH]; simpl.
  - apply hoare_ret.
  - eapply hoare_bind; [apply Hbody|]. intros u. exact IH.
Qed.

Lemma hoare_api (I : pystate → Prop) (c : api_call) :
  hoare I (api c) (fun _ => I) I.
Proof. intros st H. rewrite api_run. by destruct (snd _). Qed.

Lemma hoare_invoke (I : pystate → Prop) sc l chunk :
  hoare I (invoke sc l chunk) (fun _ => I) I.
Proof. intros st H. rewrite invoke_run. by destruct (snd _). Qed.

Lemma hoare_get_py (I : pystate → Prop) :
  hoare I get_py (fun p p' => p' = p ∧ I p') I.
Proof. intros st H. by split. Qed.

Lemma hoare_get_end (I : pystate → Prop) :
  hoare I get_end (fun _ => I) I.
Proof. intros st H. rewrite get_end_run. by destruct (end_ _). Qed.

Lemma hoare_get_room (I : pystate → Prop) (a : addr) :
  hoare I (get_room a) (fun r p => I p ∧ heap p !! a = Some r) I.
Proof.
  intros st H. rewrite get_room_run.
  by destruct (heap (py st) !! a) eqn:Hr.
Qed.

Lemma hoare_rooms_getitem (I : pystate → Prop) (rid : json) :
  hoare I (rooms_getitem rid)
    (fun a p => I p ∧ ∃ k, py_hash rid = Ok k ∧ rooms (client p) !! k = Some a) I.
Proof.
  intros st H. destruct (py_hash rid) as [k|e] eqn:Hk.
  - rewrite (rooms_getitem_run _ _ _ Hk).
    destruct (rooms (client (py st)) !! k) eqn:Hr; eauto.
  - unfold rooms_getitem. by rewrite bind_lift, Hk.
Qed.

Lemma hoare_rooms_contains (I : pystate → Prop) (rid : json) :
  hoare I (rooms_contains rid)
    (fun b p => I p ∧ ∃ k, py_hash rid = Ok k ∧
                 b = bool_decide (is_Some (rooms (client p) !! k))) I.
Proof.
  intros st H. rewrite rooms_contains_run.
  destruct (py_hash rid) as [k|e] eqn:Hk; simpl; eauto.
Qed.

(** An update of a room object that an invariant tolerates. *)
Lemma hoare_modify_room (I : pystate → Prop) (a : addr) (f : Room → Room) :
  (∀ p r, I p → heap p !! a = Some r →
          I (with_heap p (<[a:=f r]> (heap p)))) →
  hoare I (modify_room a f) (fun _ => I) I.
Proof.
  intros Hf st H. destruct (heap (py st) !! a) as [r|] eqn:Hr.
  - rewrite (modify_room_run _ _ _ _ Hr). simpl. by apply Hf.
  - by rewrite (modify_room_bad _ _ _ Hr).
Qed.

Lemma hoare_set_end (I : pystate → Prop) (v : json) :
  (∀ p, I p → I (with_end p v)) →
  hoare I (set_end v) (fun _ => I) I.
Proof. intros Hv st H. simpl. by apply Hv. Qed.

Lemma hoare_mkroom (P : pystate → Prop) (Q : pystate → Prop) (rid : json) :
  (∀ p k, P p → py_hash rid = Ok k →
          Q (registered (with_heap p (heap p ++ [Room_init rid])) k
                        (length (heap p)))) →
  (∀ p, P p → Q (with_heap p (heap p ++ [Room_init rid]))) →
  hoare P (_mkroom rid) (fun _ => Q) Q.
Proof.
  intros Hok Hbad st H. destruct (py_hash rid) as [k|e] eqn:Hk.
  - rewrite (mkroom_run _ _ _ Hk). simpl. by apply Hok.
  - rewrite (mkroom_unhashable _ _ _ Hk). simpl. by apply Hbad.
Qed.

(** One chunk of a poll keeps an invariant that tolerates logging the
    chunk in a room and registering a blank room under a free key. *)
Lemma hoare_process_chunk (I : pystate → Prop) (chunk : json) :
  (∀ p a r, I p → heap p !! a = Some r →
            I (with_heap p (<[a:=append_event chunk r]> (heap p)))) →
  (∀ p rid k, I p → py_hash rid = Ok k → rooms (client p) !! k = None →
              I (registered (with_heap p (heap p ++ [Room_init rid])) k
                            (length (heap p)))) →
  hoare I (process_chunk chunk) (fun _ => I) I.
Proof.
  intros Hlog Hnew. unfold process_chunk.
  eapply hoare_bind; [apply hoare_get_py|]. intros p0.
  eapply hoare_bind.
  { eapply hoare_pre; [apply (hoare_for_each I)|].
    - intros l. apply hoare_invoke.
    - by intros p [_ ?]. }
  intros u1.
  eapply hoare_bind; [apply hoare_lift|]. intros [|]; simpl.
  2:{ intros st [HI _]. exact HI. }
  eapply hoare_bind.
  { eapply hoare_pre; [apply (hoare_lift I)|]. by intros p [? _]. }
  intros rid.
  eapply hoare_bind.
  { eapply hoare_exn;
      [apply (hoare_rooms_contains
                (fun p => I p ∧ py_getitem chunk "room_id" = Ok rid))|].
    by intros p [? _]. }
  intros present.
  eapply hoare_bind with (Q := fun _ p => I p).
  { destruct present; simpl.
    - intros st [[HI _] _]. exact HI.
    - eapply hoare_bind.
      { eapply hoare_exn; [apply hoare_lift|]. by intros p [[? _] _]. }
      intros rid'.
      eapply hoare_bind; [|intros a'; apply (hoare_ret I I)].
      intros st ([[HI Hrid] (k & Hk & Hnone)] & Hrid').
      rewrite Hrid in Hrid'. injection Hrid' as <-.
      rewrite (mkroom_run _ _ _ Hk). simpl. apply Hnew; try done.
      symmetry in Hnone. apply bool_decide_eq_false in Hnone.
      destruct (rooms (client (py st)) !! k) eqn:Hr; [|done].
      destruct Hnone. eauto. }
  intros u2.
  eapply hoare_bind.
  { eapply hoare_post; [apply (hoare_lift I)|]. intros v p [H _]. exact H. }
  intros rid1.
  eapply hoare_bind.
  { eapply hoare_post; [apply (hoare_rooms_getitem I)|].
    intros v p [H _]. exact H. }
  intros adr.
  eapply hoare_bind; [apply hoare_modify_room; intros p r; apply Hlog|].
  intros u3.
  eapply hoare_bind.
  { eapply hoare_post; [apply (hoare_lift I)|]. intros v p [H _]. exact H. }
  intros rid2.
  eapply hoare_bind.
  { eapply hoare_post; [apply (hoare_rooms_getitem I)|].
    intros v p [H _]. exact H. }
  intros a2.
  eapply hoare_bind.
  { eapply hoare_post; [apply (hoare_get_room I)|].
    intros v p [H _]. exact H. }
  intros r. apply hoare_for_each. intros l. apply hoare_invoke.
Qed.

Lemma hoare_listen_for_events (I : pystate → Prop) (timeout : Z) :
  (∀ p v, I p → I (with_end p v)) →
  (∀ chunk p a r, I p → heap p !! a = Some r →
     I (with_heap p (<[a:=append_event chunk r]> (heap p)))) →
  (∀ p rid k, I p → py_hash rid = Ok k → rooms (client p) !! k = None →
     I (registered (with_heap p (heap p ++ [Room_init rid])) k
                   (length (heap p)))) →
  hoare I (listen_for_events timeout) (fun _ => I) I.
Proof.
  intros Hend Hlog Hnew. unfold listen_for_events.
  eapply hoare_bind; [apply hoare_get_end|]. intros cur.
  eapply hoare_bind; [apply hoare_api|]. intros response.
  eapply hoare_bind.
  { eapply hoare_post; [apply (hoare_lift I)|]. intros v p [H _]. exact H. }
  intros e.
  eapply hoare_bind; [apply hoare_set_end; intros; by apply Hend|]. intros u4.
  eapply hoare_bind.
  { eapply hoare_post; [apply (hoare_lift I)|]. intros v p [H _]. exact H. }
  intros ch.
  eapply hoare_bind.
  { eapply hoare_post; [apply (hoare_lift I)|]. intros v p [H _]. exact H. }
  intros cl. apply hoare_for_each. intros chunk.
  apply hoare_process_chunk; [apply Hlog|apply Hnew].
Qed.

(** The updates of a room object the client makes keep its identifier. *)
Lemma hoare_process_state_event (I : pystate → Prop) (ev : json)
  (a : addr) :
  (∀ p r f, (∀ r, room_id (f r) = room_id r) → I p → heap p !! a = Some r →
            I (with_heap p (<[a:=f r]> (heap p)))) →
  hoare I (_process_state_event ev a) (fun _ => I) I.
Proof.
  intros Hmod. unfold _process_state_event.
  eapply hoare_bind; [apply hoare_lift|]. intros has.
  destruct (negb has).
  { intros st [H _]. exact H. }
  eapply hoare_bind.
  { eapply hoare_pre; [apply (hoare_lift I)|]. by intros p [? _]. }
  intros etype.
  assert (Hfield : ∀ (k : string) (f : json → Room → Room),
    (∀ v r, room_id (f v r) = room_id r) →
    hoare (fun p => I p ∧ py_getitem ev "type" = Ok etype)
      (bind (lift (py_getitem ev "content"))
         (fun c => bind (lift (py_getitem c k))
            (fun v => modify_room a (f v))))
      (fun _ => I) I).
  { intros k f Hf.
    eapply hoare_bind.
    { eapply hoare_pre; [apply (hoare_lift I)|]. by intros p [? _]. }
    intros c.
    eapply hoare_bind.
    { eapply hoare_pre; [apply (hoare_lift I)|]. by intros p [? _]. }
    intros v.
    eapply hoare_pre; [apply (hoare_modify_room I)|by intros p [? _]].
    intros p r. apply Hmod. apply Hf. }
  destruct (py_eq etype _); [by apply Hfield|].
  destruct (py_eq etype _); [by apply Hfield|].
  destruct (py_eq etype _); [by apply Hfield|].
  intros st [H _]. exact H.
Qed.

(** One room of a bootstrap answer. [R a] is what the invariant knows of
    the room being filled, at address [a]. *)
Lemma hoare_sync_room (I : pystate → Prop) (R : addr → pystate → Prop)
  (room : json) :
  (∀ p rid k, I p → py_hash rid = Ok k →
     let p' := registered (with_heap p (heap p ++ [Room_init rid])) k
                          (length (heap p)) in
     I p' ∧ R (length (heap p)) p') →
  (∀ p rid, I p → I (with_heap p (heap p ++ [Room_init rid]))) →
  (∀ p a r f, (∀ r, room_id (f r) = room_id r) →
     I p → R a p → heap p !! a = Some r →
     let p' := with_heap p (<[a:=f r]> (heap p)) in I p' ∧ R a p') →
  hoare I (sync_room room) (fun _ => I) I.
Proof.
  intros Hmk Hbad Hmod. unfold sync_room.
  eapply hoare_bind; [apply hoare_lift|]. intros rid.
  eapply hoare_bind with
    (Q := fun _ p => I p ∧ py_getitem room "room_id" = Ok rid ∧
            ∃ k a, py_hash rid = Ok k ∧ rooms (client p) !! k = Some a ∧
                   R a p).
  { intros st [HI Hrid]. destruct (py_hash rid) as [k|e] eqn:Hk.
    - rewrite (mkroom_run _ _ _ Hk). simpl.
      destruct (Hmk _ rid k HI Hk) as [HI' HR].
      split; [done|]. split; [done|].
      exists k, (length (heap (py st))). split; [done|].
      split; [apply lookup_insert_eq|done].
    - rewrite (mkroom_unhashable _ _ _ Hk). simpl. by apply Hbad. }
  intros u1.
  eapply hoare_bind.
  { eapply hoare_exn; [apply hoare_lift|]. by intros p [? _]. }
  intros rid'.
  eapply hoare_bind with (Q := fun a p => I p ∧ R a p).
  { intros st ((HI & Hrid & k & a & Hk & Hka & HR) & Hrid').
    rewrite Hrid in Hrid'. injection Hrid' as <-.
    rewrite (rooms_getitem_run _ _ _ Hk), Hka. by split. }
  intros a.
  assert (Hloop : ∀ f, (∀ r, room_id (f r) = room_id r) →
    hoare (fun p => I p ∧ R a p) (modify_room a f)
      (fun _ p => I p ∧ R a p) (fun p => I p ∧ R a p)).
  { intros f Hf. apply hoare_modify_room. intros p r [HI HR] Hr.
    by apply Hmod. }
  apply hoare_exn with (E := fun p => I p ∧ R a p);
    [|intros p [H _]; exact H].
  apply hoare_post with (Q := fun _ p => I p ∧ R a p);
    [|intros v p [H _]; exact H].
  eapply hoare_bind.
  { eapply hoare_post; [apply (hoare_lift (fun p => I p ∧ R a p))|].
    intros v p [H _]. exact H. }
  intros ms.
  eapply hoare_bind.
  { eapply hoare_post; [apply (hoare_lift (fun p => I p ∧ R a p))|].
    intros v p [H _]. exact H. }
  intros ch.
  eapply hoare_bind.
  { eapply hoare_post; [apply (hoare_lift (fun p => I p ∧ R a p))|].
    intros v p [H _]. exact H. }
  intros cl.
  eapply hoare_bind.
  { apply hoare_for_each. intros chunk. by apply Hloop. }
  intros u2.
  eapply hoare_bind.
  { eapply hoare_post; [apply (hoare_lift (fun p => I p ∧ R a p))|].
    intros v p [H _]. exact H. }
  intros ss.
  eapply hoare_bind.
  { eapply hoare_post; [apply (hoare_lift (fun p => I p ∧ R a p))|].
    intros v p [H _]. exact H. }
  intros sl.
  apply hoare_for_each. intros ev.
  apply hoare_process_state_event.
  intros p r f Hf [HI HR] Hr. by apply Hmod.
Qed.

Lemma hoare_try_except_KeyError_pass (P Q : pystate → Prop) (m : M unit) :
  hoare P m (fun _ => Q) Q →
  hoare P (try_except_KeyError_pass m) (fun _ => Q) Q.
Proof.
  intros Hm st H. specialize (Hm st H). unfold try_except_KeyError_pass.
  by destruct (m st) as [st1 [[]|[]]].
Qed.

Lemma hoare_sync (I : pystate → Prop) (R : addr → pystate → Prop)
  (limit : Z) :
  (∀ p v, I p → I (with_end p v)) →
  (∀ p rid k, I p → py_hash rid = Ok k →
     let p' := registered (with_heap p (heap p ++ [Room_init rid])) k
                          (length (heap p)) in
     I p' ∧ R (length (heap p)) p') →
  (∀ p rid, I p → I (with_heap p (heap p ++ [Room_init rid]))) →
  (∀ p a r f, (∀ r, room_id (f r) = room_id r) →
     I p → R a p → heap p !! a = Some r →
     let p' := with_heap p (<[a:=f r]> (heap p)) in I p' ∧ R a p') →
  hoare I (_sync limit) (fun _ => I) I.
Proof.
  intros Hend Hmk Hbad Hmod. unfold _sync.
  eapply hoare_bind; [apply hoare_api|]. intros response.
  apply hoare_try_except_KeyError_pass. unfold sync_body.
  eapply hoare_bind.
  { eapply hoare_post; [apply (hoare_lift I)|]. intros v p [H _]. exact H. }
  intros e.
  eapply hoare_bind; [apply hoare_set_end; intros; by apply Hend|].
  intros u.
  eapply hoare_bind.
  { eapply hoare_post; [apply (hoare_lift I)|]. intros v p [H _]. exact H. }
  intros rs.
  eapply hoare_bind.
  { eapply hoare_post; [apply (hoare_lift I)|]. intros v p [H _]. exact H. }
  intros rl. apply hoare_for_each. intros room.
  by apply (hoare_sync_room I R).
Qed.

(** ** The registry stays sound *)

Lemma hoare_keeps {A} (I : pystate → Prop) (m : M A) (st : state) :
  hoare I m (fun _ => I) I → I (py st) → I (py (fst (m st))).
Proof.
  intros Hm H. specialize (Hm st H). by destruct (m st) as [st1 [a|e]].
Qed.

Lemma hoare_try_except_MatrixRequestError {A} (I : pystate → Prop)
  (m : M A) (h : Z → string → M A) :
  hoare I m (fun _ => I) I →
  (∀ c s, hoare I (h c s) (fun _ => I) I) →
  hoare I (try_except_MatrixRequestError m h) (fun _ => I) I.
Proof.
  intros Hm Hh st H. specialize (Hm st H).
  unfold try_except_MatrixRequestError.
  destruct (m st) as [st1 [a|[]]]; try done. by apply Hh.
Qed.

Lemma hoare_for_return {A B} (I : pystate → Prop) (l : list A)
  (body : A → M (option B)) :
  (∀ x, hoare I (body x) (fun _ => I) I) →
  hoare I (for_return l body) (fun _ => I) I.
Proof.
  intros Hbody. induction l as [|x l IH]; simpl.
  - apply hoare_ret.
  - eapply hoare_bind; [apply Hbody|]. intros [v|]; [apply hoare_ret|exact IH].
Qed.

(** *** The registry leads to rooms that carry their key *)

Lemma registry_sound_with_end p v :
  registry_sound p → registry_sound (with_end p v).
Proof. intros H k a Hk. exact (H k a Hk). Qed.

Lemma registry_sound_modify p a r f :
  (∀ r, room_id (f r) = room_id r) →
  registry_sound p → heap p !! a = Some r →
  registry_sound (with_heap p (<[a:=f r]> (heap p))).
Proof.
  intros Hf H Hr k a' Hk. destruct (H k a' Hk) as (r' & Hr' & Hh). simpl.
  destruct (decide (a' = a)) as [Heq|Hne]; [subst a'|].
  - exists (f r). rewrite list_lookup_insert_eq by (by eapply lookup_lt_Some).
    split; [done|]. rewrite Hf. congruence.
  - exists r'. by rewrite list_lookup_insert_ne.
Qed.

Lemma registry_sound_alloc p rid :
  registry_sound p → registry_sound (with_heap p (heap p ++ [Room_init rid])).
Proof.
  intros H k a Hk. destruct (H k a Hk) as (r & Hr & Hh).
  exists r. split; [|done]. simpl. by apply lookup_app_l_Some.
Qed.

Lemma registry_sound_register p rid k :
  registry_sound p → py_hash rid = Ok k →
  registry_sound (registered (with_heap p (heap p ++ [Room_init rid])) k
                             (length (heap p))).
Proof.
  intros H Hk k' a. simpl.
  destruct (decide (k = k')) as [Heq|Hne]; [subst k'|].
  - rewrite lookup_insert_eq. intros [= <-]. exists (Room_init rid).
    split; [|done]. rewrite lookup_app_r, Nat.sub_diag by lia. done.
  - rewrite lookup_insert_ne by done. intros Hk'.
    destruct (H k' a Hk') as (r & Hr & Hh).
    exists r. split; [|done]. by apply lookup_app_l_Some.
Qed.

Lemma hoare_mkroom_sound (rid : json) :
  hoare registry_sound (_mkroom rid) (fun _ => registry_sound) registry_sound.
Proof.
  apply hoare_mkroom.
  - intros p k H Hk. by apply registry_sound_register.
  - intros p H. by apply registry_sound_alloc.
Qed.

(** X1. Every registered key leads to a room object that carries it, and
    [_sync], [listen_for_events], [join_room], [create_room] and
    [update_aliases] keep it so, whether they return or raise. *)
Theorem registry_sound_kept (st : state) :
  registry_sound (py st) →
  (∀ limit, registry_sound (py (fst (_sync limit st)))) ∧
  (∀ timeout, registry_sound (py (fst (listen_for_events timeout st)))) ∧
  (∀ room_id_or_alias,
     registry_sound (py (fst (join_room room_id_or_alias st)))) ∧
  (∀ alias is_public invitees,
     registry_sound (py (fst (create_room alias is_public invitees st)))) ∧
  (∀ self, registry_sound (py (fst (Room_update_aliases self st)))).
Proof.
  intros H. split_and!.
  - intros limit. apply hoare_keeps; [|done].
    apply (hoare_sync registry_sound (fun _ _ => True)).
    + intros. by apply registry_sound_with_end.
    + intros p rid k Hp Hk. split; [|done]. by apply registry_sound_register.
    + intros. by apply registry_sound_alloc.
    + intros p a r f Hf Hp _ Hr. split; [|done].
      by apply registry_sound_modify.
  - intros timeout. apply hoare_keeps; [|done].
    apply hoare_listen_for_events.
    + intros. by apply registry_sound_with_end.
    + intros chunk p a r Hp Hr. by apply registry_sound_modify.
    + intros p rid k Hp Hk _. by apply registry_sound_register.
  - intros alias. apply hoare_keeps; [|done]. unfold join_room.
    eapply hoare_bind; [apply hoare_api|]. intros response.
    eapply hoare_bind.
    { eapply hoare_post; [apply (hoare_lift registry_sound)|].
      intros v p [Hp _]. exact Hp. }
    intros has.
    eapply hoare_bind with (Q := fun _ => registry_sound).
    { destruct has.
      - eapply hoare_post; [apply (hoare_lift registry_sound)|].
        intros v p [Hp _]. exact Hp.
      - apply hoare_ret. }
    intros rid. apply hoare_mkroom_sound.
  - intros alias is_public invitees. apply hoare_keeps; [|done].
    unfold create_room.
    eapply hoare_bind; [apply hoare_api|]. intros response.
    eapply hoare_bind.
    { eapply hoare_post; [apply (hoare_lift registry_sound)|].
      intros v p [Hp _]. exact Hp. }
    intros rid. apply hoare_mkroom_sound.
  - intros self. apply hoare_keeps; [|done]. unfold Room_update_aliases.
    apply hoare_try_except_MatrixRequestError; [|intros; apply hoare_ret].
    eapply hoare_bind.
    { eapply hoare_post; [apply (hoare_get_room registry_sound)|].
      intros v p [Hp _]. exact Hp. }
    intros r.
    eapply hoare_bind; [apply hoare_api|]. intros response.
    eapply hoare_bind.
    { eapply hoare_post; [apply (hoare_lift registry_sound)|].
      intros v p [Hp _]. exact Hp. }
    intros cl.
    eapply hoare_bind; [|intros out; apply hoare_ret].
    apply hoare_for_return. intros chunk. unfold update_aliases_step.
    eapply hoare_bind.
    { eapply hoare_post; [apply (hoare_lift registry_sound)|].
      intros v p [Hp _]. exact Hp. }
    intros [|]; [|apply hoare_ret].
    eapply hoare_bind.
    { eapply hoare_post; [apply (hoare_lift registry_sound)|].
      intros v p [Hp _]. exact Hp. }
    intros c.
    eapply hoare_bind.
    { eapply hoare_post; [apply (hoare_lift registry_sound)|].
      intros v p [Hp _]. exact Hp. }
    intros al.
    eapply hoare_bind.
    { eapply hoare_post; [apply (hoare_get_room registry_sound)|].
      intros v p [Hp _]. exact Hp. }
    intros r'.
    destruct (negb _); [|apply hoare_ret].
    eapply hoare_bind.
    { eapply hoare_post; [apply (hoare_lift registry_sound)|].
      intros v p [Hp _]. exact Hp. }
    intros c'.
    eapply hoare_bind.
    { eapply hoare_post; [apply (hoare_lift registry_sound)|].
      intros v p [Hp _]. exact Hp. }
    intros al'.
    eapply hoare_bind; [|intros u; apply hoare_ret].
    apply hoare_modify_room. intros p r0 Hp Hr.
    by apply registry_sound_modify.
Qed.

(** *** Growing *)

Lemma room_grows_refl r : room_grows r r.
Proof. by repeat split. Qed.

Lemma grows_refl p : grows p p.
Proof.
  split; [done|]. split; [done|]. intros a r Hr. exists r.
  split; [done|]. apply room_grows_refl.
Qed.

Lemma grows_log p0 p a r chunk :
  grows p0 p → heap p !! a = Some r →
  grows p0 (with_heap p (<[a:=append_event chunk r]> (heap p))).
Proof.
  intros (Hl & Hreg & Hheap) Hr. split; [done|]. split; [done|].
  intros a0 r0 Hr0. destruct (Hheap a0 r0 Hr0) as (r1 & Hr1 & Hg). simpl.
  destruct (decide (a0 = a)) as [Heq|Hne]; [subst a0|].
  - exists (append_event chunk r).
    rewrite list_lookup_insert_eq by (by eapply lookup_lt_Some).
    split; [done|]. assert (r1 = r) as -> by congruence.
    destruct Hg as (? & ? & ? & ? & ? & Hev). repeat split; try done.
    simpl. by apply prefix_app_r.
  - exists r1. by rewrite list_lookup_insert_ne.
Qed.

Lemma grows_register p0 p rid k :
  grows p0 p → rooms (client p) !! k = None →
  grows p0 (registered (with_heap p (heap p ++ [Room_init rid])) k
                       (length (heap p))).
Proof.
  intros (Hl & Hreg & Hheap) Hk. split; [done|]. split.
  - intros k' a Hk'. simpl. rewrite lookup_insert_ne; [by apply Hreg|].
    intros ->. apply Hreg in Hk'. congruence.
  - intros a r Hr. destruct (Hheap a r Hr) as (r1 & Hr1 & Hg).
    exists r1. split; [|done]. simpl. by apply lookup_app_l_Some.
Qed.

(** *** A bootstrap only allocates *)

Lemma prefix_insert_ge {A} (l0 l : list A) (a : nat) (x : A) :
  l0 `prefix_of` l → (length l0 ≤ a)%nat → l0 `prefix_of` <[a:=x]> l.
Proof.
  intros [k ->] Ha.
  rewrite insert_app_r_alt by done. by apply prefix_app_r.
Qed.

(** X3. A bootstrap, however it ends, leaves the room objects that existed
    before it as they were (new objects come after them), keeps the
    global listeners and leaves every registered key registered. *)
Theorem sync_only_allocates (limit : Z) (st : state) :
  let p' := py (fst (_sync limit st)) in
  heap (py st) `prefix_of` heap p' ∧
  listeners (client p') = listeners (client (py st)) ∧
  ∀ k, is_Some (rooms (client (py st)) !! k) →
       is_Some (rooms (client p') !! k).
Proof.
  apply (hoare_keeps (fun p =>
    heap (py st) `prefix_of` heap p ∧
    listeners (client p) = listeners (client (py st)) ∧
    ∀ k, is_Some (rooms (client (py st)) !! k) →
         is_Some (rooms (client p) !! k))); [|done].
  apply (hoare_sync _ (fun a _ => length (heap (py st)) ≤ a)%nat).
  - intros p v Hp. exact Hp.
  - intros p rid k (Hh & Hl & Hr) Hk. simpl. split_and!.
    + by apply prefix_app_r.
    + done.
    + intros k' Hk'. destruct (decide (k' = k)) as [->|Hne].
      * rewrite lookup_insert_eq. by eexists.
      * rewrite lookup_insert_ne by done. by apply Hr.
    + by apply prefix_length.
  - intros p rid (Hh & Hl & Hr). simpl. split_and!; try done.
    by apply prefix_app_r.
  - intros p a r f Hf (Hh & Hl & Hr) Ha Hlook. simpl. split_and!; try done.
    by apply prefix_insert_ge.
Qed.

(** *** The calls of a room *)

Lemma spec_delivery_for_room p chunks a l chunk :
  In (RoomScope a, l, chunk) (spec_delivery p chunks) →
  room_of p chunk = Some a ∧
  ∃ r, heap p !! a = Some r ∧ In l (r_listeners r).
Proof.
  unfold spec_delivery. rewrite in_flat_map.
  intros (c & _ & Hin).
  unfold spec_chunk_delivery in Hin.
  apply in_app_or in Hin as [Hin|Hin].
  - apply in_map_iff in Hin as (? & [=] & _).
  - destruct (py_getitem c "room_id") as [rid|] eqn:Hrid; [|done].
    apply in_map_iff in Hin as ([sc l'] & Heq & Hin).
    simpl in Heq. injection Heq as -> -> ->.
    unfold room_listeners_at in Hin. unfold room_of. rewrite Hrid.
    destruct (py_hash rid) as [k|] eqn:Hk; [|done].
    destruct (rooms (client p) !! k) as [a'|] eqn:Hka; [|done].
    destruct (heap p !! a') as [r|] eqn:Hr; [|done].
    apply in_map_iff in Hin as (l0 & Heq & Hin).
    injection Heq as -> ->.
    split; [done|by exists r].
Qed.

(** ** A listener more *)

Lemma room_listeners_at_added (p : pystate) (self : addr) (r : Room)
  (cb : lid) (rid : json) :
  heap p !! self = Some r →
  room_listeners_at
    (with_heap p (<[self:=append_listener cb r]> (heap p))) rid =
  room_listeners_at p rid ++
  match py_hash rid with
  | Ok k => if bool_decide (rooms (client p) !! k = Some self)
            then [(RoomScope self, cb)] else []
  | Raise _ => []
  end.
Proof.
  intros Hr. unfold room_listeners_at; simpl.
  destruct (py_hash rid) as [k|]; [|done].
  destruct (rooms (client p) !! k) as [a'|] eqn:Hk; [|done].
  destruct (decide (a' = self)) as [Heq|Hne]; [subst a'|].
  - rewrite list_lookup_insert_eq by (by eapply lookup_lt_Some).
    rewrite Hr, bool_decide_eq_true_2 by done. simpl. by rewrite map_app.
  - rewrite list_lookup_insert_ne by done.
    rewrite bool_decide_eq_false_2 by congruence. by rewrite app_nil_r.
Qed.

(** ** Joining and creating rooms *)

(** X7. When the homeserver answers [join_room] with a record, the new room
    is registered under the [room_id] of the answer if it has one, and
    under the argument itself otherwise. *)
Theorem join_room_falls_back_to_argument (room_id_or_alias : string)
  (st : state) (e' : Env) (d : list (string * json)) (k : key) :
  let call := ApiJoinRoom room_id_or_alias in
  let rid := default (JStr room_id_or_alias) (assoc "room_id" d) in
  transport call (env st) = (e', Ok (JDict d)) →
  py_hash rid = Ok k →
  join_room room_id_or_alias st =
    (with_py (after_call st call e')
       (registered (with_heap (py st) (heap (py st) ++ [Room_init rid]))
                   k (length (heap (py st)))),
     Ok (length (heap (py st)))).
Proof.
  intros call rid Ht Hk. unfold join_room.
  rewrite bind_run, api_run. fold call. rewrite Ht. simpl.
  rewrite bind_lift. simpl. subst rid.
  destruct (assoc "room_id" d) as [v|] eqn:Hd; simpl in *.
  - rewrite bind_lift. by rewrite (mkroom_run _ _ _ Hk).
  - rewrite bind_run. simpl.
    by rewrite (mkroom_run (JStr room_id_or_alias) k _ Hk).
Qed.

(** X8. [create_room] has no such fallback: when [room_id] cannot be read
    from the answer it raises ([KeyError] for a record without the key)
    with nothing registered, and an exception of the transport
    propagates as it is. *)
Theorem create_room_requires_room_id (alias : option string)
  (is_public : bool) (invitees : list string) (st : state) :
  let call := ApiCreateRoom alias is_public invitees in
  (∀ e' resp e,
     transport call (env st) = (e', Ok resp) →
     py_getitem resp "room_id" = Raise e →
     create_room alias is_public invitees st =
       (after_call st call e', Raise e)) ∧
  (∀ e' d, transport call (env st) = (e', Ok (JDict d)) →
     assoc "room_id" d = None →
     snd (create_room alias is_public invitees st) = Raise KeyError) ∧
  (∀ e' e, transport call (env st) = (e', Raise e) →
     create_room alias is_public invitees st =
       (after_call st call e', Raise e)).
Proof.
  intros call.
  assert (Hfirst : ∀ e' resp e,
     transport call (env st) = (e', Ok resp) →
     py_getitem resp "room_id" = Raise e →
     create_room alias is_public invitees st =
       (after_call st call e', Raise e)).
  { intros e' resp e Ht Hr. unfold create_room.
    rewrite bind_run, api_run. fold call. rewrite Ht. simpl.
    by rewrite bind_lift, Hr. }
  split; [exact Hfirst|]. split.
  - intros e' d Ht Hd.
    rewrite (Hfirst e' (JDict d) KeyError Ht); [done|].
    simpl. by rewrite Hd.
  - intros e' e Ht. unfold create_room.
    rewrite bind_run, api_run. fold call. by rewrite Ht.
Qed.

(** ** Construction and the first poll *)

Lemma init_run (token : option string) (st : state) :
  MatrixClient__init__ token st =
    let st0 := with_py st (with_client (py st) MatrixClient_init) in
    if truthy token then _sync 1 st0 else (st0, Ok tt).
Proof.
  unfold MatrixClient__init__, bind, get_py, set_py. simpl.
  by destruct (truthy token).
Qed.

Lemma sync_without_end (limit : Z) (st : state) (e' : Env)
  (d : list (string * json)) :
  transport (ApiInitialSync limit) (env st) = (e', Ok (JDict d)) →
  assoc "end" d = None →
  _sync limit st = (after_call st (ApiInitialSync limit) e', Ok tt).
Proof.
  intros Ht Hd. rewrite (sync_run _ _ _ _ Ht).
  unfold try_except_KeyError_pass, sync_body.
  rewrite bind_lift. cbn [py_getitem]. by rewrite Hd.
Qed.

(** X9. [__init__] does not assign [self.end]: for a client built without a
    token, or built with one when the bootstrap answer is a record
    without [end], [__init__] returns and the first poll raises
    [AttributeError] before any request, leaving the state as it was. *)
Theorem poll_needs_bootstrap_cursor (token : option string) (timeout : Z)
  (st : state) :
  truthy token = false ∨
  (∃ e' d, transport (ApiInitialSync 1) (env st) = (e', Ok (JDict d)) ∧
           assoc "end" d = None) →
  let st1 := fst (MatrixClient__init__ token st) in
  snd (MatrixClient__init__ token st) = Ok tt ∧
  py st1 = with_client (py st) MatrixClient_init ∧
  listen_for_events timeout st1 = (st1, Raise AttributeError).
Proof.
  intros H st1.
  assert (Hrun : snd (MatrixClient__init__ token st) = Ok tt ∧
                 py st1 = with_client (py st) MatrixClient_init).
  { subst st1. rewrite init_run. simpl.
    destruct (truthy token) eqn:Htok; [|done].
    destruct H as [H|(e' & d & Ht & Hd)]; [done|].
    by rewrite (sync_without_end _ _ e' d). }
  destruct Hrun as [Hout Hpy]. split; [done|]. split; [done|].
  unfold listen_for_events. rewrite bind_run, get_end_run. by rewrite Hpy.
Qed.

(** ** Refreshing the aliases *)

(** X10. [update_aliases] yields [None] when no chunk of the state answer
    carries aliases, yields [False] on a request error and lets any other
    exception of the transport through; the cache is unchanged in all
    three cases. *)
Theorem update_aliases_without_alias_chunk (self : addr) (r : Room)
  (st : state) :
  heap (py st) !! self = Some r →
  let call := ApiGetRoomState (room_id r) in
  (∀ e' chunks, transport call (env st) = (e', Ok (JList chunks)) →
     Forall (fun chunk => has_aliases chunk = Ok false) chunks →
     Room_update_aliases self st = (after_call st call e', Ok JNull)) ∧
  (∀ e' code msg,
     transport call (env st) = (e', Raise (MatrixRequestError code msg)) →
     Room_update_aliases self st = (after_call st call e', Ok (JBool false))) ∧
  (∀ e' e, transport call (env st) = (e', Raise e) →
     (∀ code msg, e ≠ MatrixRequestError code msg) →
     Room_update_aliases self st = (after_call st call e', Raise e)).
Proof.
  intros Hself call. split_and!.
  - intros e' chunks Ht Hno.
    unfold Room_update_aliases, try_except_MatrixRequestError.
    rewrite bind_run, get_room_run, Hself.
    rewrite bind_run, api_run. fold call. rewrite Ht. simpl.
    rewrite bind_lift. cbn [py_iter]. rewrite bind_run.
    rewrite <- (app_nil_r chunks), for_return_skip.
    + done.
    + eapply Forall_impl; [exact Hno|].
      intros c Hc. by apply update_aliases_step_skip.
  - intros e' code msg Ht.
    unfold Room_update_aliases, try_except_MatrixRequestError.
    rewrite bind_run, get_room_run, Hself.
    rewrite bind_run, api_run. fold call. by rewrite Ht.
  - intros e' e Ht Hne.
    unfold Room_update_aliases, try_except_MatrixRequestError.
    rewrite bind_run, get_room_run, Hself.
    rewrite bind_run, api_run. fold call. rewrite Ht. simpl.
    destruct e; try done. by destruct (Hne code content).
Qed.

Lemma update_aliases_step_hit (self : addr) (chunk c al : json)
  (r : Room) (st : state) :
  has_aliases chunk = Ok true →
  py_getitem chunk "content" = Ok c →
  py_getitem c "aliases" = Ok al →
  heap (py st) !! self = Some r →
  update_aliases_step self chunk st =
    if py_eq al (aliases r) then (st, Ok (Some false))
    else (with_py st (with_heap (py st)
            (<[self:=set_aliases al r]> (heap (py st)))),
          Ok (Some true)).
Proof.
  intros Hhas Hc Hal Hself. unfold update_aliases_step.
  rewrite bind_lift, Hhas, bind_lift, Hc, bind_lift, Hal.
  rewrite bind_run, get_room_run, Hself.
  destruct (py_eq al (aliases r)); simpl; [done|].
  rewrite bind_lift. cbv beta iota. rewrite bind_lift, Hal.
  rewrite bind_run.
  by erewrite modify_room_run by exact Hself.
Qed.

Lemma update_aliases_loop (self : addr) (cl : list json) (st st' : state)
  (b : bool) :
  for_return cl (update_aliases_step self) st = (st', Ok (Some b)) →
  ∃ chunk c al r,
    heap (py st) !! self = Some r ∧
    py_getitem chunk "content" = Ok c ∧ py_getitem c "aliases" = Ok al ∧
    In chunk cl ∧
    b = negb (py_eq al (aliases r)) ∧
    st' = (if b
           then with_py st (with_heap (py st)
                  (<[self:=set_aliases al r]> (heap (py st))))
           else st) ∧
    ∀ st1 r1, heap (py st1) !! self = Some r1 →
      for_return cl (update_aliases_step self) st1 =
        if py_eq al (aliases r1) then (st1, Ok (Some false))
        else (with_py st1 (with_heap (py st1)
                (<[self:=set_aliases al r1]> (heap (py st1)))),
              Ok (Some true)).
Proof.
  induction cl as [|chunk cl IH]; simpl; [discriminate|].
  rewrite bind_run.
  destruct (has_aliases chunk) as [[]|e] eqn:Hhas.
  - destruct (py_getitem chunk "content") as [c|e] eqn:Hc.
    2:{ unfold update_aliases_step.
        rewrite bind_lift, Hhas, bind_lift, Hc. discriminate. }
    destruct (py_getitem c "aliases") as [al|e] eqn:Hal.
    2:{ unfold update_aliases_step.
        rewrite bind_lift, Hhas, bind_lift, Hc, bind_lift, Hal.
        discriminate. }
    destruct (heap (py st) !! self) as [r|] eqn:Hself.
    + rewrite (update_aliases_step_hit _ _ _ _ _ _ Hhas Hc Hal Hself).
      intros H. exists chunk, c, al, r. split; [done|].
      split; [done|]. split; [done|]. split; [by left|].
      destruct (py_eq al (aliases r)); simpl in H;
        injection H as <- <-; (split; [done|]); (split; [done|]);
        intros st1 r1 H1; rewrite bind_run;
        rewrite (update_aliases_step_hit _ _ _ _ _ _ Hhas Hc Hal H1);
        by destruct (py_eq al (aliases r1)).
    + unfold update_aliases_step.
      rewrite bind_lift, Hhas, bind_lift, Hc, bind_lift, Hal.
      rewrite bind_run, get_room_run, Hself. discriminate.
  - rewrite (update_aliases_step_skip _ _ _ Hhas). intros H.
    destruct (IH H) as (ch & c & al & r & Hself & Hc & Hal & Hin & Hb
                        & Hst & Hagain).
    exists ch, c, al, r. split_and!; try done; [by right|].
    intros st1 r1 H1. rewrite bind_run.
    rewrite (update_aliases_step_skip _ _ _ Hhas). by apply Hagain.
  - unfold update_aliases_step. rewrite bind_lift, Hhas. discriminate.
Qed.

Lemma py_getitem_raises (x : json) (k : string) (e : exn) :
  py_getitem x k = Raise e → e = KeyError ∨ e = TypeError.
Proof.
  destruct x as [| | | | |d]; simpl; try (intros [= <-]; by right).
  destruct (assoc k d); [discriminate|]. intros [= <-]. by left.
Qed.

Lemma py_in_raises (k : string) (x : json) (e : exn) :
  py_in k x = Raise e → e = TypeError.
Proof. destruct x; simpl; try discriminate; by intros [= <-]. Qed.

Lemma py_iter_raises (x : json) (e : exn) :
  py_iter x = Raise e → e = TypeError.
Proof. destruct x; simpl; try discriminate; by intros [= <-]. Qed.

(** The loop of [update_aliases] raises no request error of its own. *)
Lemma update_aliases_loop_raises (self : addr) (cl : list json)
  (st st' : state) (e : exn) :
  for_return cl (update_aliases_step self) st = (st', Raise e) →
  e = KeyError ∨ e = TypeError ∨ e = BadAddress.
Proof.
  induction cl as [|chunk cl IH]; simpl; [discriminate|].
  rewrite bind_run.
  destruct (has_aliases chunk) as [[]|e0] eqn:Hhas.
  - unfold update_aliases_step. rewrite bind_lift, Hhas, bind_lift.
    destruct (py_getitem chunk "content") as [c|e1] eqn:Hc.
    2:{ intros [= _ <-]. destruct (py_getitem_raises _ _ _ Hc); auto. }
    rewrite bind_lift.
    destruct (py_getitem c "aliases") as [al|e1] eqn:Hal.
    2:{ intros [= _ <-]. destruct (py_getitem_raises _ _ _ Hal); auto. }
    rewrite bind_run, get_room_run.
    destruct (heap (py st) !! self) as [r|] eqn:Hself;
      [|intros [= _ <-]; auto].
    destruct (py_eq al (aliases r)); simpl; [discriminate|].
    rewrite bind_lift. cbv beta iota. rewrite bind_lift, Hal.
    rewrite bind_run.
    erewrite modify_room_run by exact Hself. discriminate.
  - rewrite (update_aliases_step_skip _ _ _ Hhas). apply IH.
  - unfold update_aliases_step. rewrite bind_lift, Hhas.
    intros [= _ <-]. unfold has_aliases in Hhas.
    destruct (py_in "content" chunk) as [[]|e1] eqn:Hin; simpl in Hhas.
    + destruct (py_getitem chunk "content") as [c|e1] eqn:Hc;
        simpl in Hhas.
      * apply py_in_raises in Hhas. auto.
      * injection Hhas as <-.
        destruct (py_getitem_raises _ _ _ Hc); auto.
    + discriminate.
    + injection Hhas as <-. apply py_in_raises in Hin. auto.
Qed.

(** X11. When [update_aliases] has yielded a boolean and the homeserver gives
    the same state answer again, whose alias lists are equal to
    themselves under [==], a second [update_aliases] yields [False] and
    changes nothing. *)
Theorem update_aliases_settles (self : addr) (r : Room) (st : state)
  (e1 e2 : Env) (resp : json) (b : bool) :
  let call := ApiGetRoomState (room_id r) in
  heap (py st) !! self = Some r →
  (∀ cl chunk c al,
     py_iter resp = Ok cl → In chunk cl →
     py_getitem chunk "content" = Ok c → py_getitem c "aliases" = Ok al →
     py_eq al al = true) →
  transport call (env st) = (e1, Ok resp) →
  transport call e1 = (e2, Ok resp) →
  snd (Room_update_aliases self st) = Ok (JBool b) →
  let st1 := fst (Room_update_aliases self st) in
  Room_update_aliases self st1 = (after_call st1 call e2, Ok (JBool false)).
Proof.
  intros call Hself Hrefl Ht1 Ht2 Hb st1.
  assert (Hrun : ∃ cl al r1,
    py_iter resp = Ok cl ∧
    env st1 = e1 ∧ heap (py st1) !! self = Some r1 ∧
    room_id r1 = room_id r ∧ py_eq al (aliases r1) = true ∧
    ∀ st2 r2, heap (py st2) !! self = Some r2 →
      for_return cl (update_aliases_step self) st2 =
        if py_eq al (aliases r2) then (st2, Ok (Some false))
        else (with_py st2 (with_heap (py st2)
                (<[self:=set_aliases al r2]> (heap (py st2)))),
              Ok (Some true))).
  { subst st1. revert Hb.
    unfold Room_update_aliases, try_except_MatrixRequestError.
    rewrite bind_run, get_room_run, Hself.
    rewrite bind_run, api_run. fold call. rewrite Ht1. simpl.
    rewrite bind_lift.
    destruct (py_iter resp) as [cl|e] eqn:Hcl.
    2:{ by rewrite (py_iter_raises _ _ Hcl). }
    rewrite bind_run.
    destruct (for_return cl (update_aliases_step self)
                (after_call st call e1)) as [st' [[b'|]|e]] eqn:Hloop;
      simpl; [|discriminate|].
    2:{ by destruct (update_aliases_loop_raises _ _ _ _ _ Hloop)
          as [->|[->| ->]]. }
    intros [= ->].
    destruct (update_aliases_loop _ _ _ _ _ Hloop)
      as (chunk & c & al & r0 & Hself0 & Hc & Hal & Hin & Hb & Hst & Hagain).
    simpl in Hself0. rewrite Hself in Hself0. injection Hself0 as <-.
    exists cl, al.
    destruct (py_eq al (aliases r)) eqn:Heq; simpl in Hb; subst b st'.
    - exists r. by split_and!.
    - exists (set_aliases al r). simpl. split_and!; try done.
      + apply list_lookup_insert_eq. by eapply lookup_lt_Some.
      + by apply (Hrefl cl chunk c al). }
  destruct Hrun as (cl & al & r1 & Hcl & Henv & Hself1 & Hrid & Heq
                    & Hagain).
  unfold Room_update_aliases, try_except_MatrixRequestError.
  rewrite bind_run, get_room_run, Hself1.
  rewrite bind_run, api_run. rewrite Hrid. fold call. rewrite Henv, Ht2.
  simpl. rewrite bind_lift, Hcl. rewrite bind_run.
  rewrite (Hagain _ r1) by done. by rewrite Heq.
Qed.

(** ** State events: the last one wins *)

(** A state event that is not of the type of an attribute leaves the
    attribute as it is, whatever else it does. *)
Lemma process_state_event_keeps (f : attribute) (ev : json) (a : addr)
  (r : Room) (st : state) :
  typed (event_type f) ev = false →
  heap (py st) !! a = Some r →
  ∃ r', heap (py (fst (_process_state_event ev a st))) !! a = Some r' ∧
        cached f r' = cached f r.
Proof.
  intros Hty Hr. unfold _process_state_event.
  rewrite bind_lift.
  destruct (py_in "type" ev) as [[]|e]; simpl; [|by eauto|by eauto].
  rewrite bind_lift. unfold typed in Hty.
  destruct (py_getitem ev "type") as [etype|e]; simpl; [|by eauto].
  assert (Hfield : ∀ (g : attribute) (set : json → Room → Room),
    (∀ v r0, cached f (set v r0) = cached f r0) →
    ∃ r', heap (py (fst
            (bind (lift (py_getitem ev "content"))
               (fun c => bind (lift (py_getitem c (content_key g)))
                  (fun v => modify_room a (set v))) st))) !! a = Some r' ∧
          cached f r' = cached f r).
  { intros g set Hset. rewrite bind_lift.
    destruct (py_getitem ev "content") as [c|e]; simpl; [|by eauto].
    rewrite bind_lift.
    destruct (py_getitem c (content_key g)) as [v|e]; simpl; [|by eauto].
    rewrite (modify_room_run _ _ _ _ Hr). simpl.
    exists (set v r). split; [|by apply Hset].
    apply list_lookup_insert_eq. by eapply lookup_lt_Some. }
  destruct (py_eq etype (JStr "m.room.name")) eqn:Hn.
  { apply (Hfield Name set_name). intros v r0.
    destruct f; try done. simpl in Hty. congruence. }
  destruct (py_eq etype (JStr "m.room.topic")) eqn:Ht.
  { apply (Hfield Topic set_topic). intros v r0.
    destruct f; try done. simpl in Hty. congruence. }
  destruct (py_eq etype (JStr "m.room.aliases")) eqn:Ha.
  { apply (Hfield Aliases set_aliases). intros v r0.
    destruct f; try done. simpl in Hty. congruence. }
  simpl. by eauto.
Qed.

(** A state event of the type of an attribute that carries a value
    assigns it. *)
Lemma process_state_event_assigns (f : attribute) (ev c v : json)
  (a : addr) (r : Room) (st : state) :
  py_getitem ev "type" = Ok (JStr (event_type f)) →
  py_getitem ev "content" = Ok c →
  py_getitem c (content_key f) = Ok v →
  heap (py st) !! a = Some r →
  ∃ r', heap (py (fst (_process_state_event ev a st))) !! a = Some r' ∧
        cached f r' = v ∧
        snd (_process_state_event ev a st) = Ok tt.
Proof.
  intros Hty Hc Hv Hr. unfold _process_state_event.
  rewrite bind_lift, (py_getitem_in _ _ _ Hty). simpl.
  rewrite bind_lift, Hty.
  destruct f; simpl in *;
    rewrite bind_lift, Hc, bind_lift, Hv;
    rewrite (modify_room_run _ _ _ _ Hr); simpl;
    eexists; (split; [apply list_lookup_insert_eq; by eapply lookup_lt_Some|]);
    done.
Qed.

Lemma state_events_keep (f : attribute) (a : addr) (post : list json) :
  Forall (fun ev => typed (event_type f) ev = false) post →
  ∀ (st : state) (r : Room),
    heap (py st) !! a = Some r →
    ∃ r', heap (py (fst (for_each post
                 (fun ev => _process_state_event ev a) st))) !! a = Some r' ∧
          cached f r' = cached f r.
Proof.
  induction 1 as [|ev post Hev _ IH]; intros st r Hr; simpl; [by eauto|].
  rewrite bind_run.
  destruct (process_state_event_keeps f ev a r st Hev Hr)
    as (r1 & Hr1 & Hc1).
  destruct (_process_state_event ev a st) as [st1 [[]|e]]; simpl in *.
  - destruct (IH st1 r1 Hr1) as (r2 & Hr2 & Hc2).
    exists r2. split; [done|]. by rewrite Hc2.
  - by eauto.
Qed.

(** X12. When a list of state events has been processed for a room, the
    cached name (topic, aliases) is the value of the last event of its
    type in the list: later events of other types, or without type, do
    not touch it. *)
Theorem state_events_last_write_wins (f : attribute) (a : addr) (r : Room)
  (pre post : list json) (ev c v : json) (st : state) :
  let run := for_each (pre ++ ev :: post)
               (fun ev => _process_state_event ev a) st in
  heap (py st) !! a = Some r →
  snd run = Ok tt →
  py_getitem ev "type" = Ok (JStr (event_type f)) →
  py_getitem ev "content" = Ok c →
  py_getitem c (content_key f) = Ok v →
  Forall (fun ev' => typed (event_type f) ev' = false) post →
  ∃ r', heap (py (fst run)) !! a = Some r' ∧ cached f r' = v.
Proof.
  intros run Hr Hret Hty Hc Hv Hpost. subst run. revert Hret.
  rewrite for_each_app.
  assert (Hpre : ∃ r1, heap (py (fst (for_each pre
                    (fun ev => _process_state_event ev a) st))) !! a
                       = Some r1).
  { apply (hoare_keeps (fun p => is_Some (heap p !! a))); [|by eauto].
    apply hoare_for_each. intros x. apply hoare_process_state_event.
    intros p r0 g _ _ Hr0. simpl.
    rewrite list_lookup_insert_eq by (by eapply lookup_lt_Some). by eauto. }
  destruct Hpre as [r1 Hr1].
  destruct (for_each pre _ st) as [st1 [[]|e]]; simpl in *; [|discriminate].
  rewrite bind_run.
  destruct (process_state_event_assigns f ev c v a r1 st1 Hty Hc Hv Hr1)
    as (r2 & Hr2 & Hc2 & Hout).
  destruct (_process_state_event ev a st1) as [st2 [[]|e]]; simpl in *;
    [|discriminate].
  intros _.
  destruct (state_events_keep f a post Hpost st2 r2 Hr2) as (r3 & Hr3 & Hc3).
  exists r3. split; [done|]. by rewrite Hc3.
Qed.

(** ** Requests and callbacks of a bootstrap *)

Lemma offline_ret {A} (a : A) : offline (ret a).
Proof. by intros st. Qed.

Lemma offline_raise {A} (e : exn) : offline (@raise _ A e).
Proof. by intros st. Qed.

Lemma offline_lift {A} (r : res A) : offline (lift r).
Proof. by intros st. Qed.

Lemma offline_get_py : offline get_py.
Proof. by intros st. Qed.

Lemma offline_set_py (p : pystate) : offline (set_py p).
Proof. by intros st. Qed.

Lemma offline_bind {A B} (m : M A) (k : A → M B) :
  offline m → (∀ a, offline (k a)) → offline (bind m k).
Proof.
  intros Hm Hk st. rewrite bind_run. specialize (Hm st).
  destruct (m st) as [st1 [a|e]]; simpl in *; [|done].
  destruct (Hk a st1) as (-> & -> & ->). done.
Qed.

Lemma offline_for_each {A} (l : list A) (body : A → M unit) :
  (∀ x, offline (body x)) → offline (for_each l body).
Proof.
  intros Hbody. induction l as [|x l IH]; simpl.
  - apply offline_ret.
  - apply offline_bind; [apply Hbody|]. intros u. exact IH.
Qed.

Lemma offline_try_except_KeyError_pass (m : M unit) :
  offline m → offline (try_except_KeyError_pass m).
Proof.
  intros Hm st. specialize (Hm st). unfold try_except_KeyError_pass.
  by destruct (m st) as [st1 [[]|[]]].
Qed.

Ltac offline_step :=
  first
    [ apply offline_ret | apply offline_raise | apply offline_lift
    | apply offline_get_py | apply offline_set_py
    | apply offline_for_each; intros ?
    | apply offline_bind; [|intros ?]
    | match goal with
      | |- offline (if ?b then _ else _) => destruct b
      | |- offline (match ?x with _ => _ end) => destruct x
      end ].

Lemma offline_modify_room (a : addr) (f : Room → Room) :
  offline (modify_room a f).
Proof. unfold modify_room, get_room, set_heap. repeat offline_step. Qed.

Lemma offline_mkroom (rid : json) : offline (_mkroom rid).
Proof.
  unfold _mkroom, new_Room, rooms_setitem, rooms_getitem, set_heap.
  repeat offline_step.
Qed.

Lemma offline_process_state_event (ev : json) (a : addr) :
  offline (_process_state_event ev a).
Proof.
  unfold _process_state_event.
  repeat first [apply offline_modify_room | offline_step].
Qed.

Lemma offline_sync_body (response : json) : offline (sync_body response).
Proof.
  unfold sync_body, sync_room, set_end, rooms_getitem.
  repeat first [apply offline_modify_room | apply offline_mkroom
               | apply offline_process_state_event | offline_step].
Qed.

Lemma bootstrap_log (limit : Z) (st : state) :
  api_log (fst (_sync limit st)) = api_log st ++ [ApiInitialSync limit].
Proof.
  unfold _sync. rewrite bind_run, api_run.
  destruct (snd (transport (ApiInitialSync limit) (env st)))
    as [response|e]; [|done].
  destruct (offline_try_except_KeyError_pass _
              (offline_sync_body response)
              (after_call st (ApiInitialSync limit)
                 (fst (transport (ApiInitialSync limit) (env st)))))
    as (_ & -> & _).
  done.
Qed.

(** A poll that finds a cursor sends one request, whatever happens
    next. *)
Lemma poll_log (timeout : Z) (st : state) (cur : json) :
  end_ (client (py st)) = Some cur →
  api_log (fst (listen_for_events timeout st)) =
    api_log st ++ [ApiEventStream cur timeout].
Proof.
  intros Hcur. unfold listen_for_events.
  rewrite bind_run, get_end_run, Hcur.
  rewrite bind_run, api_run.
  destruct (snd (transport _ _)) as [resp|e]; [|done].
  rewrite bind_lift.
  destruct (py_getitem resp "end") as [tok|e]; [|done].
  rewrite bind_run. unfold set_end at 1.
  rewrite (bind_Ok get_py _ _ _ _ eq_refl). unfold set_py at 1.
  rewrite bind_lift.
  destruct (py_getitem resp "chunk") as [ch|e]; [|done].
  rewrite bind_lift. destruct (py_iter ch) as [cl|e]; [|done].
  destruct (for_each cl process_chunk _) as [st2 out] eqn:Hfe.
  destruct (for_each_chunks_post _ _ _ _ Hfe) as [new P].
  destruct P as [Htrace Hlog Hls Hend_ Hrl Hprefix Hcomplete Hse Hsl
                 Hraised].
    simpl in *. by rewrite Hlog.
Qed.

(** X13. A bootstrap, however it ends, sends one request, [initial_sync]
    with its limit, and calls no callback. *)
Theorem bootstrap_sends_one_request (limit : Z) (st : state) :
  let st' := fst (_sync limit st) in
  api_log st' = api_log st ++ [ApiInitialSync limit] ∧
  trace st' = trace st ∧
  env st' = fst (transport (ApiInitialSync limit) (env st)).
Proof.
  unfold _sync. rewrite bind_run, api_run.
  destruct (snd (transport (ApiInitialSync limit) (env st)))
    as [response|e]; [|done].
  destruct (offline_try_except_KeyError_pass _
              (offline_sync_body response)
              (after_call st (ApiInitialSync limit)
                 (fst (transport (ApiInitialSync limit) (env st)))))
    as (-> & -> & ->).
  done.
Qed.

Lemma sync_sets_cursor (limit : Z) (st : state) (e' : Env)
  (d : list (string * json)) (tok : json) :
  transport (ApiInitialSync limit) (env st) = (e', Ok (JDict d)) →
  assoc "end" d = Some tok →
  end_ (client (py (fst (_sync limit st)))) = Some tok.
Proof.
  intros Ht Hd. rewrite (sync_run _ _ _ _ Ht).
  unfold try_except_KeyError_pass, sync_body.
  rewrite bind_lift. cbn [py_getitem]. rewrite Hd.
  rewrite bind_run. unfold set_end at 1.
  rewrite (bind_Ok get_py _ _ _ _ eq_refl). unfold set_py at 1.
  set (st1 := with_py _ _).
  assert (Hst1 : end_ (client (py st1)) = Some tok) by done.
  clearbody st1.
  assert (Hloop : hoare (fun p => end_ (client p) = Some tok)
            (bind (lift (py_getitem (JDict d) "rooms")) (fun rs =>
               bind (lift (py_iter rs)) (fun rl =>
                 for_each rl sync_room)))
            (fun _ p => end_ (client p) = Some tok)
            (fun p => end_ (client p) = Some tok)).
  { eapply hoare_bind.
    { eapply hoare_post; [apply hoare_lift|]. intros v p [Hp _]. exact Hp. }
    intros rs. eapply hoare_bind.
    { eapply hoare_post; [apply hoare_lift|]. intros v p [Hp _]. exact Hp. }
    intros rl. apply hoare_for_each. intros room.
    apply (hoare_sync_room _ (fun _ _ => True)).
    - intros p rid k Hp Hk. by split.
    - intros p rid Hp. exact Hp.
    - intros p a r f Hf Hp _ Hr. by split. }
  specialize (Hloop st1 Hst1).
  destruct (bind _ _ st1) as [st2 [[]|[]]]; done.
Qed.

(** X14. A client built with a token, whose bootstrap answer is a record
    with [end], has its cursor at that token, and its first poll sends
    one request: the event stream from that token. *)
Theorem poll_resumes_from_bootstrap_cursor (token : option string)
  (timeout : Z) (st : state) (e' : Env) (d : list (string * json))
  (tok : json) :
  truthy token = true →
  transport (ApiInitialSync 1) (env st) = (e', Ok (JDict d)) →
  assoc "end" d = Some tok →
  let st1 := fst (MatrixClient__init__ token st) in
  end_ (client (py st1)) = Some tok ∧
  api_log (fst (listen_for_events timeout st1)) =
    api_log st ++ [ApiInitialSync 1; ApiEventStream tok timeout].
Proof.
  intros Htok Ht Hd st1.
  assert (Hst1 : st1 = fst (_sync 1
            (with_py st (with_client (py st) MatrixClient_init)))).
  { subst st1. rewrite init_run. simpl. by rewrite Htok. }
  assert (Hend : end_ (client (py st1)) = Some tok).
  { rewrite Hst1. by apply (sync_sets_cursor 1 _ e' d). }
  assert (Hlog : api_log st1 = api_log st ++ [ApiInitialSync 1]).
  { rewrite Hst1. by rewrite bootstrap_log. }
  split; [done|].
  rewrite (poll_log timeout st1 tok Hend), Hlog.
  by rewrite <- app_assoc.
Qed.

(** ** The endless loop *)

(** X15. [listen_forever] has no exit of its own: followed for [fuel]
    iterations it is still running, all polls having returned, or it has
    ended with the exception of the first poll that raised, in the state
    that poll left, and more fuel changes nothing. *)
Theorem listen_forever_ends_by_exception (fuel : nat) (timeout : Z)
  (st : state) :
  match listen_forever fuel timeout st with
  | (st', None) =>
      st' = after_polls fuel timeout st ∧
      ∀ n, (n < fuel)%nat →
        snd (listen_for_events timeout (after_polls n timeout st)) = Ok tt
  | (st', Some e) =>
      (∃ n, (n < fuel)%nat ∧
         (∀ i, (i < n)%nat →
            snd (listen_for_events timeout (after_polls i timeout st))
              = Ok tt) ∧
         listen_for_events timeout (after_polls n timeout st)
           = (st', Raise e)) ∧
      ∀ more, listen_forever (fuel + more) timeout st = (st', Some e)
  end.
Proof.
  revert st. induction fuel as [|fuel IH]; intros st; simpl.
  - split; [done|]. intros n Hn. lia.
  - destruct (listen_for_events timeout st) as [st1 [[]|e]] eqn:Hpoll.
    + specialize (IH st1).
      destruct (listen_forever fuel timeout st1) as [st' [e|]].
      * destruct IH as [(n & Hn & Hbefore & Hlast) Hmore]. split.
        -- exists (S n). split; [lia|]. split.
           ++ intros [|i] Hi; simpl; rewrite ?Hpoll; [done|].
              apply Hbefore. lia.
           ++ simpl. by rewrite ?Hpoll.
        -- intros more. by rewrite Hmore.
      * destruct IH as [-> Hall]. split; [done|].
        intros [|n] Hn; simpl; rewrite ?Hpoll; [done|]. apply Hall. lia.
    + split.
      * exists 0%nat. split; [lia|]. split; [intros i Hi; lia|done].
      * done.
Qed.

Lemma registry_ok_kept (timeout : Z) (st : state) :
  registry_ok (py st) →
  registry_ok (py (fst (listen_for_events timeout st))).
Proof.
  intros H. apply hoare_keeps; [|done]. apply hoare_listen_for_events.
  - intros p v Hp. exact Hp.
  - intros chunk p a r Hp Hr k a' Hk. simpl.
    rewrite length_insert. by eapply Hp.
  - intros p rid k Hp _ _ k' a' Hk'. simpl in *.
    rewrite length_app. simpl.
    destruct (decide (k' = k)) as [->|Hne].
    + rewrite lookup_insert_eq in Hk'. injection Hk' as <-. lia.
    + rewrite lookup_insert_ne in Hk' by done.
      specialize (Hp _ _ Hk'). lia.
Qed.

(** X16. When the event stream answers every request with a cursor and
    chunks of the expected shape and the callbacks return,
    [listen_forever] goes on: after any number of iterations it is still
    running and has sent one request per iteration. *)
Theorem listen_forever_keeps_polling (timeout : Z) (st : state)
  (fuel : nat) :
  stream_answers timeout →
  callbacks_return →
  registry_ok (py st) →
  is_Some (end_ (client (py st))) →
  snd (listen_forever fuel timeout st) = None ∧
  length (api_log (fst (listen_forever fuel timeout st))) =
    (length (api_log st) + fuel)%nat.
Proof.
  intros Hstream Hcb. revert st.
  induction fuel as [|fuel IH]; intros st Hreg [cur Hcur]; simpl.
  - split; [done|lia].
  - destruct (Hstream cur (env st))
      as (e' & resp & tok & chunks & Ht & Htok & Hch & Hshape).
    pose proof (listen_for_events_returns timeout st cur e' resp tok chunks
                  Hcb Hreg Hcur Ht Htok Hch Hshape) as Hret.
    pose proof (registry_ok_kept timeout st Hreg) as Hreg'.
    pose proof (listen_for_events_run timeout st cur e' resp tok
                  Hcur Ht Htok) as Hrun.
    simpl in Hrun. rewrite Hch in Hrun.
    destruct (listen_for_events timeout st) as [st1 [[]|e]] eqn:Hpoll;
      [|discriminate].
    symmetry in Hrun.
    destruct (for_each_chunks_post _ _ _ _ Hrun) as [new P].
    destruct P as [Htrace Hlog Hls Hend_ Hrl Hprefix Hcomplete Hse Hsl
                   Hraised].
    simpl in *.
    destruct (IH st1) as [Hout Hlen]; [done|by rewrite Hend_|].
    split; [done|]. rewrite Hlen, Hlog, length_app. simpl. lia.
Qed.

End Logic.

(** * The account and the remaining requests *)

Section Accounts.

Context `{W : World} `{H : !Homeserver W}.

(** ** Running a session *)

Lemma sbind_run {A B} (m : MS A) (k : A → MS B) (s : session) :
  sbind m k s =
    match m s with
    | (s', Ok a) => k a s'
    | (s', Raise e) => (s', Raise e)
    end.
Proof. reflexivity. Qed.

Lemma sbind_lift {A B} (r : res A) (k : A → MS B) (s : session) :
  sbind (slift r) k s =
    match r with
    | Ok a => k a s
    | Raise e => (s, Raise e)
    end.
Proof. by destruct r. Qed.

Lemma send_run (c : api_request) (s : session) :
  send c s = (after_request s c (fst (request c (env (core s)))),
              snd (request c (env (core s)))).
Proof. unfold send. by destruct (request _ _). Qed.

Lemma in_core_run {A} (m : M A) (s : session) :
  in_core m s = (with_core s (fst (m (core s))), snd (m (core s))).
Proof. unfold in_core. by destruct (m (core s)). Qed.

Lemma in_core_get_room (self : addr) (s : session) :
  in_core (get_room self) s =
    (s, match heap (py (core s)) !! self with
        | Some r => Ok r
        | None => Raise BadAddress
        end).
Proof. rewrite in_core_run, get_room_run. by destruct s. Qed.

(** ** Inviting and banning *)

(** X18. [invite_user] and [ban_user] send one request, [ban_user] with its
    reason, and yield [True] when the transport answers and [False] when
    it raises a request error; any other exception goes through. *)
Theorem invite_and_ban_report_a_boolean (self : addr) (r : Room)
  (user_id reason : string) (s : session) :
  let collapse (c : api_request) :=
    (after_request s c (fst (request c (env (core s)))),
     match snd (request c (env (core s))) with
     | Ok _ => Ok true
     | Raise (MatrixRequestError _ _) => Ok false
     | Raise e => Raise e
     end) in
  heap (py (core s)) !! self = Some r →
  Room_invite_user self user_id s =
    collapse (ApiInviteUser (room_id r) user_id) ∧
  Room_ban_user self user_id reason s =
    collapse (ApiBanUser (room_id r) user_id reason).
Proof.
  intros collapse Hself. subst collapse. split.
  - unfold Room_invite_user, try_except_request_error.
    rewrite sbind_run, in_core_get_room, Hself.
    rewrite sbind_run, send_run.
    by destruct (snd (request _ _)) as [v|[]].
  - unfold Room_ban_user, try_except_request_error.
    rewrite sbind_run, in_core_get_room, Hself.
    rewrite sbind_run, send_run.
    by destruct (snd (request _ _)) as [v|[]].
Qed.

(** ** The avatar of a user *)

(** X19. [User.get_avatar_url] asks for the avatar, then asks for the
    download address of what the first answer was; when the first request
    raises, the second is not sent. *)
Theorem get_avatar_url_resolves_in_two_steps (self : User) (s : session) :
  let first := ApiGetAvatarUrl (u_user_id self) in
  User_get_avatar_url self s =
    match request first (env (core s)) with
    | (e1, Ok mxcurl) =>
        let second := ApiGetDownloadUrl mxcurl in
        (after_request (after_request s first e1) second
           (fst (request second e1)),
         snd (request second e1))
    | (e1, Raise e) => (after_request s first e1, Raise e)
    end.
Proof.
  intros first. unfold User_get_avatar_url.
  rewrite sbind_run, send_run. fold first.
  destruct (request first (env (core s))) as [e1 [mxcurl|e]]; simpl; [|done].
  rewrite sbind_run, send_run. simpl.
  by destruct (snd (request _ e1)).
Qed.

(** ** Refreshing the name and the topic *)

Lemma in_core_modify_room (self : addr) (f : Room → Room) (r : Room)
  (s : session) :
  heap (py (core s)) !! self = Some r →
  in_core (modify_room self f) s =
    (with_core s (with_py (core s)
       (with_heap (py (core s)) (<[self:=f r]> (heap (py (core s)))))),
     Ok tt).
Proof.
  intros Hself. rewrite in_core_run.
  by rewrite (modify_room_run _ _ _ _ Hself).
Qed.

(** X20. [update_room_name] and [update_room_topic], for every outcome of
    the request: a record with a value that differs from the cache is
    cached and gives [True]; a record without the key or with an equal
    value gives [False]; a request error gives [False]; an answer that is
    not a record raises [TypeError] unless it is a string or list without
    the key. *)
Theorem update_room_name_and_topic_outcomes (self : addr) (r : Room)
  (s : session) :
  let refresh (c : api_request) (key : string) (cached : json)
              (set : json → Room → Room) :=
    let s1 := after_request s c (fst (request c (env (core s)))) in
    match snd (request c (env (core s))) with
    | Ok (JDict d) =>
        match assoc key d with
        | Some v =>
            if py_eq v cached then (s1, Ok false)
            else (with_core s1 (with_py (core s1)
                    (with_heap (py (core s))
                       (<[self:=set v r]> (heap (py (core s)))))),
                  Ok true)
        | None => (s1, Ok false)
        end
    | Ok (JNull | JBool _ | JInt _) => (s1, Raise TypeError)
    | Ok (JStr t) =>
        (s1, if is_substring key t then Raise TypeError else Ok false)
    | Ok (JList l) =>
        (s1, if existsb (py_eq (JStr key)) l then Raise TypeError
             else Ok false)
    | Raise (MatrixRequestError _ _) => (s1, Ok false)
    | Raise e => (s1, Raise e)
    end in
  heap (py (core s)) !! self = Some r →
  Room_update_room_name self s =
    refresh (ApiGetRoomName (room_id r)) "name" (name r) set_name ∧
  Room_update_room_topic self s =
    refresh (ApiGetRoomTopic (room_id r)) "topic" (topic r) set_topic.
Proof.
  intros refresh Hself. subst refresh. split.
  - unfold Room_update_room_name, try_except_request_error.
    rewrite sbind_run, in_core_get_room, Hself.
    rewrite sbind_run, send_run.
    destruct (snd (request _ _)) as [[| | |t|l|d]|e]; [..|by destruct e];
      unfold sbind, slift, sret; cbn [py_in py_getitem]; cbv beta iota;
      try done.
    + by destruct (is_substring _ t).
    + by destruct (existsb _ l).
    + destruct (assoc "name" d) as [v|] eqn:Hd.
      * rewrite bool_decide_eq_true_2 by eauto. cbv beta iota.
        rewrite in_core_get_room. cbn [core after_request py].
        rewrite Hself. cbv beta iota.
        destruct (py_eq v (name r)); cbn [negb]; cbv beta iota; [done|].
        by erewrite in_core_modify_room by (simpl; exact Hself).
      * rewrite bool_decide_eq_false_2 by (by intros [? ?]). done.
  - unfold Room_update_room_topic, try_except_request_error.
    rewrite sbind_run, in_core_get_room, Hself.
    rewrite sbind_run, send_run.
    destruct (snd (request _ _)) as [[| | |t|l|d]|e]; [..|by destruct e];
      unfold sbind, slift, sret; cbn [py_in py_getitem]; cbv beta iota;
      try done.
    + by destruct (is_substring _ t).
    + by destruct (existsb _ l).
    + destruct (assoc "topic" d) as [v|] eqn:Hd.
      * rewrite bool_decide_eq_true_2 by eauto. cbv beta iota.
        rewrite in_core_get_room. cbn [core after_request py].
        rewrite Hself. cbv beta iota.
        destruct (py_eq v (topic r)); cbn [negb]; cbv beta iota; [done|].
        by erewrite in_core_modify_room by (simpl; exact Hself).
      * rewrite bool_decide_eq_false_2 by (by intros [? ?]). done.
Qed.

Lemma update_room_name_dict (self : addr) (r : Room) (s : session)
  (e' : Env) (d : list (string * json)) :
  heap (py (core s)) !! self = Some r →
  request (ApiGetRoomName (room_id r)) (env (core s)) = (e', Ok (JDict d)) →
  Room_update_room_name self s =
    let s1 := after_request s (ApiGetRoomName (room_id r)) e' in
    match assoc "name" d with
    | Some v =>
        if py_eq v (name r) then (s1, Ok false)
        else (with_core s1 (with_py (core s1)
                (with_heap (py (core s))
                   (<[self:=set_name v r]> (heap (py (core s)))))),
              Ok true)
    | None => (s1, Ok false)
    end.
Proof.
  intros Hself Ht.
  unfold Room_update_room_name, try_except_request_error.
  rewrite sbind_run, in_core_get_room, Hself.
  rewrite sbind_run, send_run, Ht.
  unfold sbind, slift, sret; cbn [py_in py_getitem fst snd]; cbv beta iota.
  destruct (assoc "name" d) as [v|] eqn:Hd.
  - rewrite bool_decide_eq_true_2 by eauto. cbv beta iota.
    rewrite in_core_get_room. cbn [core after_request py].
    rewrite Hself. cbv beta iota.
    destruct (py_eq v (name r)); cbn [negb]; cbv beta iota; [done|].
    by erewrite in_core_modify_room by (simpl; exact Hself).
  - rewrite bool_decide_eq_false_2 by (by intros [? ?]). done.
Qed.

Lemma update_room_topic_dict (self : addr) (r : Room) (s : session)
  (e' : Env) (d : list (string * json)) :
  heap (py (core s)) !! self = Some r →
  request (ApiGetRoomTopic (room_id r)) (env (core s)) = (e', Ok (JDict d)) →
  Room_update_room_topic self s =
    let s1 := after_request s (ApiGetRoomTopic (room_id r)) e' in
    match assoc "topic" d with
    | Some v =>
        if py_eq v (topic r) then (s1, Ok false)
        else (with_core s1 (with_py (core s1)
                (with_heap (py (core s))
                   (<[self:=set_topic v r]> (heap (py (core s)))))),
              Ok true)
    | None => (s1, Ok false)
    end.
Proof.
  intros Hself Ht.
  unfold Room_update_room_topic, try_except_request_error.
  rewrite sbind_run, in_core_get_room, Hself.
  rewrite sbind_run, send_run, Ht.
  unfold sbind, slift, sret; cbn [py_in py_getitem fst snd]; cbv beta iota.
  destruct (assoc "topic" d) as [v|] eqn:Hd.
  - rewrite bool_decide_eq_true_2 by eauto. cbv beta iota.
    rewrite in_core_get_room. cbn [core after_request py].
    rewrite Hself. cbv beta iota.
    destruct (py_eq v (topic r)); cbn [negb]; cbv beta iota; [done|].
    by erewrite in_core_modify_room by (simpl; exact Hself).
  - rewrite bool_decide_eq_false_2 by (by intros [? ?]). done.
Qed.

(** X21. When the homeserver gives the same record twice, whose name
    (topic) is equal to itself under [==], the second
    [update_room_name] ([update_room_topic]) yields [False] and changes
    nothing. *)
Theorem refreshing_twice_changes_nothing (self : addr) (r : Room)
  (s : session) :
  heap (py (core s)) !! self = Some r →
  (∀ e1 e2 d,
     let call := ApiGetRoomName (room_id r) in
     (∀ v, assoc "name" d = Some v → py_eq v v = true) →
     request call (env (core s)) = (e1, Ok (JDict d)) →
     request call e1 = (e2, Ok (JDict d)) →
     let s1 := fst (Room_update_room_name self s) in
     Room_update_room_name self s1 = (after_request s1 call e2, Ok false)) ∧
  (∀ e1 e2 d,
     let call := ApiGetRoomTopic (room_id r) in
     (∀ v, assoc "topic" d = Some v → py_eq v v = true) →
     request call (env (core s)) = (e1, Ok (JDict d)) →
     request call e1 = (e2, Ok (JDict d)) →
     let s1 := fst (Room_update_room_topic self s) in
     Room_update_room_topic self s1 = (after_request s1 call e2, Ok false)).
Proof.
  intros Hself. split.
  - intros e1 e2 d call Hu Ht1 Ht2 s1. subst s1.
    rewrite (update_room_name_dict _ _ _ _ _ Hself Ht1). fold call.
    cbv zeta.
    destruct (assoc "name" d) as [v|] eqn:Hd.
    + destruct (py_eq v (name r)) eqn:Heq; cbn [fst].
      * erewrite update_room_name_dict; [|exact Hself|exact Ht2].
        by rewrite Hd, Heq.
      * erewrite update_room_name_dict;
          [|simpl; apply list_lookup_insert_eq; by eapply lookup_lt_Some
           |exact Ht2].
        rewrite Hd. simpl name.
        by rewrite (Hu v eq_refl).
    + cbn [fst]. erewrite update_room_name_dict; [|exact Hself|exact Ht2].
      by rewrite Hd.
  - intros e1 e2 d call Hu Ht1 Ht2 s1. subst s1.
    rewrite (update_room_topic_dict _ _ _ _ _ Hself Ht1). fold call.
    cbv zeta.
    destruct (assoc "topic" d) as [v|] eqn:Hd.
    + destruct (py_eq v (topic r)) eqn:Heq; cbn [fst].
      * erewrite update_room_topic_dict; [|exact Hself|exact Ht2].
        by rewrite Hd, Heq.
      * erewrite update_room_topic_dict;
          [|simpl; apply list_lookup_insert_eq; by eapply lookup_lt_Some
           |exact Ht2].
        rewrite Hd. simpl topic.
        by rewrite (Hu v eq_refl).
    + cbn [fst]. erewrite update_room_topic_dict; [|exact Hself|exact Ht2].
      by rewrite Hd.
Qed.

(** ** Registration and login *)

Lemma start_session_run (response : json) (limit : Z) (s : session) :
  start_session response limit s =
    match py_getitem response "user_id" with
    | Raise e => (s, Raise e)
    | Ok uid =>
        let a := account s in
        let s1 := with_account s
          {| self_user_id := Some uid; self_token := self_token a;
             self_hs := self_hs a; api_token := api_token a |} in
        match py_getitem response "access_token" with
        | Raise e => (s1, Raise e)
        | Ok tok =>
            let s2 := with_account s
              {| self_user_id := Some uid; self_token := Some tok;
                 self_hs := self_hs a; api_token := api_token a |} in
            match py_getitem response "home_server" with
            | Raise e => (s2, Raise e)
            | Ok home =>
                let s3 := with_account s
                  {| self_user_id := Some uid; self_token := Some tok;
                     self_hs := Some home; api_token := Some tok |} in
                (with_core s3 (fst (_sync limit (core s))),
                 res_bind (snd (_sync limit (core s)))
                          (fun _ => Ok tok))
            end
        end
    end.
Proof.
  unfold start_session. rewrite sbind_lift.
  destruct (py_getitem response "user_id") as [uid|e]; [|done].
  unfold sbind at 1, set_user_id at 1. rewrite sbind_lift.
  destruct (py_getitem response "access_token") as [tok|e]; [|done].
  unfold sbind at 1, set_token at 1. rewrite sbind_lift.
  destruct (py_getitem response "home_server") as [home|e]; [|done].
  unfold sbind at 1, set_hs at 1.
  unfold sbind at 1, get_token at 1. cbn [account with_account self_token].
  unfold sbind at 1, set_api_token at 1.
  cbn [account with_account self_token self_user_id self_hs api_token].
  rewrite sbind_run, in_core_run. cbn [core with_account].
  destruct (_sync limit (core s)) as [st' [[]|e]]; simpl; done.
Qed.

(** X22. [register_with_password] and [login_with_password]: an exception
    of the request goes through with the account untouched; an answer
    with the three keys sets the account and the token of the transport,
    then bootstraps and yields the access token; an answer without
    [access_token] raises [KeyError] when [user_id] is already assigned
    and before any bootstrap. *)
Theorem session_start_outcomes (register : bool)
  (username password : string) (limit : Z) (s : session) :
  let call := if register
              then ApiRegister "m.login.password" username password
              else ApiLogin "m.login.password" username password in
  let run := if register then register_with_password
             else login_with_password in
  (∀ e' e,
     request call (env (core s)) = (e', Raise e) →
     run username password limit s = (after_request s call e', Raise e)) ∧
  (∀ e' d uid tok home,
     request call (env (core s)) = (e', Ok (JDict d)) →
     assoc "user_id" d = Some uid →
     assoc "access_token" d = Some tok →
     assoc "home_server" d = Some home →
     let s1 := after_request s call e' in
     let r := run username password limit s in
     account (fst r) =
       {| self_user_id := Some uid; self_token := Some tok;
          self_hs := Some home; api_token := Some tok |} ∧
     core (fst r) = fst (_sync limit (core s1)) ∧
     snd r = res_bind (snd (_sync limit (core s1))) (fun _ => Ok tok)) ∧
  (∀ e' d uid,
     request call (env (core s)) = (e', Ok (JDict d)) →
     assoc "user_id" d = Some uid →
     assoc "access_token" d = None →
     let r := run username password limit s in
     snd r = Raise KeyError ∧
     account (fst r) =
       {| self_user_id := Some uid;
          self_token := self_token (account s);
          self_hs := self_hs (account s);
          api_token := api_token (account s) |} ∧
     api_log (core (fst r)) = api_log (core s)).
Proof.
  intros call run.
  assert (Hrun : run username password limit s =
                 sbind (send call) (fun response =>
                   start_session response limit) s).
  { subst run call. by destruct register. }
  rewrite Hrun, sbind_run, send_run. split_and!.
  - intros e' e Ht. by rewrite Ht.
  - intros e' d uid tok home Ht Hu Ha Hh s1 r. subst r.
    rewrite Ht. cbn [fst snd].
    rewrite start_session_run. cbn [py_getitem]. rewrite Hu, Ha, Hh.
    done.
  - intros e' d uid Ht Hu Ha r. subst r.
    rewrite Ht. cbn [fst snd].
    rewrite start_session_run. cbn [py_getitem]. rewrite Hu, Ha.
    done.
Qed.

End Accounts.

(** * The poll with callbacks that act on the client *)

(** * Callbacks that act on the client *)

Section Reentrancy.

Context `{W : World} `{R : !Reentrant W}.

(** ** What the dispatch reads *)

Lemma view_listeners (p p' : pystate) :
  dispatch_view p' = dispatch_view p →
  listeners (client p') = listeners (client p).
Proof. unfold dispatch_view. by intros [= -> _ _]. Qed.

Lemma view_rooms (p p' : pystate) :
  dispatch_view p' = dispatch_view p → rooms (client p') = rooms (client p).
Proof. unfold dispatch_view. by intros [= _ -> _]. Qed.

Lemma view_lookup (p p' : pystate) (a : addr) (r : Room) :
  dispatch_view p' = dispatch_view p → heap p !! a = Some r →
  ∃ r', heap p' !! a = Some r' ∧ r_listeners r' = r_listeners r ∧
        events r' = events r.
Proof.
  unfold dispatch_view. intros [= _ _ Hh] Hr.
  assert (H1 : map (fun r => (r_listeners r, events r)) (heap p) !! a
               = Some (r_listeners r, events r)).
  { change (map ?f ?l) with (f <$> l). by rewrite list_lookup_fmap, Hr. }
  rewrite <- Hh in H1.
  change (map ?f ?l) with (f <$> l) in H1.
  rewrite list_lookup_fmap in H1.
  destruct (heap p' !! a) as [r'|]; [|done].
  injection H1 as H1 H2. by exists r'.
Qed.

Lemma view_length (p p' : pystate) :
  dispatch_view p' = dispatch_view p → length (heap p') = length (heap p).
Proof.
  unfold dispatch_view. intros [= _ _ Hh].
  apply (f_equal length) in Hh. by rewrite !length_map in Hh.
Qed.

Lemma view_sym (p p' : pystate) :
  dispatch_view p' = dispatch_view p → dispatch_view p = dispatch_view p'.
Proof. done. Qed.

Lemma view_room_listeners_at (p p' : pystate) (rid : json) :
  dispatch_view p' = dispatch_view p →
  room_listeners_at p' rid = room_listeners_at p rid.
Proof.
  intros Hv. unfold room_listeners_at.
  destruct (py_hash rid) as [k|]; [|done].
  rewrite (view_rooms _ _ Hv).
  destruct (rooms (client p) !! k) as [a|]; [|done].
  destruct (heap p !! a) as [r|] eqn:Hr.
  - destruct (view_lookup _ _ _ _ Hv Hr) as (r' & -> & -> & _). done.
  - destruct (heap p' !! a) as [r'|] eqn:Hr'; [|done].
    destruct (view_lookup _ _ _ _ (view_sym _ _ Hv) Hr') as (r & Hr2 & _).
    congruence.
Qed.

Lemma view_spec_delivery (p p' : pystate) (chunks : list json) :
  dispatch_view p' = dispatch_view p →
  spec_delivery p' chunks = spec_delivery p chunks.
Proof.
  intros Hv. apply spec_delivery_ext; [by apply view_listeners|].
  intros rid. by apply view_room_listeners_at.
Qed.

Lemma view_fits (fuel : nat) (p p' : pystate) :
  dispatch_view p' = dispatch_view p → fits fuel p → fits fuel p'.
Proof.
  intros Hv [Hl Hr]. split; [by rewrite (view_listeners _ _ Hv)|].
  intros a r' Hr'.
  destruct (view_lookup _ _ _ _ (view_sym _ _ Hv) Hr') as (r & Hr2 & Hls & _).
  rewrite <- Hls. by eapply Hr.
Qed.

Lemma view_log_at (p p' : pystate) (a : addr) :
  dispatch_view p' = dispatch_view p → log_at p' a = log_at p a.
Proof.
  intros Hv. unfold log_at.
  destruct (heap p !! a) as [r|] eqn:Hr.
  - by destruct (view_lookup _ _ _ _ Hv Hr) as (r' & -> & _ & ->).
  - destruct (heap p' !! a) as [r'|] eqn:Hr'; [|done].
    destruct (view_lookup _ _ _ _ (view_sym _ _ Hv) Hr') as (r & Hr2 & _).
    congruence.
Qed.

Lemma view_room_of (p p' : pystate) (chunk : json) :
  dispatch_view p' = dispatch_view p → room_of p' chunk = room_of p chunk.
Proof. intros Hv. unfold room_of. by rewrite (view_rooms _ _ Hv). Qed.

(** ** Loops over live lists *)

Lemma lbind_run {A B} (m : L A) (k : A → L B) (st : state) :
  lbind m k st =
    match m st with
    | Some (st', Ok a) => k a st'
    | Some (st', Raise e) => Some (st', Raise e)
    | None => None
    end.
Proof. reflexivity. Qed.

Lemma invoke_live_run (sc : scope) (l : lid) (chunk : json) (st : state) :
  invoke_live sc l chunk st =
    (after_invoke (with_py st (effect l chunk (py st) (env st)))
       {| inv_scope := sc; inv_listener := l; inv_chunk := chunk;
          inv_seen := py st;
          inv_result := snd (callback l chunk (py st) (env st)) |}
       (fst (callback l chunk (py st) (env st))),
     snd (callback l chunk (py st) (env st))).
Proof. unfold invoke_live. by destruct (callback _ _ _ _). Qed.

(** A loop over a live list that its body does not change is the loop
    over the list as it was, and ends within the fuel. *)
Lemma for_live_stable (fuel : nat) (xs : pystate → res (list lid))
  (body : lid → M unit) :
  (∀ x st, xs (py (fst (body x st))) = xs (py st)) →
  ∀ (i : nat) (st : state) (l : list lid),
    xs (py st) = Ok l → (length l - i < fuel)%nat →
    for_live fuel xs i body st = Some (for_each (drop i l) body st).
Proof.
  intros Hbody. induction fuel as [|fuel IH]; intros i st l Hl Hfuel;
    [lia|].
  simpl. rewrite Hl.
  destruct (l !! i) as [x|] eqn:Hx.
  - rewrite (drop_S _ _ _ Hx). simpl. rewrite bind_run.
    pose proof (Hbody x st) as Hst.
    destruct (body x st) as [st' [[]|e]]; simpl in Hst; [|done].
    apply IH; [by rewrite Hst|].
    apply lookup_lt_Some in Hx. lia.
  - apply lookup_ge_None in Hx. by rewrite drop_ge.
Qed.

(** The callbacks of one list, called in order on one chunk. *)
Lemma invoke_live_all (sc : scope) (chunk : json) (ls : list lid)
  (st : state) :
  callbacks_keep_dispatch →
  let r := for_each ls (fun l => invoke_live sc l chunk) st in
  dispatch_view (py (fst r)) = dispatch_view (py st) ∧
  api_log (fst r) = api_log st ∧
  ∃ new, trace (fst r) = trace st ++ new ∧
    Forall (fun i => inv_scope i = sc ∧ inv_chunk i = chunk ∧
                     dispatch_view (inv_seen i) = dispatch_view (py st)) new ∧
    map inv_listener new `prefix_of` ls ∧
    (snd r = Ok tt → map inv_listener new = ls) ∧
    raised_last new (snd r).
Proof.
  intros Hframe. revert st. induction ls as [|l ls IH]; intros st; simpl.
  - split; [done|]. split; [done|]. exists []. rewrite app_nil_r.
    split; [done|]. split; [constructor|]. split; [done|]. split; [done|].
    left. constructor.
  - pose proof (invoke_live_run sc l chunk st) as Hinv.
    set (i := {| inv_scope := sc; inv_listener := l; inv_chunk := chunk;
                 inv_seen := py st;
                 inv_result := snd (callback l chunk (py st) (env st)) |})
      in Hinv.
    pose proof (Hframe l chunk (py st) (env st)) as Hv.
    destruct (snd (callback l chunk (py st) (env st))) as [[]|e] eqn:Hcb.
    + rewrite (bind_Ok _ _ _ _ _ Hinv).
      destruct (IH (after_invoke
                      (with_py st (effect l chunk (py st) (env st))) i
                      (fst (callback l chunk (py st) (env st)))))
        as (Hpy & Hlog & new & Htr & Hall & Hpre & Hok & Hr).
      simpl in *.
      split; [by rewrite Hpy|]. split; [done|].
      exists (i :: new). rewrite Htr, <- app_assoc. simpl.
      split; [done|]. split.
      { constructor; [done|]. eapply Forall_impl; [exact Hall|].
        intros j (? & ? & Hj). split_and!; try done. by rewrite Hj. }
      split; [by apply prefix_cons|].
      split; [intros H; by rewrite Hok|].
      change (i :: new) with ([i] ++ new). apply raised_last_app; [|done].
      by constructor.
    + rewrite (bind_Raise _ _ _ _ _ Hinv). simpl.
      split; [done|]. split; [done|].
      exists [i].
      split; [done|]. split; [by constructor|].
      split; [apply prefix_cons, prefix_nil|].
      split; [done|].
      right. exists [], i, e. split_and!; try done. constructor.
Qed.

Lemma delivered_same (sc : scope) (chunk : json) (P : invocation → Prop)
  (t : list invocation) :
  Forall (fun i => inv_scope i = sc ∧ inv_chunk i = chunk ∧ P i) t →
  delivered t = map (fun l => (sc, l, chunk)) (map inv_listener t).
Proof.
  induction 1 as [|i t (Hs & Hc & _) _ IH]; simpl; [done|].
  by rewrite IH, Hs, Hc.
Qed.

Lemma seen_logged_globals (chunk : json) (P : invocation → Prop)
  (t : list invocation) :
  Forall (fun i => inv_scope i = Global ∧ inv_chunk i = chunk ∧ P i) t →
  seen_logged t.
Proof.
  intros H. unfold seen_logged. eapply Forall_impl; [exact H|].
  intros i (Hs & _ & _) a Ha. congruence.
Qed.

(** ** Filing a chunk *)

(** The room is made only when the identifier is not registered; the
    chunk goes to the end of the log of the room. *)
Lemma file_chunk_run (chunk : json) (st : state) :
  file_chunk chunk st =
    match py_getitem chunk "room_id" with
    | Raise e => (st, Raise e)
    | Ok rid =>
        match py_hash rid with
        | Raise e => (st, Raise e)
        | Ok k =>
            match rooms (client (py st)) !! k with
            | Some a =>
                match heap (py st) !! a with
                | Some r =>
                    (with_py st (with_heap (py st)
                       (<[a:=append_event chunk r]> (heap (py st)))), Ok a)
                | None => (st, Raise BadAddress)
                end
            | None =>
                let n := length (heap (py st)) in
                let p1 := registered
                            (with_heap (py st)
                               (heap (py st) ++ [Room_init rid])) k n in
                (with_py st (with_heap p1
                   (<[n:=append_event chunk (Room_init rid)]> (heap p1))),
                 Ok n)
            end
        end
    end.
Proof.
  unfold file_chunk. rewrite bind_lift.
  destruct (py_getitem chunk "room_id") as [rid|e] eqn:Hrid; [|done].
  rewrite bind_run, rooms_contains_run.
  destruct (py_hash rid) as [k|e] eqn:Hk; simpl; [|done].
  destruct (rooms (client (py st)) !! k) as [a|] eqn:Hreg; simpl.
  - rewrite bind_run. unfold ret at 1.
    rewrite bind_lift, bind_run, (rooms_getitem_run _ _ _ Hk), Hreg.
    rewrite bind_run.
    destruct (heap (py st) !! a) as [r|] eqn:Hheap.
    + rewrite (modify_room_run _ _ _ _ Hheap).
      rewrite bind_lift, (rooms_getitem_run _ _ _ Hk). simpl.
      by rewrite Hreg.
    + by rewrite (modify_room_bad _ _ _ Hheap).
  - rewrite bind_run, bind_lift, bind_run, (mkroom_run _ _ _ Hk).
    unfold ret at 1. cbv beta iota zeta.
    rewrite bind_lift, bind_run, (rooms_getitem_run _ _ _ Hk).
    simpl. rewrite lookup_insert_eq.
    assert (Hnew : (heap (py st) ++ [Room_init rid]) !! length (heap (py st))
                   = Some (Room_init rid)).
    { rewrite lookup_app_r, Nat.sub_diag by lia. done. }
    rewrite bind_run.
    erewrite modify_room_run by (simpl; exact Hnew).
    simpl.
    rewrite bind_lift, (rooms_getitem_run _ _ _ Hk).
    simpl. by rewrite lookup_insert_eq.
Qed.

(** ** One chunk *)

Lemma view_listeners_of (p p' : pystate) (a : addr) :
  dispatch_view p' = dispatch_view p → listeners_of a p' = listeners_of a p.
Proof.
  intros Hv. unfold listeners_of.
  destruct (heap p !! a) as [r|] eqn:Hr.
  - by destruct (view_lookup _ _ _ _ Hv Hr) as (r' & -> & -> & _).
  - destruct (heap p' !! a) as [r'|] eqn:Hr'; [|done].
    destruct (view_lookup _ _ _ _ (view_sym _ _ Hv) Hr') as (r & Hr2 & _).
    congruence.
Qed.

Lemma invoke_live_view (sc : scope) (l : lid) (chunk : json) (st : state) :
  callbacks_keep_dispatch →
  dispatch_view (py (fst (invoke_live sc l chunk st))) = dispatch_view (py st).
Proof. intros Hf. rewrite invoke_live_run. simpl. apply Hf. Qed.

(** Under callbacks that keep what the dispatch reads, and within the
    fuel, a loop over a live list of listeners calls the listeners the
    list had at its start. *)
Lemma for_live_listeners (fuel : nat) (xs : pystate → res (list lid))
  (sc : scope) (chunk : json) (st : state) (l : list lid) :
  callbacks_keep_dispatch →
  (∀ p p', dispatch_view p' = dispatch_view p → xs p' = xs p) →
  xs (py st) = Ok l → (length l < fuel)%nat →
  for_live fuel xs 0 (fun x => invoke_live sc x chunk) st =
    Some (for_each l (fun x => invoke_live sc x chunk) st).
Proof.
  intros Hf Hxs Hl Hfuel.
  rewrite (for_live_stable fuel xs _) with (l := l); try done; [|lia].
  intros x st0. apply Hxs. by apply invoke_live_view.
Qed.

Lemma fits_modify (fuel : nat) (p : pystate) (a : addr) (r : Room)
  (f : Room → Room) :
  heap p !! a = Some r → r_listeners (f r) = r_listeners r →
  fits fuel p → fits fuel (with_heap p (<[a:=f r]> (heap p))).
Proof.
  intros Hr Hf [Hl Hrooms]. split; [done|]. intros a' r' Hr'. simpl in Hr'.
  destruct (decide (a' = a)) as [Heq|Hne]; [subst a'|].
  - rewrite list_lookup_insert_eq in Hr' by (by eapply lookup_lt_Some).
    injection Hr' as <-. rewrite Hf. by eapply Hrooms.
  - rewrite list_lookup_insert_ne in Hr' by done. by eapply Hrooms.
Qed.

Lemma fits_mkroom (fuel : nat) (p : pystate) (rid : json) (k : key) :
  fits fuel p →
  fits fuel (registered (with_heap p (heap p ++ [Room_init rid])) k
                        (length (heap p))).
Proof.
  intros [Hl Hrooms]. split; [done|]. intros a r Hr. simpl in Hr.
  apply lookup_app_Some in Hr as [Hr|[_ Hr]]; [by eapply Hrooms|].
  destruct (a - length (heap p))%nat; [|done].
  injection Hr as <-. simpl. lia.
Qed.

(** The outcome of a chunk whose processing stops after the global
    listeners. *)
Lemma live_post_globals (chunk : json) (st st1 : state)
  (out : res unit) (new : list invocation) :
  dispatch_view (py st1) = dispatch_view (py st) →
  api_log st1 = api_log st →
  trace st1 = trace st ++ new →
  Forall (fun i => inv_scope i = Global ∧ inv_chunk i = chunk ∧
                   dispatch_view (inv_seen i) = dispatch_view (py st)) new →
  map inv_listener new `prefix_of` listeners (client (py st)) →
  raised_last new out →
  (out = Ok tt →
     map inv_listener new = listeners (client (py st)) ∧
     match py_getitem chunk "room_id" with
     | Ok rid => room_listeners_at (py st) rid = []
     | Raise _ => True
     end) →
  live_post [chunk] st st1 out new.
Proof.
  intros Hv Hlog Htr Hall Hpre Hr Hok.
  split; try done.
  - by apply view_listeners.
  - intros rid. by apply view_room_listeners_at.
  - unfold spec_delivery; simpl. rewrite app_nil_r.
    unfold spec_chunk_delivery.
    rewrite (delivered_same _ _ _ _ Hall).
    apply prefix_app_r. destruct Hpre as [rest ->].
    rewrite map_app. by apply prefix_app_r.
  - intros Ho. destruct (Hok Ho) as [Hls Hroom].
    unfold spec_delivery; simpl. rewrite app_nil_r.
    unfold spec_chunk_delivery.
    rewrite (delivered_same _ _ _ _ Hall), Hls.
    destruct (py_getitem chunk "room_id"); [|by rewrite app_nil_r].
    by rewrite Hroom, app_nil_r.
  - exact (seen_logged_globals _ _ _ Hall).
  - intros fuel. by apply view_fits.
Qed.

Lemma process_chunk_live_post (fuel : nat) (chunk : json) (st : state) :
  callbacks_keep_dispatch → fits fuel (py st) →
  ∃ st' out new,
    process_chunk_live fuel chunk st = Some (st', out) ∧
    live_post [chunk] st st' out new.
Proof.
  intros Hf Hfits. unfold process_chunk_live.
  rewrite lbind_run.
  rewrite (for_live_listeners fuel global_listeners Global chunk st
             (listeners (client (py st)))); try done.
  2:{ intros p p' Hv. unfold global_listeners.
      by rewrite (view_listeners _ _ Hv). }
  2:{ by destruct Hfits. }
  destruct (invoke_live_all Global chunk (listeners (client (py st))) st Hf)
    as (Hv & Hlog & newg & Htr & Hall & Hpre & Hok & Hr).
  destruct (for_each _ _ st) as [st1 [[]|e]] eqn:Hg;
    simpl in Hv, Hlog, Htr, Hok, Hr.
  2:{ exists st1, (Raise e), newg. split; [done|].
      apply live_post_globals; try done. }
  specialize (Hok eq_refl). apply raised_last_ok in Hr.
  rewrite lbind_run. unfold run at 1, lift at 1.
  destruct (py_in "room_id" chunk) as [[|]|e] eqn:Hin.
  3:{ exists st1, (Raise e), newg. split; [done|].
      apply live_post_globals; try done. by left. }
  2:{ exists st1, (Ok tt), newg. split; [done|].
      apply live_post_globals; try done; [by left|].
      intros _. split; [done|].
      destruct (py_in_false_getitem _ _ Hin) as [e ->]. done. }
  rewrite lbind_run. unfold run at 1. rewrite file_chunk_run.
  destruct (py_getitem chunk "room_id") as [rid|e] eqn:Hrid.
  2:{ exists st1, (Raise e), newg. split; [done|].
      apply live_post_globals; try done. by left. }
  destruct (py_hash rid) as [k|e] eqn:Hk.
  2:{ exists st1, (Raise e), newg. split; [done|].
      apply live_post_globals; try done. by left. }
  pose proof (view_fits _ _ _ Hv Hfits) as Hfits1.
  destruct (rooms (client (py st1)) !! k) as [a|] eqn:Hreg.
  - (* the room is registered *)
    destruct (heap (py st1) !! a) as [r|] eqn:Hheap.
    2:{ exists st1, (Raise BadAddress), newg. split; [done|].
        apply live_post_globals; try done. by left. }
    set (st2 := with_py st1 _).
    assert (Hl2 : listeners_of a (py st2) = Ok (r_listeners r)).
    { unfold listeners_of, st2. simpl.
      by rewrite list_lookup_insert_eq by (by eapply lookup_lt_Some). }
    rewrite (for_live_listeners fuel (listeners_of a) (RoomScope a) chunk
               st2 (r_listeners r)); try done.
    2:{ intros p p' Hv'. by apply view_listeners_of. }
    2:{ destruct Hfits1 as [_ Hrooms]. by eapply Hrooms. }
    destruct (invoke_live_all (RoomScope a) chunk (r_listeners r) st2 Hf)
      as (Hv2 & Hlog2 & newr & Htr2 & Hall2 & Hpre2 & Hok2 & Hr2).
    destruct (for_each _ _ st2) as [st3 out] eqn:Hroom.
    simpl in Hv2, Hlog2, Htr2, Hok2, Hr2.
    exists st3, out, (newg ++ newr). split; [done|].
    assert (Hrl : ∀ rid', room_listeners_at (py st2) rid'
                         = room_listeners_at (py st) rid').
    { intros rid'. unfold st2. simpl.
      rewrite room_listeners_at_modify by done.
      by apply view_room_listeners_at. }
    assert (Hspec : spec_delivery (py st) [chunk] =
              map (fun l => (Global, l, chunk)) (listeners (client (py st))) ++
              map (fun l => (RoomScope a, l, chunk)) (r_listeners r)).
    { unfold spec_delivery; simpl. rewrite app_nil_r.
      unfold spec_chunk_delivery. rewrite Hrid.
      rewrite <- (view_room_listeners_at _ _ rid Hv).
      unfold room_listeners_at. rewrite Hk, Hreg, Hheap.
      by rewrite map_map. }
    split.
    + rewrite Htr2. unfold st2; simpl. by rewrite Htr, app_assoc.
    + rewrite Hlog2. unfold st2; simpl. done.
    + rewrite (view_listeners _ _ Hv2). unfold st2; simpl.
      by apply view_listeners.
    + intros rid'. rewrite (view_room_listeners_at _ _ rid' Hv2).
      by apply Hrl.
    + rewrite Hspec, delivered_app.
      rewrite (delivered_same _ _ _ _ Hall), Hok.
      apply prefix_app.
      rewrite (delivered_same _ _ _ _ Hall2).
      destruct Hpre2 as [rest ->]. rewrite map_app. by apply prefix_app_r.
    + intros Ho. rewrite Hspec, delivered_app.
      rewrite (delivered_same _ _ _ _ Hall), Hok.
      rewrite (delivered_same _ _ _ _ Hall2), (Hok2 Ho). done.
    + apply Forall_app. split; [exact (seen_logged_globals _ _ _ Hall)|].
      eapply Forall_impl; [exact Hall2|].
      intros i (Hs & Hc & Hseen) a' Ha'. rewrite Hc.
      rewrite Hs in Ha'. injection Ha' as <-.
      assert (H2 : heap (py st2) !! a = Some (append_event chunk r)).
      { unfold st2; simpl. apply list_lookup_insert_eq.
        by eapply lookup_lt_Some. }
      destruct (view_lookup _ _ _ _ Hseen H2) as (r' & Hr' & _ & Hev).
      exists r'. split; [done|]. rewrite Hev. simpl. apply last_snoc.
    + by apply raised_last_app.
    + intros fuel' Hfits'. apply (view_fits _ _ _ Hv2). unfold st2; simpl.
      apply fits_modify; [done|done|]. by apply (view_fits _ _ _ Hv).
  - (* the room is made *)
    cbv zeta.
    set (p1 := registered _ k _).
    set (st2 := with_py st1 _).
    assert (Hnew : heap p1 !! length (heap (py st1)) = Some (Room_init rid)).
    { unfold p1; simpl. rewrite lookup_app_r, Nat.sub_diag by lia. done. }
    assert (Hl2 : listeners_of (length (heap (py st1))) (py st2) = Ok []).
    { unfold listeners_of, st2. simpl.
      rewrite list_lookup_insert_eq by (rewrite length_app; simpl; lia).
      done. }
    cbv beta iota.
    rewrite (for_live_listeners fuel (listeners_of (length (heap (py st1))))
               (RoomScope (length (heap (py st1)))) chunk st2 []);
      try done.
    2:{ intros p p' Hv'. by apply view_listeners_of. }
    2:{ destruct Hfits as [Hl _]. simpl. lia. }
    simpl. exists st2, (Ok tt), newg. split; [done|].
    assert (Hrl : ∀ rid', room_listeners_at (py st2) rid'
                         = room_listeners_at (py st) rid').
    { intros rid'. unfold st2. simpl.
      rewrite (room_listeners_at_modify p1 _ _ _ rid' Hnew) by done.
      unfold p1. rewrite room_listeners_at_mkroom by done.
      by apply view_room_listeners_at. }
    split; try done.
    + unfold st2; simpl. by apply view_listeners.
    + unfold spec_delivery; simpl. rewrite app_nil_r.
      unfold spec_chunk_delivery.
      rewrite (delivered_same _ _ _ _ Hall), Hok.
      by apply prefix_app_r.
    + intros _. unfold spec_delivery; simpl. rewrite app_nil_r.
      unfold spec_chunk_delivery.
      rewrite (delivered_same _ _ _ _ Hall), Hok, Hrid.
      rewrite <- (view_room_listeners_at _ _ rid Hv).
      rewrite (room_listeners_at_None _ _ _ Hk) by done.
      by rewrite app_nil_r.
    + exact (seen_logged_globals _ _ _ Hall).
    + by left.
    + intros fuel' Hfits'. unfold st2; simpl.
      apply (fits_modify _ p1 _ _ _ Hnew); [done|].
      unfold p1. apply fits_mkroom. by apply (view_fits _ _ _ Hv).
Qed.

(** One chunk, with the fuel spent: the global listeners, the filing
    of the chunk, the listeners of the room. *)
Lemma file_chunk_fits (fuel : nat) (chunk : json) (st st2 : state)
  (a : addr) :
  file_chunk chunk st = (st2, Ok a) → fits fuel (py st) →
  fits fuel (py st2) ∧ ∃ r2, heap (py st2) !! a = Some r2.
Proof.
  rewrite file_chunk_run. intros H Hfits.
  destruct (py_getitem chunk "room_id") as [rid|e]; [|discriminate].
  destruct (py_hash rid) as [k|e]; [|discriminate].
  destruct (rooms (client (py st)) !! k) as [a0|].
  - destruct (heap (py st) !! a0) as [r|] eqn:Hr; [|discriminate].
    injection H as <- <-. simpl. split; [by apply fits_modify|].
    rewrite list_lookup_insert_eq by (by eapply lookup_lt_Some). by eauto.
  - cbv zeta in H. injection H as <- <-. simpl.
    assert (Hnew : (heap (py st) ++ [Room_init rid]) !! length (heap (py st))
                   = Some (Room_init rid)).
    { rewrite lookup_app_r, Nat.sub_diag by lia. done. }
    split.
    + apply (fits_modify _ (registered
               (with_heap (py st) (heap (py st) ++ [Room_init rid])) k
               (length (heap (py st)))) _ _ _ Hnew); [done|].
      by apply fits_mkroom.
    + rewrite list_lookup_insert_eq by (rewrite length_app; simpl; lia).
      by eauto.
Qed.

Lemma process_chunk_live_run (fuel : nat) (chunk : json) (st : state) :
  callbacks_keep_dispatch → fits fuel (py st) →
  process_chunk_live fuel chunk st =
    Some
      match for_each (listeners (client (py st)))
              (fun l => invoke_live Global l chunk) st with
      | (st1, Raise e) => (st1, Raise e)
      | (st1, Ok _) =>
          match py_in "room_id" chunk with
          | Raise e => (st1, Raise e)
          | Ok false => (st1, Ok tt)
          | Ok true =>
              match file_chunk chunk st1 with
              | (st2, Raise e) => (st2, Raise e)
              | (st2, Ok a) =>
                  match heap (py st2) !! a with
                  | Some r =>
                      for_each (r_listeners r)
                        (fun l => invoke_live (RoomScope a) l chunk) st2
                  | None => (st2, Raise BadAddress)
                  end
              end
          end
      end.
Proof.
  intros Hf Hfits. unfold process_chunk_live.
  rewrite lbind_run.
  rewrite (for_live_listeners fuel global_listeners Global chunk st
             (listeners (client (py st)))); try done.
  2:{ intros p p' Hv. unfold global_listeners.
      by rewrite (view_listeners _ _ Hv). }
  2:{ by destruct Hfits. }
  destruct (invoke_live_all Global chunk (listeners (client (py st))) st Hf)
    as (Hv & _).
  destruct (for_each _ _ st) as [st1 [[]|e]]; simpl in Hv; [|done].
  rewrite lbind_run. unfold run at 1, lift at 1.
  destruct (py_in "room_id" chunk) as [[|]|e]; [|done|done].
  rewrite lbind_run. unfold run at 1.
  destruct (file_chunk chunk st1) as [st2 [a|e]] eqn:Hfile; [|done].
  destruct (file_chunk_fits fuel _ _ _ _ Hfile (view_fits _ _ _ Hv Hfits))
    as [Hfits2 [r2 Hr2]].
  rewrite Hr2.
  apply (for_live_listeners fuel (listeners_of a)); try done.
  - intros p p' Hv'. by apply view_listeners_of.
  - unfold listeners_of. by rewrite Hr2.
  - destruct Hfits2 as [_ Hrooms]. by eapply Hrooms.
Qed.

Lemma invoke_live_all_returns (sc : scope) (chunk : json) (ls : list lid)
  (st : state) :
  callbacks_return →
  snd (for_each ls (fun l => invoke_live sc l chunk) st) = Ok tt.
Proof.
  intros Hcb. revert st. induction ls as [|l ls IH]; intros st; [done|].
  simpl. rewrite bind_run, invoke_live_run, Hcb. apply IH.
Qed.

Lemma view_registry_ok (p p' : pystate) :
  dispatch_view p' = dispatch_view p → registry_ok p → registry_ok p'.
Proof.
  intros Hv Hreg k a Hk. rewrite (view_rooms _ _ Hv) in Hk.
  rewrite (view_length _ _ Hv). by eapply Hreg.
Qed.

Lemma process_chunk_live_returns (fuel : nat) (chunk : json) (st : state) :
  callbacks_keep_dispatch → fits fuel (py st) →
  callbacks_return → chunk_shape chunk = true → registry_ok (py st) →
  ∃ st', process_chunk_live fuel chunk st = Some (st', Ok tt) ∧
         registry_ok (py st').
Proof.
  intros Hf Hfits Hcb Hshape Hreg.
  rewrite (process_chunk_live_run _ _ _ Hf Hfits).
  destruct chunk as [| | | | |d]; try discriminate.
  unfold chunk_shape, field_if_present in Hshape.
  destruct (invoke_live_all Global (JDict d) (listeners (client (py st))) st Hf)
    as (Hv & _).
  pose proof (invoke_live_all_returns Global (JDict d)
                (listeners (client (py st))) st Hcb) as Hout.
  destruct (for_each _ _ st) as [st1 out1]; simpl in Hv, Hout. subst out1.
  apply (view_registry_ok _ _ Hv) in Hreg.
  cbn [py_in].
  destruct (assoc "room_id" d) as [rid|] eqn:Hrid.
  2:{ rewrite bool_decide_eq_false_2 by (by intros [? ?]). by eauto. }
  rewrite bool_decide_eq_true_2 by eauto.
  destruct (is_hashable_hash _ Hshape) as [k Hk].
  rewrite file_chunk_run. cbn [py_getitem]. rewrite Hrid, Hk.
  destruct (rooms (client (py st1)) !! k) as [a|] eqn:Hka.
  - destruct (lookup_lt_is_Some_2 _ _ (Hreg _ _ Hka)) as [r Hr].
    rewrite Hr. simpl.
    rewrite list_lookup_insert_eq by (by eapply lookup_lt_Some).
    set (st2 := with_py st1 _).
    destruct (invoke_live_all (RoomScope a) (JDict d)
                (r_listeners (append_event (JDict d) r)) st2 Hf)
      as (Hv2 & _).
    pose proof (invoke_live_all_returns (RoomScope a) (JDict d)
                  (r_listeners (append_event (JDict d) r)) st2 Hcb) as Hout.
    destruct (for_each _ _ st2) as [st3 out3]; simpl in Hv2, Hout.
    subst out3. exists st3. split; [done|].
    apply (view_registry_ok _ _ Hv2). unfold st2; simpl.
    intros k' a' Hk'. simpl in *. rewrite length_insert. by eapply Hreg.
  - cbv zeta. simpl.
    rewrite list_lookup_insert_eq by (rewrite length_app; simpl; lia).
    simpl. eexists. split; [done|]. simpl.
    intros k' a'. unfold registered, with_heap, with_client.
    cbn [py rooms client heap].
    rewrite length_insert, length_app. simpl.
    destruct (decide (k = k')) as [Heq|Hne]; [subst k'|].
    + rewrite lookup_insert_eq. intros [= <-]. lia.
    + rewrite lookup_insert_ne by done. intros Hk'.
      pose proof (Hreg _ _ Hk'). lia.
Qed.

(** ** The logs *)

Lemma filter_ext_elem {A} (P Q : A → Prop) `{∀ x, Decision (P x)}
  `{∀ x, Decision (Q x)} (l : list A) :
  (∀ x, x ∈ l → (P x ↔ Q x)) → filter P l = filter Q l.
Proof.
  induction l as [|x l IH]; intros HPQ; [done|].
  assert (Hl : filter P l = filter Q l).
  { apply IH. intros y Hy. apply HPQ. by right. }
  destruct (decide (P x)) as [HP|HP].
  - rewrite !filter_cons_True; [by rewrite Hl| |done].
    apply HPQ; [by left|done].
  - rewrite !filter_cons_False; [done| |done].
    intros HQ. apply HP, HPQ; [by left|done].
Qed.

Lemma filter_none {A} (P : A → Prop) `{∀ x, Decision (P x)} (l : list A) :
  (∀ x, x ∈ l → ¬ P x) → filter P l = [].
Proof.
  induction l as [|x l IH]; intros HP; [done|].
  rewrite filter_cons_False by (apply HP; by left).
  apply IH. intros y Hy. apply HP. by right.
Qed.

Lemma filed_start (p0 : pystate) : filed_so_far p0 p0 [].
Proof.
  split_and!.
  - intros a r' Hr'. unfold log_at. rewrite Hr'. by rewrite app_nil_r.
  - intros chunk Hin. by apply elem_of_nil in Hin.
  - done.
Qed.

Lemma filed_view (p0 p p' : pystate) (done : list json) :
  dispatch_view p' = dispatch_view p →
  filed_so_far p0 p done → filed_so_far p0 p' done.
Proof.
  intros Hv (Hlogs & Hrooms & Hlen). split_and!.
  - intros a r' Hr'.
    destruct (view_lookup _ _ _ _ (view_sym _ _ Hv) Hr') as (r & Hr & _ & Hev).
    rewrite <- Hev, (Hlogs a r Hr). f_equal.
    apply filter_ext_elem. intros x _. by rewrite (view_room_of _ _ x Hv).
  - intros chunk Hin. rewrite (view_room_of _ _ chunk Hv), (view_length _ _ Hv).
    by apply Hrooms.
  - by rewrite (view_length _ _ Hv).
Qed.

Lemma filed_skip (p0 p : pystate) (done : list json) (chunk : json) (e : exn) :
  py_getitem chunk "room_id" = Raise e →
  filed_so_far p0 p done → filed_so_far p0 p (done ++ [chunk]).
Proof.
  intros Hno (Hlogs & Hrooms & Hlen).
  assert (Hnone : room_of p chunk = None) by (unfold room_of; by rewrite Hno).
  split_and!.
  - intros a r' Hr'. rewrite (Hlogs a r' Hr'), filter_app.
    rewrite (filter_cons_False _ chunk) by (by rewrite Hnone).
    by rewrite filter_nil, app_nil_r.
  - intros x Hx. apply elem_of_app in Hx as [Hx|Hx]; [by apply Hrooms|].
    apply list_elem_of_singleton in Hx as ->. rewrite Hnone. by eauto.
  - done.
Qed.

Lemma filed_step (p0 : pystate) (st st2 : state) (a : addr)
  (done : list json) (chunk : json) :
  file_chunk chunk st = (st2, Ok a) →
  filed_so_far p0 (py st) done →
  filed_so_far p0 (py st2) (done ++ [chunk]).
Proof.
  rewrite file_chunk_run. intros H (Hlogs & Hrooms & Hlen).
  destruct (py_getitem chunk "room_id") as [rid|e] eqn:Hrid; [|discriminate].
  destruct (py_hash rid) as [k|e] eqn:Hk; [|discriminate].
  destruct (rooms (client (py st)) !! k) as [a0|] eqn:Hreg.
  - (* the room is registered *)
    destruct (heap (py st) !! a0) as [r|] eqn:Hr; [|discriminate].
    injection H as <- <-. simpl.
    set (p2 := with_heap (py st) _).
    assert (Hsame : ∀ x, room_of p2 x = room_of (py st) x) by done.
    assert (Hc : room_of (py st) chunk = Some a0).
    { unfold room_of. by rewrite Hrid, Hk. }
    split_and!.
    + intros a r' Hr'. unfold p2 in Hr'. simpl in Hr'.
      rewrite filter_app.
      change (filter (fun x => room_of p2 x = Some a) done)
        with (filter (fun x => room_of (py st) x = Some a) done).
      destruct (decide (a = a0)) as [->|Hne].
      * rewrite list_lookup_insert_eq in Hr' by (by eapply lookup_lt_Some).
        injection Hr' as <-. simpl. rewrite (Hlogs a0 r Hr).
        rewrite (filter_cons_True _ chunk) by exact Hc.
        by rewrite filter_nil, app_assoc.
      * rewrite list_lookup_insert_ne in Hr' by done.
        rewrite (Hlogs a r' Hr').
        rewrite (filter_cons_False _ chunk)
          by (change (room_of (py st) chunk ≠ Some a); congruence).
        by rewrite filter_nil, app_nil_r.
    + intros x Hx. change (room_of p2 x) with (room_of (py st) x).
      unfold p2. simpl. rewrite length_insert.
      apply elem_of_app in Hx as [Hx|Hx]; [by apply Hrooms|].
      apply list_elem_of_singleton in Hx as ->. rewrite Hc.
      by eapply lookup_lt_Some.
    + unfold p2. simpl. by rewrite length_insert.
  - (* the room is made *)
    cbv zeta in H. injection H as <- <-. simpl.
    set (n := length (heap (py st))).
    set (p2 := with_heap _ _).
    assert (Hold : ∀ x, x ∈ done → room_of p2 x = room_of (py st) x).
    { intros x Hx. specialize (Hrooms x Hx). unfold room_of in *.
      unfold p2. simpl.
      destruct (py_getitem x "room_id") as [ridx|]; [|done].
      destruct (py_hash ridx) as [kx|]; [|done].
      destruct (decide (kx = k)) as [->|Hne];
        [|by rewrite lookup_insert_ne].
      rewrite Hreg in Hrooms. by destruct Hrooms. }
    assert (Hc : room_of p2 chunk = Some n).
    { unfold room_of, p2. simpl. rewrite Hrid, Hk. apply lookup_insert_eq. }
    assert (Hlen2 : length (heap p2) = S n).
    { unfold p2. simpl. rewrite length_insert, length_app. simpl. lia. }
    split_and!.
    + intros a r' Hr'. rewrite filter_app.
      destruct (decide (a = n)) as [->|Hne].
      * unfold p2 in Hr'. simpl in Hr'.
        rewrite list_lookup_insert_eq in Hr'
          by (rewrite length_app; simpl; lia).
        injection Hr' as <-. simpl.
        assert (Hlog0 : log_at p0 n = []).
        { unfold log_at. rewrite lookup_ge_None_2; [done|]. unfold n. lia. }
        rewrite Hlog0. rewrite (filter_none _ done).
        2:{ intros x Hx. rewrite (Hold x Hx). specialize (Hrooms x Hx).
            destruct (room_of (py st) x) as [ax|]; [|done].
            intros [= ->]. unfold n in Hrooms. lia. }
        by rewrite (filter_cons_True _ chunk).
      * unfold p2 in Hr'. simpl in Hr'.
        rewrite list_lookup_insert_ne in Hr' by done.
        apply lookup_app_Some in Hr' as [Hr'|[Hge Hr']].
        2:{ destruct (a - length (heap (py st)))%nat eqn:Hd; [|done].
            unfold n in Hne. lia. }
        rewrite (Hlogs a r' Hr').
        rewrite (filter_ext_elem (fun x => room_of p2 x = Some a)
                   (fun x => room_of (py st) x = Some a) done)
          by (intros x Hx; by rewrite (Hold x Hx)).
        rewrite (filter_cons_False _ chunk) by (rewrite Hc; congruence).
        by rewrite filter_nil, app_nil_r.
    + intros x Hx. rewrite Hlen2.
      apply elem_of_app in Hx as [Hx|Hx].
      * rewrite (Hold x Hx). specialize (Hrooms x Hx).
        destruct (room_of (py st) x); [|done]. unfold n. lia.
      * apply list_elem_of_singleton in Hx as ->. rewrite Hc. lia.
    + rewrite Hlen2. unfold n. lia.
Qed.

Lemma process_chunk_live_filed (fuel : nat) (p0 : pystate)
  (done : list json) (chunk : json) (st st' : state) :
  callbacks_keep_dispatch → fits fuel (py st) →
  process_chunk_live fuel chunk st = Some (st', Ok tt) →
  filed_so_far p0 (py st) done →
  filed_so_far p0 (py st') (done ++ [chunk]).
Proof.
  intros Hf Hfits Hrun Hfiled.
  rewrite (process_chunk_live_run _ _ _ Hf Hfits) in Hrun.
  destruct (invoke_live_all Global chunk (listeners (client (py st))) st Hf)
    as (Hv & _).
  destruct (for_each _ _ st) as [st1 [[]|e]]; simpl in Hv; [|discriminate].
  apply (filed_view _ _ _ _ Hv) in Hfiled.
  destruct (py_in "room_id" chunk) as [[|]|e] eqn:Hin; [| |discriminate].
  - destruct (file_chunk chunk st1) as [st2 [a|e]] eqn:Hfile; [|discriminate].
    pose proof (filed_step _ _ _ _ _ _ Hfile Hfiled) as Hfiled2.
    destruct (heap (py st2) !! a) as [r|]; [|discriminate].
    destruct (invoke_live_all (RoomScope a) chunk (r_listeners r) st2 Hf)
      as (Hv2 & _).
    destruct (for_each _ _ st2) as [st3 out3]; simpl in Hv2.
    injection Hrun as <- _. by apply (filed_view _ _ _ _ Hv2).
  - injection Hrun as <-.
    destruct (py_in_false_getitem _ _ Hin) as [e He].
    by eapply filed_skip.
Qed.

(** ** The chunks of a poll *)

Lemma for_each_live_cons {A} (x : A) (l : list A) (body : A → L unit)
  (st : state) :
  for_each_live (x :: l) body st =
    match body x st with
    | Some (st', Ok _) => for_each_live l body st'
    | Some (st', Raise e) => Some (st', Raise e)
    | None => None
    end.
Proof. reflexivity. Qed.

Lemma chunks_live (fuel : nat) (p0 : pystate) (chunks : list json) :
  callbacks_keep_dispatch →
  ∀ (done : list json) (st : state),
    fits fuel (py st) → filed_so_far p0 (py st) done →
    ∃ st' out new,
      for_each_live chunks (process_chunk_live fuel) st = Some (st', out) ∧
      live_post chunks st st' out new ∧
      (out = Ok tt → filed_so_far p0 (py st') (done ++ chunks)) ∧
      (callbacks_return → registry_ok (py st) →
       forallb chunk_shape chunks = true → out = Ok tt).
Proof.
  intros Hf. induction chunks as [|c chunks IH]; intros done st Hfits Hfiled.
  - exists st, (Ok tt), []. split; [done|]. split; [|split; [|done]].
    + split; try done.
      * by rewrite app_nil_r.
      * constructor.
      * left. constructor.
    + intros _. by rewrite app_nil_r.
  - rewrite for_each_live_cons.
    destruct (process_chunk_live_post fuel c st Hf Hfits)
      as (st1 & out1 & new1 & Hrun1 & P1).
    rewrite Hrun1.
    assert (Hone : ∀ p, spec_delivery p (c :: chunks) =
                        spec_delivery p [c] ++ spec_delivery p chunks).
    { intros p. unfold spec_delivery; simpl. by rewrite app_nil_r. }
    destruct out1 as [[]|e].
    + pose proof (process_chunk_live_filed _ _ _ _ _ _ Hf Hfits Hrun1 Hfiled)
        as Hfiled1.
      destruct P1 as [Htr1 Hlog1 Hls1 Hrl1 Hpre1 Hcomp1 Hsl1 Hraised1 Hfit1].
      destruct (IH (done ++ [c]) st1 (Hfit1 _ Hfits) Hfiled1)
        as (st' & out & new2 & Hrun & P2 & Hfiled' & Hret).
      destruct P2 as [Htr2 Hlog2 Hls2 Hrl2 Hpre2 Hcomp2 Hsl2 Hraised2 Hfit2].
      assert (Hspec : spec_delivery (py st1) chunks
                      = spec_delivery (py st) chunks)
        by (by apply spec_delivery_ext).
      exists st', out, (new1 ++ new2). split; [done|]. split; [|split].
      * split.
        -- by rewrite Htr2, Htr1, app_assoc.
        -- congruence.
        -- congruence.
        -- intros rid. by rewrite Hrl2.
        -- rewrite Hone, delivered_app, (Hcomp1 eq_refl).
           apply prefix_app. by rewrite <- Hspec.
        -- intros Ho. rewrite Hone, delivered_app, (Hcomp1 eq_refl).
           by rewrite (Hcomp2 Ho), Hspec.
        -- by apply Forall_app.
        -- apply raised_last_app; [|done]. by apply raised_last_ok.
        -- intros fuel' Hfits'. by apply Hfit2, Hfit1.
      * intros Ho. specialize (Hfiled' Ho).
        rewrite <- app_assoc in Hfiled'. exact Hfiled'.
      * intros Hcb Hreg Hshape. simpl in Hshape.
        apply andb_true_iff in Hshape as [Hc Hshape].
        destruct (process_chunk_live_returns fuel c st Hf Hfits Hcb Hc Hreg)
          as (st1' & Hrun1' & Hreg1).
        rewrite Hrun1 in Hrun1'. injection Hrun1' as <-.
        by apply Hret.
    + exists st1, (Raise e), new1. split; [done|]. split; [|split].
      * destruct P1 as [Htr1 Hlog1 Hls1 Hrl1 Hpre1 Hcomp1 Hsl1 Hraised1 Hfit1].
        split; try done.
        rewrite Hone. by apply prefix_app_r.
      * discriminate.
      * intros Hcb Hreg Hshape. simpl in Hshape.
        apply andb_true_iff in Hshape as [Hc Hshape].
        destruct (process_chunk_live_returns fuel c st Hf Hfits Hcb Hc Hreg)
          as (st1' & Hrun1' & Hreg1).
        rewrite Hrun1 in Hrun1'. discriminate.
Qed.

(** ** A poll *)

Lemma bound_fits (fuel : nat) (p : pystate) :
  (listener_bound p < fuel)%nat → fits fuel p.
Proof.
  unfold listener_bound. intros Hb. split; [lia|].
  intros a r Hr.
  assert (Hle : (length (r_listeners r)
                 <= list_max (map (fun r => length (r_listeners r)) (heap p)))%nat).
  { pose proof (proj1 (list_max_le
                  (map (fun r => length (r_listeners r)) (heap p)) _)
                  (Nat.le_refl _)) as Hall.
    rewrite List.Forall_forall in Hall. apply Hall.
    apply in_map_iff. exists r. split; [done|].
    apply list_elem_of_In. by eapply list_elem_of_lookup_2. }
  lia.
Qed.

Lemma listen_for_events_live_run (fuel : nat) (timeout : Z) (st : state)
  (cur : json) (e' : Env) (resp tok : json) :
  end_ (client (py st)) = Some cur →
  transport (ApiEventStream cur timeout) (env st) = (e', Ok resp) →
  py_getitem resp "end" = Ok tok →
  listen_for_events_live fuel timeout st =
    let st1 := with_py (after_call st (ApiEventStream cur timeout) e')
                       (with_end (py st) tok) in
    match res_bind (py_getitem resp "chunk") py_iter with
    | Ok chunks => for_each_live chunks (process_chunk_live fuel) st1
    | Raise e => Some (st1, Raise e)
    end.
Proof.
  intros Hcur Ht Htok. unfold listen_for_events_live.
  rewrite lbind_run. unfold run at 1. rewrite get_end_run, Hcur.
  rewrite lbind_run. unfold run at 1. rewrite api_run, Ht. simpl.
  rewrite lbind_run. unfold run at 1, lift at 1. rewrite Htok.
  rewrite lbind_run. unfold run at 1, set_end at 1.
  rewrite (bind_Ok get_py _ _ _ _ eq_refl). unfold set_py at 1. simpl.
  rewrite lbind_run. unfold run at 1, lift at 1.
  destruct (py_getitem resp "chunk") as [ch|e]; simpl; [|done].
  rewrite lbind_run. unfold run at 1, lift at 1.
  by destruct (py_iter ch).
Qed.

(** ** Whatever the callbacks do *)







(** Every way a poll can go: it stops before the loop and calls no
    callback, or it runs the loop over the chunks from a state that
    differs from the start by the logged request and the cursor. *)
Lemma listen_for_events_live_cases (fuel : nat) (timeout : Z) (st : state) :
  (∃ st' e, listen_for_events_live fuel timeout st = Some (st', Raise e) ∧
            trace st' = trace st) ∨
  (∃ cur e' resp tok chunks,
     end_ (client (py st)) = Some cur ∧
     transport (ApiEventStream cur timeout) (env st) = (e', Ok resp) ∧
     py_getitem resp "end" = Ok tok ∧
     res_bind (py_getitem resp "chunk") py_iter = Ok chunks ∧
     listen_for_events_live fuel timeout st =
       for_each_live chunks (process_chunk_live fuel)
         (with_py (after_call st (ApiEventStream cur timeout) e')
                  (with_end (py st) tok))).
Proof.
  destruct (end_ (client (py st))) as [cur|] eqn:Hcur.
  2:{ left. unfold listen_for_events_live.
      rewrite lbind_run. unfold run at 1. rewrite get_end_run, Hcur.
      by eauto. }
  destruct (transport (ApiEventStream cur timeout) (env st))
    as [e' [resp|e]] eqn:Ht.
  2:{ left. unfold listen_for_events_live.
      rewrite lbind_run. unfold run at 1. rewrite get_end_run, Hcur.
      rewrite lbind_run. unfold run at 1. rewrite api_run, Ht. simpl.
      by eauto. }
  destruct (py_getitem resp "end") as [tok|e] eqn:Htok.
  2:{ left. unfold listen_for_events_live.
      rewrite lbind_run. unfold run at 1. rewrite get_end_run, Hcur.
      rewrite lbind_run. unfold run at 1. rewrite api_run, Ht. simpl.
      rewrite lbind_run. unfold run at 1, lift at 1. rewrite Htok.
      by eauto. }
  rewrite (listen_for_events_live_run _ _ _ _ _ _ _ Hcur Ht Htok). cbv zeta.
  destruct (res_bind (py_getitem resp "chunk") py_iter) as [chunks|e] eqn:Hch.
  - right. by exists cur, e', resp, tok, chunks.
  - left. by eauto.
Qed.

(** ** What a poll keeps *)

Lemma keeps_live_run {A} (I : pystate → Prop) (m : M A) :
  hoare I m (fun _ => I) I → keeps_live I (run m).
Proof.
  intros Hm st st' out HI Hrun. unfold run in Hrun.
  specialize (Hm st HI). injection Hrun as Hrun. rewrite Hrun in Hm.
  by destruct out.
Qed.

Lemma keeps_live_bind {A B} (I : pystate → Prop) (m : L A) (k : A → L B) :
  keeps_live I m → (∀ a, keeps_live I (k a)) → keeps_live I (lbind m k).
Proof.
  intros Hm Hk st st' out HI Hrun. rewrite lbind_run in Hrun.
  destruct (m st) as [[st1 [a|e]]|] eqn:Hmst; [| |discriminate].
  - eapply Hk; [|exact Hrun]. by eapply Hm.
  - injection Hrun as <- <-. by eapply Hm.
Qed.

Lemma keeps_live_ret {A} (I : pystate → Prop) (a : A) :
  keeps_live I (lret a).
Proof. intros st st' out HI [= <- _]. exact HI. Qed.

Lemma keeps_live_for_live (I : pystate → Prop) (fuel : nat)
  (xs : pystate → res (list lid)) (body : lid → M unit) (i : nat) :
  (∀ x, hoare I (body x) (fun _ => I) I) →
  keeps_live I (for_live fuel xs i body).
Proof.
  intros Hbody. revert i.
  induction fuel as [|fuel IH]; intros i st st' out HI Hrun; [done|].
  simpl in Hrun.
  destruct (xs (py st)) as [l|e]; [|by injection Hrun as <- _].
  destruct (l !! i) as [x|]; [|by injection Hrun as <- _].
  specialize (Hbody x st HI).
  destruct (body x st) as [st1 [[]|e]].
  - exact (IH (S i) st1 st' out Hbody Hrun).
  - by injection Hrun as <- _.
Qed.

Lemma keeps_live_for_each_live {A} (I : pystate → Prop) (l : list A)
  (body : A → L unit) :
  (∀ x, keeps_live I (body x)) → keeps_live I (for_each_live l body).
Proof.
  intros Hbody. induction l as [|x l IH]; simpl.
  - apply keeps_live_ret.
  - apply keeps_live_bind; [apply Hbody|]. intros u. exact IH.
Qed.

Lemma hoare_invoke_live (I : pystate → Prop) (sc : scope) (l : lid)
  (chunk : json) :
  (∀ l chunk p e, I p → I (effect l chunk p e)) →
  hoare I (invoke_live sc l chunk) (fun _ => I) I.
Proof.
  intros Heff st HI. rewrite invoke_live_run.
  destruct (snd _); simpl; by apply Heff.
Qed.

Lemma hoare_file_chunk (I : pystate → Prop) (chunk : json) :
  (∀ p a r, I p → heap p !! a = Some r →
            I (with_heap p (<[a:=append_event chunk r]> (heap p)))) →
  (∀ p rid k, I p → py_hash rid = Ok k → rooms (client p) !! k = None →
              I (registered (with_heap p (heap p ++ [Room_init rid])) k
                            (length (heap p)))) →
  hoare I (file_chunk chunk) (fun _ => I) I.
Proof.
  intros Hlog Hnew st HI. rewrite file_chunk_run.
  destruct (py_getitem chunk "room_id") as [rid|e]; [|done].
  destruct (py_hash rid) as [k|e] eqn:Hk; [|done].
  destruct (rooms (client (py st)) !! k) as [a|] eqn:Hreg.
  - destruct (heap (py st) !! a) as [r|] eqn:Hr; [|done].
    simpl. by apply Hlog.
  - cbv zeta. simpl.
    apply (Hlog (registered
                   (with_heap (py st) (heap (py st) ++ [Room_init rid])) k
                   (length (heap (py st))))).
    + by apply Hnew.
    + simpl. rewrite lookup_app_r, Nat.sub_diag by lia. done.
Qed.

(** A poll keeps an invariant that the callbacks keep and that
    tolerates moving the cursor, logging a chunk in a room and
    registering a blank room under a free key. *)
Lemma keeps_live_listen_for_events (I : pystate → Prop) (fuel : nat)
  (timeout : Z) :
  (∀ l chunk p e, I p → I (effect l chunk p e)) →
  (∀ p v, I p → I (with_end p v)) →
  (∀ chunk p a r, I p → heap p !! a = Some r →
     I (with_heap p (<[a:=append_event chunk r]> (heap p)))) →
  (∀ p rid k, I p → py_hash rid = Ok k → rooms (client p) !! k = None →
     I (registered (with_heap p (heap p ++ [Room_init rid])) k
                   (length (heap p)))) →
  keeps_live I (listen_for_events_live fuel timeout).
Proof.
  intros Heff Hend Hlog Hnew. unfold listen_for_events_live.
  apply keeps_live_bind.
  { apply keeps_live_run. eapply hoare_post; [apply hoare_get_end|]. done. }
  intros cur. apply keeps_live_bind.
  { apply keeps_live_run. apply hoare_api. }
  intros response. apply keeps_live_bind.
  { apply keeps_live_run. eapply hoare_post; [apply (hoare_lift I)|].
    by intros v p [? _]. }
  intros e. apply keeps_live_bind.
  { apply keeps_live_run. apply hoare_set_end. intros p. apply Hend. }
  intros u. apply keeps_live_bind.
  { apply keeps_live_run. eapply hoare_post; [apply (hoare_lift I)|].
    by intros v p [? _]. }
  intros ch. apply keeps_live_bind.
  { apply keeps_live_run. eapply hoare_post; [apply (hoare_lift I)|].
    by intros v p [? _]. }
  intros cl. apply keeps_live_for_each_live. intros chunk.
  unfold process_chunk_live. apply keeps_live_bind.
  { apply keeps_live_for_live. intros x. by apply hoare_invoke_live. }
  intros u1. apply keeps_live_bind.
  { apply keeps_live_run. eapply hoare_post; [apply (hoare_lift I)|].
    by intros v p [? _]. }
  intros [|]; [|apply keeps_live_ret].
  apply keeps_live_bind.
  { apply keeps_live_run. apply hoare_file_chunk; [apply Hlog|apply Hnew]. }
  intros a. apply keeps_live_for_live. intros x. by apply hoare_invoke_live.
Qed.

Lemma room_grows_trans (r1 r2 r3 : Room) :
  room_grows r1 r2 → room_grows r2 r3 → room_grows r1 r3.
Proof.
  intros (? & ? & ? & ? & ? & Hev1) (? & ? & ? & ? & ? & Hev2).
  repeat split; try congruence. by etrans.
Qed.

Lemma grows_trans (p1 p2 p3 : pystate) :
  grows p1 p2 → grows p2 p3 → grows p1 p3.
Proof.
  intros (Hl1 & Hr1 & Hh1) (Hl2 & Hr2 & Hh2). split; [congruence|].
  split; [by auto|]. intros a r Hr.
  destruct (Hh1 a r Hr) as (r2 & Hr2' & Hg1).
  destruct (Hh2 a r2 Hr2') as (r3 & Hr3 & Hg2).
  exists r3. split; [done|]. by eapply room_grows_trans.
Qed.

(** X2. A poll over the live lists, however it ends, only adds when the
    callbacks only add: it keeps the global listeners, the entries of
    the registry and the identifier, listeners, name, aliases and topic
    of every room object; the log of a room only grows at its end. *)
Theorem poll_only_adds (fuel : nat) (timeout : Z) (st st' : state)
  (out : res unit) :
  callbacks_only_add →
  listen_for_events_live fuel timeout st = Some (st', out) →
  grows (py st) (py st').
Proof.
  intros Hadd Hrun.
  assert (Hkeeps : keeps_live (grows (py st))
                     (listen_for_events_live fuel timeout)).
  { apply keeps_live_listen_for_events.
    - intros l chunk p e Hp. eapply grows_trans; [exact Hp|apply Hadd].
    - intros p v Hp. exact Hp.
    - intros chunk p a r Hp Hr. by apply grows_log.
    - intros p rid k Hp _ Hk. by apply grows_register. }
  exact (Hkeeps st st' out (grows_refl _) Hrun).
Qed.

(** ** Which callbacks a poll calls *)

Lemma poll_live_post (fuel : nat) (timeout : Z) (st : state) (cur : json)
  (e' : Env) (resp tok : json) (chunks : list json) :
  callbacks_keep_dispatch →
  end_ (client (py st)) = Some cur →
  transport (ApiEventStream cur timeout) (env st) = (e', Ok resp) →
  py_getitem resp "end" = Ok tok →
  res_bind (py_getitem resp "chunk") py_iter = Ok chunks →
  (listener_bound (py st) < fuel)%nat →
  ∃ st' out,
    listen_for_events_live fuel timeout st = Some (st', out) ∧
    delivered (new_trace st st') `prefix_of` spec_delivery (py st) chunks ∧
    (out = Ok tt → delivered (new_trace st st') = spec_delivery (py st) chunks).
Proof.
  intros Hf Hcur Ht Htok Hch Hfuel.
  rewrite (listen_for_events_live_run _ _ _ _ _ _ _ Hcur Ht Htok).
  rewrite Hch. cbv zeta.
  set (st1 := with_py _ _).
  destruct (chunks_live fuel (py st) chunks Hf [] st1)
    as (st' & out & new & Hrun & P & _).
  { by apply bound_fits. }
  { apply (filed_start (py st1)). }
  exists st', out. split; [done|].
  destruct P as [Htr Hlog Hls Hrl Hpre Hcomp Hsl Hraised Hfit].
  assert (Hnew : new_trace st st' = new).
  { apply new_trace_app. by rewrite Htr. }
  rewrite Hnew. by split.
Qed.

(** X4. When the callbacks keep what the dispatch reads, every call a poll
    makes from the loop over the listeners of a room passes a chunk
    whose [room_id] was registered to that room when the poll began, to
    a callback that was a listener of that room then. *)
Theorem room_listener_gets_own_chunks (fuel : nat) (timeout : Z)
  (st st' : state) (out : res unit) :
  callbacks_keep_dispatch →
  (listener_bound (py st) < fuel)%nat →
  listen_for_events_live fuel timeout st = Some (st', out) →
  Forall (fun i => ∀ a, inv_scope i = RoomScope a →
            room_of (py st) (inv_chunk i) = Some a ∧
            ∃ r, heap (py st) !! a = Some r ∧
                 In (inv_listener i) (r_listeners r))
    (new_trace st st').
Proof.
  intros Hf Hfuel Hrun.
  destruct (listen_for_events_live_cases fuel timeout st)
    as [(st1 & e & Hstop & Htr)
       |(cur & e' & resp & tok & chunks & Hcur & Ht & Htok & Hch & _)].
  - rewrite Hrun in Hstop. injection Hstop as -> _.
    rewrite (new_trace_app _ _ []) by (by rewrite app_nil_r). constructor.
  - destruct (poll_live_post fuel timeout st cur e' resp tok chunks
                Hf Hcur Ht Htok Hch Hfuel)
      as (st1 & out1 & Hrun1 & Hpre & _).
    rewrite Hrun in Hrun1. injection Hrun1 as <- <-.
    apply Forall_forall. intros i Hi a Ha.
    apply (spec_delivery_for_room (py st) chunks a (inv_listener i)
             (inv_chunk i)).
    destruct Hpre as [rest Hrest]. rewrite Hrest.
    apply in_or_app. left.
    unfold delivered. apply in_map_iff. exists i.
    rewrite Ha. split; [done|]. by apply list_elem_of_In.
Qed.

(** ** Registering listeners *)

(** X5. [add_listener] returns, and in a following poll that returns, with
    callbacks that keep what the dispatch reads, the calls for each
    chunk are those of before with one call of the added callback
    after the global listeners registered before it and before the
    listeners of the room. *)
Theorem added_listener_is_called_last (cb : lid) (fuel : nat)
  (timeout : Z) (st st' : state) (cur : json) (e' : Env) (resp tok : json)
  (chunks : list json) :
  let st1 := fst (add_listener cb st) in
  callbacks_keep_dispatch →
  end_ (client (py st)) = Some cur →
  transport (ApiEventStream cur timeout) (env st) = (e', Ok resp) →
  py_getitem resp "end" = Ok tok →
  py_getitem resp "chunk" = Ok (JList chunks) →
  (listener_bound (py st1) < fuel)%nat →
  listen_for_events_live fuel timeout st1 = Some (st', Ok tt) →
  snd (add_listener cb st) = Ok tt ∧
  delivered (new_trace st1 st') =
    flat_map (fun chunk => global_calls (py st) chunk ++
                           (Global, cb, chunk) ::
                           room_calls (py st) chunk) chunks.
Proof.
  intros st1 Hf Hcur Ht Htok Hch Hfuel Hrun. split; [done|].
  assert (Hiter : res_bind (py_getitem resp "chunk") py_iter = Ok chunks)
    by (by rewrite Hch).
  destruct (poll_live_post fuel timeout st1 cur e' resp tok chunks
              Hf Hcur Ht Htok Hiter Hfuel) as (st2 & out2 & Hrun2 & _ & Hcomp).
  rewrite Hrun in Hrun2. injection Hrun2 as <- <-.
  rewrite (Hcomp eq_refl).
  apply flat_map_ext. intros chunk.
  unfold spec_chunk_delivery, global_calls, room_calls. simpl.
  rewrite map_app. simpl. by rewrite <- app_assoc.
Qed.

(** X6. [Room.add_listener] returns, and in a following poll that returns,
    with callbacks that keep what the dispatch reads, the calls are
    those of before with, for each chunk of that room, one more call of
    the added callback after the listeners the room had; a callback
    that was registered already is called once more. *)
Theorem added_room_listener_is_called_last (self : addr) (r : Room)
  (cb : lid) (fuel : nat) (timeout : Z) (st st' : state) (cur : json)
  (e' : Env) (resp tok : json) (chunks : list json) :
  let st1 := fst (Room_add_listener self cb st) in
  callbacks_keep_dispatch →
  heap (py st) !! self = Some r →
  end_ (client (py st)) = Some cur →
  transport (ApiEventStream cur timeout) (env st) = (e', Ok resp) →
  py_getitem resp "end" = Ok tok →
  py_getitem resp "chunk" = Ok (JList chunks) →
  (listener_bound (py st1) < fuel)%nat →
  listen_for_events_live fuel timeout st1 = Some (st', Ok tt) →
  snd (Room_add_listener self cb st) = Ok tt ∧
  delivered (new_trace st1 st') =
    flat_map (fun chunk =>
                global_calls (py st) chunk ++ room_calls (py st) chunk ++
                (if bool_decide (room_of (py st) chunk = Some self)
                 then [(RoomScope self, cb, chunk)] else []))
             chunks.
Proof.
  intros st1 Hf Hself Hcur Ht Htok Hch Hfuel Hrun.
  assert (Hadd : Room_add_listener self cb st =
    (with_py st (with_heap (py st)
       (<[self:=append_listener cb r]> (heap (py st)))), Ok tt)).
  { unfold Room_add_listener. by apply modify_room_run. }
  subst st1. rewrite Hadd in *. simpl fst in *. split; [done|].
  assert (Hiter : res_bind (py_getitem resp "chunk") py_iter = Ok chunks)
    by (by rewrite Hch).
  destruct (poll_live_post fuel timeout
              (with_py st (with_heap (py st)
                 (<[self:=append_listener cb r]> (heap (py st)))))
              cur e' resp tok chunks Hf Hcur Ht Htok Hiter Hfuel)
    as (st2 & out2 & Hrun2 & _ & Hcomp).
  rewrite Hrun in Hrun2. injection Hrun2 as <- <-.
  rewrite (Hcomp eq_refl).
  apply flat_map_ext. intros chunk.
  unfold spec_chunk_delivery, global_calls. f_equal.
  unfold room_calls, room_of. simpl.
  destruct (py_getitem chunk "room_id") as [rid|]; [|done].
  rewrite (room_listeners_at_added _ _ _ _ _ Hself), map_app. f_equal.
  destruct (py_hash rid) as [k|]; [|done].
  destruct (decide (rooms (client (py st)) !! k = Some self)) as [Hk|Hk].
  - by rewrite !bool_decide_eq_true_2.
  - by rewrite !bool_decide_eq_false_2.
Qed.

(** ** Callbacks that leave the client alone

    For such callbacks the loops over the live lists are the loops of
    [listen_for_events]. *)

Lemma process_chunk_run (chunk : json) (st : state) :
  process_chunk chunk st =
    match for_each (listeners (client (py st)))
            (fun l => invoke Global l chunk) st with
    | (st1, Raise e) => (st1, Raise e)
    | (st1, Ok _) =>
        match py_in "room_id" chunk with
        | Raise e => (st1, Raise e)
        | Ok false => (st1, Ok tt)
        | Ok true =>
            match file_chunk chunk st1 with
            | (st2, Raise e) => (st2, Raise e)
            | (st2, Ok a) =>
                match heap (py st2) !! a with
                | Some r =>
                    for_each (r_listeners r)
                      (fun l => invoke (RoomScope a) l chunk) st2
                | None => (st2, Raise BadAddress)
                end
            end
        end
    end.
Proof.
  unfold process_chunk.
  rewrite (bind_Ok get_py _ st st (py st)) by reflexivity.
  rewrite bind_run.
  destruct (for_each _ _ st) as [st1 [[]|e]]; [|done].
  rewrite bind_lift.
  destruct (py_in "room_id" chunk) as [[|]|e]; [|done|done].
  rewrite file_chunk_run. rewrite bind_lift.
  destruct (py_getitem chunk "room_id") as [rid|e] eqn:Hrid; [|done].
  rewrite bind_run, rooms_contains_run.
  destruct (py_hash rid) as [k|e] eqn:Hk; simpl; [|done].
  destruct (rooms (client (py st1)) !! k) as [a|] eqn:Hreg; simpl.
  - rewrite bind_run. unfold ret at 1.
    rewrite bind_lift, bind_run, (rooms_getitem_run _ _ _ Hk), Hreg.
    rewrite bind_run.
    destruct (heap (py st1) !! a) as [r|] eqn:Hheap.
    + rewrite (modify_room_run _ _ _ _ Hheap).
      rewrite bind_lift, bind_run, (rooms_getitem_run _ _ _ Hk). simpl.
      rewrite Hreg. rewrite bind_run, get_room_run. simpl.
      by rewrite list_lookup_insert_eq by (by eapply lookup_lt_Some).
    + by rewrite (modify_room_bad _ _ _ Hheap).
  - rewrite bind_run, bind_lift, bind_run, (mkroom_run _ _ _ Hk).
    unfold ret at 1. cbv beta iota zeta.
    rewrite bind_lift, bind_run, (rooms_getitem_run _ _ _ Hk).
    simpl. rewrite lookup_insert_eq.
    assert (Hnew : (heap (py st1) ++ [Room_init rid]) !! length (heap (py st1))
                   = Some (Room_init rid)).
    { rewrite lookup_app_r, Nat.sub_diag by lia. done. }
    rewrite bind_run.
    erewrite modify_room_run by (simpl; exact Hnew).
    simpl.
    rewrite bind_lift, bind_run, (rooms_getitem_run _ _ _ Hk).
    simpl. rewrite lookup_insert_eq.
    rewrite bind_run, get_room_run. simpl.
    by rewrite list_lookup_insert_eq by (rewrite length_app; simpl; lia).
Qed.

Lemma for_each_ext {A} (l : list A) (f g : A → M unit) (st : state) :
  (∀ x st, f x st = g x st) → for_each l f st = for_each l g st.
Proof.
  intros Hfg. revert st. induction l as [|x l IH]; intros st; [done|].
  simpl. rewrite !bind_run, Hfg.
  destruct (g x st) as [st1 [[]|e]]; [apply IH|done].
Qed.

Lemma invoke_live_observer (sc : scope) (l : lid) (chunk : json)
  (st : state) :
  (∀ l chunk p e, effect l chunk p e = p) →
  invoke_live sc l chunk st = invoke sc l chunk st.
Proof. intros Hobs. by rewrite invoke_live_run, invoke_run, Hobs. Qed.

Theorem listen_for_events_of_observers (fuel : nat) (timeout : Z)
  (st : state) :
  (∀ l chunk p e, effect l chunk p e = p) →
  (listener_bound (py st) < fuel)%nat →
  listen_for_events_live fuel timeout st = Some (listen_for_events timeout st).
Proof.
  intros Hobs Hfuel.
  assert (Hf : callbacks_keep_dispatch).
  { intros l chunk p e. by rewrite Hobs. }
  assert (Hchunk : ∀ chunk st, fits fuel (py st) →
            process_chunk_live fuel chunk st = Some (process_chunk chunk st)).
  { intros chunk st0 Hfits.
    rewrite (process_chunk_live_run _ _ _ Hf Hfits), process_chunk_run.
    f_equal.
    rewrite (for_each_ext _ _ (fun l => invoke Global l chunk))
      by (intros; by apply invoke_live_observer).
    destruct (for_each _ _ st0) as [st1 [[]|e]]; [|done].
    destruct (py_in "room_id" chunk) as [[|]|e]; try done.
    destruct (file_chunk chunk st1) as [st2 [a|e]]; [|done].
    destruct (heap (py st2) !! a) as [r|]; [|done].
    apply for_each_ext. intros; by apply invoke_live_observer. }
  assert (Hchunks : ∀ chunks st, fits fuel (py st) →
            for_each_live chunks (process_chunk_live fuel) st
            = Some (for_each chunks process_chunk st)).
  { induction chunks as [|c chunks IH]; intros st0 Hfits; [done|].
    rewrite for_each_live_cons. simpl. rewrite bind_run.
    destruct (process_chunk_live_post fuel c st0 Hf Hfits)
      as (st1 & out1 & new1 & Hrun1 & P1).
    rewrite (Hchunk c st0 Hfits) in Hrun1. injection Hrun1 as Hrun1.
    rewrite (Hchunk c st0 Hfits), Hrun1.
    destruct out1 as [[]|e]; [|done].
    apply IH. destruct P1. by auto. }
  unfold listen_for_events.
  destruct (end_ (client (py st))) as [cur|] eqn:Hcur.
  2:{ unfold listen_for_events_live.
      rewrite lbind_run. unfold run at 1.
      by rewrite bind_run, get_end_run, Hcur. }
  destruct (transport (ApiEventStream cur timeout) (env st))
    as [e' [resp|e]] eqn:Ht.
  2:{ unfold listen_for_events_live.
      rewrite lbind_run. unfold run at 1.
      rewrite bind_run, get_end_run, Hcur.
      rewrite lbind_run. unfold run at 1.
      by rewrite bind_run, api_run, Ht. }
  destruct (py_getitem resp "end") as [tok|e] eqn:Htok.
  2:{ unfold listen_for_events_live.
      rewrite lbind_run. unfold run at 1.
      rewrite bind_run, get_end_run, Hcur.
      rewrite lbind_run. unfold run at 1.
      rewrite bind_run, api_run, Ht. simpl.
      rewrite lbind_run. unfold run at 1, lift at 1.
      by rewrite bind_lift, Htok. }
  fold (listen_for_events timeout st).
  rewrite (listen_for_events_live_run _ _ _ _ _ _ _ Hcur Ht Htok).
  rewrite (listen_for_events_run _ _ _ _ _ _ Hcur Ht Htok). cbv zeta.
  destruct (res_bind (py_getitem resp "chunk") py_iter) as [chunks|e];
    [|done].
  apply Hchunks. by apply bound_fits.
Qed.

End Reentrancy.

(** * Concrete runs of the properties above *)

Lemma registry_sound_lobby : registry_sound lobby.
Proof.
  intros k a Hk. simpl in Hk.
  apply lookup_singleton_Some in Hk as [<- <-].
  eexists. split; reflexivity.
Qed.

Lemma registry_ok_lobby : registry_ok lobby.
Proof.
  intros k a Hk. simpl in Hk.
  apply lookup_singleton_Some in Hk as [<- <-]. simpl. lia.
Qed.

(** [registry_sound_kept] at work: a bootstrap that names the registered
    room again, and a poll with a chunk for a room not yet known. *)
Lemma registry_sound_kept_witness :
  registry_sound
    (py (fst (@_sync world 1
       (start lobby [Ok (sync_response "tok2"
                           [sync_room_descr "!a:x" [] []])])))) ∧
  registry_sound
    (py (fst (@listen_for_events world 30000
       (start lobby [Ok (poll_response "tok2" [message "!b:y" "new"])])))).
Proof.
  split.
  - exact (proj1 (@registry_sound_kept world
                    (start lobby [Ok (sync_response "tok2"
                                        [sync_room_descr "!a:x" [] []])])
                    registry_sound_lobby) 1).
  - exact (proj1 (proj2 (@registry_sound_kept world
                    (start lobby [Ok (poll_response "tok2"
                                        [message "!b:y" "new"])])
                    registry_sound_lobby)) 30000).
Defined.

(** [join_room_falls_back_to_argument] at work: the answer names no
    room, so the alias itself becomes the key of the new room. *)
Lemma join_room_falls_back_to_argument_witness :
  let r := @join_room world "#lobby:x" (start lobby [Ok (JDict [])]) in
  snd r = Ok 1%nat ∧
  rooms (client (py (fst r))) !! KStr "#lobby:x" = Some 1%nat ∧
  heap (py (fst r)) !! 1%nat = Some (Room_init (JStr "#lobby:x")).
Proof.
  intros r. subst r.
  rewrite (@join_room_falls_back_to_argument world "#lobby:x"
             (start lobby [Ok (JDict [])]) [] [] (KStr "#lobby:x")
             eq_refl eq_refl).
  repeat split.
Defined.

(** [poll_needs_bootstrap_cursor] at work: a client built without a
    token, and one whose bootstrap answer has no [end]. *)
Lemma poll_needs_bootstrap_cursor_witness :
  (let st1 := fst (@MatrixClient__init__ world None (start fresh [])) in
   @listen_for_events world 30000 st1 = (st1, Raise AttributeError)) ∧
  (let st1 := fst (@MatrixClient__init__ world (Some "secret")
                     (start fresh [Ok (JDict [("rooms", JList [])])])) in
   @listen_for_events world 30000 st1 = (st1, Raise AttributeError)).
Proof.
  split.
  - exact (proj2 (proj2 (@poll_needs_bootstrap_cursor world None 30000
                           (start fresh []) (or_introl eq_refl)))).
  - exact (proj2 (proj2 (@poll_needs_bootstrap_cursor world (Some "secret")
             30000 (start fresh [Ok (JDict [("rooms", JList [])])])
             (or_intror (ex_intro _ []
                (ex_intro _ [("rooms", JList [])]
                   (conj eq_refl eq_refl))))))).
Defined.

(** [poll_resumes_from_bootstrap_cursor] at work. *)
Lemma poll_resumes_from_bootstrap_cursor_witness :
  let st := start fresh [Ok (sync_response "tok1" []);
                         Ok (poll_response "tok2" [])] in
  let st1 := fst (@MatrixClient__init__ world (Some "secret") st) in
  end_ (client (py st1)) = Some (JStr "tok1") ∧
  api_log (fst (@listen_for_events world 30000 st1)) =
    [ApiInitialSync 1; ApiEventStream (JStr "tok1") 30000].
Proof.
  exact (@poll_resumes_from_bootstrap_cursor world (Some "secret") 30000
           (start fresh [Ok (sync_response "tok1" []);
                         Ok (poll_response "tok2" [])])
           [Ok (poll_response "tok2" [])]
           [("end", JStr "tok1"); ("rooms", JList [])] (JStr "tok1")
           eq_refl eq_refl eq_refl).
Defined.

(** [update_aliases_without_alias_chunk] at work: the state answer holds
    a membership event only. *)
Lemma update_aliases_without_alias_chunk_witness :
  snd (@Room_update_aliases world 0%nat
         (start lobby [Ok (JList [member_event])])) = Ok JNull.
Proof.
  rewrite (proj1 (@update_aliases_without_alias_chunk world 0%nat
                    {| room_id := JStr "!a:x"; r_listeners := [5%nat];
                       events := [hi]; name := JStr "Lobby";
                       aliases := JList []; topic := JNull |}
                    (start lobby [Ok (JList [member_event])]) eq_refl)
             [] [member_event] eq_refl
             (Forall_cons_2 (fun chunk => has_aliases chunk = Ok false)
                member_event [] eq_refl (Forall_nil_2 _))).
  reflexivity.
Defined.

(** [update_aliases_settles] at work: the same state answer twice. *)
Lemma update_aliases_settles_witness :
  let answer := JList [member_event; aliases_event ["#a:x"]] in
  let st := start lobby [Ok answer; Ok answer] in
  snd (@Room_update_aliases world 0%nat st) = Ok (JBool true) ∧
  snd (@Room_update_aliases world 0%nat
         (fst (@Room_update_aliases world 0%nat st))) = Ok (JBool false).
Proof.
  intros answer st. split; [reflexivity|].
  assert (Hrefl : ∀ cl chunk c al,
            py_iter answer = Ok cl → In chunk cl →
            py_getitem chunk "content" = Ok c →
            py_getitem c "aliases" = Ok al → py_eq al al = true).
  { intros cl chunk c al [= <-] [<-|[<-|[]]] [= <-] [= <-]. reflexivity. }
  rewrite (@update_aliases_settles world 0%nat
             {| room_id := JStr "!a:x"; r_listeners := [5%nat];
                events := [hi]; name := JStr "Lobby";
                aliases := JList []; topic := JNull |}
             st [Ok answer] [] answer true
             eq_refl Hrefl eq_refl eq_refl eq_refl).
  reflexivity.
Defined.

(** [state_events_last_write_wins] at work: two name events, then events
    of other kinds. *)
Lemma state_events_last_write_wins_witness :
  let den := JDict [("type", JStr "m.room.name");
                    ("content", JDict [("name", JStr "Den")])] in
  let run := @for_each world _
               [name_event; den; member_event; untyped_event]
               (fun ev => _process_state_event ev 0%nat)
               (start lobby []) in
  ∃ r', heap (py (fst run)) !! 0%nat = Some r' ∧ name r' = JStr "Den".
Proof.
  intros den.
  exact (@state_events_last_write_wins world Name 0%nat
           {| room_id := JStr "!a:x"; r_listeners := [5%nat];
              events := [hi]; name := JStr "Lobby";
              aliases := JList []; topic := JNull |}
           [name_event] [member_event; untyped_event] den
           (JDict [("name", JStr "Den")]) (JStr "Den") (start lobby [])
           eq_refl eq_refl eq_refl eq_refl eq_refl
           (Forall_cons_2 _ member_event [untyped_event] eq_refl
              (Forall_cons_2 _ untyped_event [] eq_refl (Forall_nil_2 _)))).
Defined.

(** [listen_forever_keeps_polling] at work, in the world whose stream
    never runs dry. *)
Lemma steady_stream_answers : @stream_answers Steady.world 30000.
Proof.
  intros cur e. eexists _, _, _, _. repeat split; reflexivity.
Qed.

Lemma steady_callbacks_return : @callbacks_return Steady.world.
Proof. intros l chunk p e. reflexivity. Qed.

Lemma listen_forever_keeps_polling_witness :
  let r := @listen_forever Steady.world 3 30000 (Steady.start lobby) in
  snd r = None ∧ length (api_log (fst r)) = 3%nat.
Proof.
  exact (@listen_forever_keeps_polling Steady.world 30000
           (Steady.start lobby) 3
           steady_stream_answers steady_callbacks_return
           registry_ok_lobby (ex_intro _ (JStr "tok1") eq_refl)).
Defined.

(** [invite_and_ban_report_a_boolean] at work: a refused invitation and
    a ban that goes through. *)
Lemma invite_and_ban_report_a_boolean_witness :
  snd (@Room_invite_user world ScriptedAccount.homeserver 0%nat "@u:x"
         (ScriptedAccount.start lobby
            [Raise (MatrixRequestError 403 "forbidden")])) = Ok false ∧
  (let r := @Room_ban_user world ScriptedAccount.homeserver 0%nat "@u:x"
              "spam" (ScriptedAccount.start lobby [Ok (JDict [])]) in
   snd r = Ok true ∧
   requests (fst r) = [ApiBanUser (JStr "!a:x") "@u:x" "spam"]).
Proof.
  split.
  - rewrite (proj1 (@invite_and_ban_report_a_boolean world
                      ScriptedAccount.homeserver 0%nat
                      {| room_id := JStr "!a:x"; r_listeners := [5%nat];
                         events := [hi]; name := JStr "Lobby";
                         aliases := JList []; topic := JNull |}
                      "@u:x" "spam"
                      (ScriptedAccount.start lobby
                         [Raise (MatrixRequestError 403 "forbidden")])
                      eq_refl)).
    reflexivity.
  - cbv zeta.
    rewrite (proj2 (@invite_and_ban_report_a_boolean world
                      ScriptedAccount.homeserver 0%nat
                      {| room_id := JStr "!a:x"; r_listeners := [5%nat];
                         events := [hi]; name := JStr "Lobby";
                         aliases := JList []; topic := JNull |}
                      "@u:x" "spam"
                      (ScriptedAccount.start lobby [Ok (JDict [])])
                      eq_refl)).
    split; reflexivity.
Defined.

(** [update_room_name_and_topic_outcomes] at work: a new name is cached,
    an answer without topic changes nothing. *)
Lemma update_room_name_and_topic_outcomes_witness :
  (let r := @Room_update_room_name world ScriptedAccount.homeserver 0%nat
              (ScriptedAccount.start lobby
                 [Ok (JDict [("name", JStr "Hall")])]) in
   snd r = Ok true ∧
   name <$> heap (py (core (fst r))) !! 0%nat = Some (JStr "Hall")) ∧
  snd (@Room_update_room_topic world ScriptedAccount.homeserver 0%nat
         (ScriptedAccount.start lobby [Ok (JDict [])])) = Ok false.
Proof.
  split.
  - cbv zeta.
    rewrite (proj1 (@update_room_name_and_topic_outcomes world
                      ScriptedAccount.homeserver 0%nat
                      {| room_id := JStr "!a:x"; r_listeners := [5%nat];
                         events := [hi]; name := JStr "Lobby";
                         aliases := JList []; topic := JNull |}
                      (ScriptedAccount.start lobby
                         [Ok (JDict [("name", JStr "Hall")])])
                      eq_refl)).
    split; reflexivity.
  - rewrite (proj2 (@update_room_name_and_topic_outcomes world
                      ScriptedAccount.homeserver 0%nat
                      {| room_id := JStr "!a:x"; r_listeners := [5%nat];
                         events := [hi]; name := JStr "Lobby";
                         aliases := JList []; topic := JNull |}
                      (ScriptedAccount.start lobby [Ok (JDict [])])
                      eq_refl)).
    reflexivity.
Defined.

(** [refreshing_twice_changes_nothing] at work: the same name twice. *)
Lemma refreshing_twice_changes_nothing_witness :
  let answer := [("name", JStr "Hall")] in
  let s := ScriptedAccount.start lobby [Ok (JDict answer); Ok (JDict answer)] in
  let s1 := fst (@Room_update_room_name world ScriptedAccount.homeserver
                   0%nat s) in
  snd (@Room_update_room_name world ScriptedAccount.homeserver 0%nat s)
    = Ok true ∧
  snd (@Room_update_room_name world ScriptedAccount.homeserver 0%nat s1)
    = Ok false.
Proof.
  intros answer s s1. split; [reflexivity|].
  subst s1.
  assert (Hrefl : ∀ v, assoc "name" answer = Some v → py_eq v v = true).
  { intros v [= <-]. reflexivity. }
  rewrite (proj1 (@refreshing_twice_changes_nothing world
                    ScriptedAccount.homeserver 0%nat
                    {| room_id := JStr "!a:x"; r_listeners := [5%nat];
                       events := [hi]; name := JStr "Lobby";
                       aliases := JList []; topic := JNull |}
                    s eq_refl)
             [Ok (JDict answer)] [] answer Hrefl eq_refl eq_refl).
  reflexivity.
Defined.

(** ** Concrete runs with callbacks that act on the client *)

Lemma annotating_keeps_dispatch :
  @callbacks_keep_dispatch world Acting.annotating.
Proof.
  intros l chunk p e. simpl. unfold Acting.annotate.
  destruct (Nat.eqb l 7); [|done].
  unfold dispatch_view. simpl. by rewrite map_map.
Qed.

Lemma greeting_only_adds : @callbacks_only_add world Acting.greeting.
Proof.
  intros l chunk p e. simpl. unfold Acting.greet.
  destruct (Nat.eqb l 7); [|apply grows_refl].
  destruct (rooms (client p) !! KStr "!c:z") as [a|] eqn:Hk;
    [apply grows_refl|].
  rewrite (@mkroom_run world (JStr "!c:z") (KStr "!c:z")) by reflexivity.
  simpl. apply (grows_register p p); [apply grows_refl|done].
Qed.


(** [poll_only_adds] at work: the global listener makes a room while
    the poll is running. *)
Lemma poll_only_adds_witness :
  let st := start lobby [Ok (poll_response "tok2" [message "!a:x" "yo"])] in
  ∃ st',
    @listen_for_events_live world Acting.greeting 3 30000 st
      = Some (st', Ok tt) ∧
    grows (py st) (py st') ∧
    rooms (client (py st')) !! KStr "!c:z" = Some 1%nat.
Proof.
  intros st.
  destruct (@listen_for_events_live world Acting.greeting 3 30000 st)
    as [[st' out]|] eqn:Hrun; [|vm_compute in Hrun; discriminate].
  pose proof Hrun as Hc. vm_compute in Hc. injection Hc as Hst Hout.
  subst out. exists st'. split; [reflexivity|]. split.
  - exact (@poll_only_adds world Acting.greeting 3 30000 st st' (Ok tt)
             greeting_only_adds Hrun).
  - rewrite <- Hst. reflexivity.
Defined.

(** [room_listener_gets_own_chunks] at work. *)
Lemma room_listener_gets_own_chunks_witness :
  let first := message "!a:x" "yo" in
  let second := message "!b:y" "new" in
  let st := start lobby [Ok (poll_response "tok2" [first; second])] in
  ∃ st',
    @listen_for_events_live world Acting.annotating 3 30000 st
      = Some (st', Ok tt) ∧
    Forall (fun i => ∀ a, inv_scope i = RoomScope a →
              room_of (py st) (inv_chunk i) = Some a ∧
              ∃ r, heap (py st) !! a = Some r ∧
                   In (inv_listener i) (r_listeners r))
      (new_trace st st').
Proof.
  intros first second st.
  destruct (@listen_for_events_live world Acting.annotating 3 30000 st)
    as [[st' out]|] eqn:Hrun; [|vm_compute in Hrun; discriminate].
  pose proof Hrun as Hc. vm_compute in Hc. injection Hc as _ Hout.
  subst out. exists st'. split; [reflexivity|].
  exact (@room_listener_gets_own_chunks world Acting.annotating 3 30000
           st st' (Ok tt) annotating_keeps_dispatch
           ltac:(apply Nat.ltb_lt; reflexivity) Hrun).
Defined.

(** [added_listener_is_called_last] at work: listener 9 is added to the
    global listener 7. *)
Lemma added_listener_is_called_last_witness :
  let chunk := message "!a:x" "yo" in
  let st := start lobby [Ok (poll_response "tok2" [chunk])] in
  let st1 := fst (@add_listener world 9%nat st) in
  ∃ st',
    @listen_for_events_live world Acting.annotating 3 30000 st1
      = Some (st', Ok tt) ∧
    delivered (new_trace st1 st') =
      [(Global, 7%nat, chunk); (Global, 9%nat, chunk);
       (RoomScope 0, 5%nat, chunk)].
Proof.
  intros chunk st st1.
  destruct (@listen_for_events_live world Acting.annotating 3 30000 st1)
    as [[st' out]|] eqn:Hrun; [|vm_compute in Hrun; discriminate].
  pose proof Hrun as Hc. vm_compute in Hc. injection Hc as _ Hout.
  subst out. exists st'. split; [reflexivity|].
  exact (proj2 (@added_listener_is_called_last world Acting.annotating
                  9%nat 3 30000 st st' (JStr "tok1") []
                  (poll_response "tok2" [chunk]) (JStr "tok2") [chunk]
                  annotating_keeps_dispatch
                  eq_refl eq_refl eq_refl eq_refl
                  ltac:(apply Nat.ltb_lt; reflexivity) Hrun)).
Defined.

(** [added_room_listener_is_called_last] at work: listener 9 is added to
    the room listener 5, and then listener 5 once more; the second chunk
    is for another room. *)
Lemma added_room_listener_is_called_last_witness :
  let first := message "!a:x" "yo" in
  let second := message "!b:y" "new" in
  let st := start lobby [Ok (poll_response "tok2" [first; second])] in
  let st1 := fst (@Room_add_listener world 0%nat 9%nat st) in
  let st2 := fst (@Room_add_listener world 0%nat 5%nat st) in
  (∃ st',
     @listen_for_events_live world Acting.annotating 3 30000 st1
       = Some (st', Ok tt) ∧
     delivered (new_trace st1 st') =
       [(Global, 7%nat, first); (RoomScope 0, 5%nat, first);
        (RoomScope 0, 9%nat, first); (Global, 7%nat, second)]) ∧
  (∃ st',
     @listen_for_events_live world Acting.annotating 3 30000 st2
       = Some (st', Ok tt) ∧
     delivered (new_trace st2 st') =
       [(Global, 7%nat, first); (RoomScope 0, 5%nat, first);
        (RoomScope 0, 5%nat, first); (Global, 7%nat, second)]).
Proof.
  intros first second st st1 st2.
  pose (r := {| room_id := JStr "!a:x"; r_listeners := [5%nat];
                events := [hi]; name := JStr "Lobby";
                aliases := JList []; topic := JNull |}).
  split.
  - destruct (@listen_for_events_live world Acting.annotating 3 30000 st1)
      as [[st' out]|] eqn:Hrun; [|vm_compute in Hrun; discriminate].
    pose proof Hrun as Hc. vm_compute in Hc. injection Hc as _ Hout.
    subst out. exists st'. split; [reflexivity|].
    exact (proj2 (@added_room_listener_is_called_last world
                    Acting.annotating 0%nat r 9%nat 3 30000 st st'
                    (JStr "tok1") []
                    (poll_response "tok2" [first; second]) (JStr "tok2")
                    [first; second] annotating_keeps_dispatch
                    eq_refl eq_refl eq_refl eq_refl eq_refl
                    ltac:(apply Nat.ltb_lt; reflexivity) Hrun)).
  - destruct (@listen_for_events_live world Acting.annotating 3 30000 st2)
      as [[st' out]|] eqn:Hrun; [|vm_compute in Hrun; discriminate].
    pose proof Hrun as Hc. vm_compute in Hc. injection Hc as _ Hout.
    subst out. exists st'. split; [reflexivity|].
    exact (proj2 (@added_room_listener_is_called_last world
                    Acting.annotating 0%nat r 5%nat 3 30000 st st'
                    (JStr "tok1") []
                    (poll_response "tok2" [first; second]) (JStr "tok2")
                    [first; second] annotating_keeps_dispatch
                    eq_refl eq_refl eq_refl eq_refl eq_refl
                    ltac:(apply Nat.ltb_lt; reflexivity) Hrun)).
Defined.

(** X23. The loops read the lists as they are at each step: the global
    listener 7 takes itself off the list when it is called, and the
    loop passes over listener 8, registered after it, which misses the
    first chunk. *)
Example withdrawing_listener_hides_the_next :
  let first := message "!a:x" "yo" in
  let second := message "!a:x" "again" in
  let st := start Acting.lobby78 [Ok (poll_response "tok2" [first; second])] in
  ∃ st',
    @listen_for_events_live world Acting.withdrawing 3 30000 st
      = Some (st', Ok tt) ∧
    listeners (client (py st)) = [7%nat; 8%nat] ∧
    delivered (new_trace st st') =
      [(Global, 7%nat, first); (RoomScope 0, 5%nat, first);
       (Global, 8%nat, second); (RoomScope 0, 5%nat, second)] ∧
    listeners (client (py st')) = [8%nat].
Proof.
  intros first second st.
  destruct (@listen_for_events_live world Acting.withdrawing 3 30000 st)
    as [[st' out]|] eqn:Hrun; [|vm_compute in Hrun; discriminate].
  vm_compute in Hrun. injection Hrun as Hst Hout.
  subst out. exists st'. split; [reflexivity|].
  rewrite <- Hst. split; [reflexivity|]. split; reflexivity.
Qed.
